(** * ui-cloner-cli: the asset pipeline of [lib/website-cloner.js]

    A shallow embedding of the [WebsiteCloner] class: URL resolution, local
    file naming, the tracking filters, the asset fetcher with its
    [downloadedAssets] set, the consolidating [downloadAssets] pass and the
    final [generateHTMLOutput] rewrite.

    Conventions of the embedding.
    - A JavaScript string is a [string]: a sequence of 8-bit code units.  The
      model is exact on ASCII text; a non-ASCII character is the sequence of
      its UTF-8 bytes.
    - A cheerio document is the parsed tree ([node]); [load] and [$.html()]
      are the identity on trees.
    - The network, the disk, the clock and the scheduler are an explicit
      environment ([env]); everything the class mutates is an explicit
      [state].  The disk is its files: [fs.ensureDir] is taken to succeed
      and leaves no trace in the state. *)

From Stdlib Require Import Ascii String NArith DecimalString.
From stdpp Require Import base option list strings gmap.

Local Open Scope stdpp_scope.

(** ** JavaScript string primitives *)

Module JS.

Definition code (c : ascii) : nat := nat_of_ascii c.

Definition in_range (lo hi : nat) (c : ascii) : bool :=
  Nat.leb lo (code c) && Nat.leb (code c) hi.

Definition is_upper : ascii -> bool := in_range 65 90.
Definition is_lower : ascii -> bool := in_range 97 122.
Definition is_digit : ascii -> bool := in_range 48 57.
Definition is_alpha (c : ascii) : bool := is_upper c || is_lower c.
Definition is_alnum (c : ascii) : bool := is_alpha c || is_digit c.

Definition lower_char (c : ascii) : ascii :=
  if is_upper c then ascii_of_nat (code c + 32) else c.

Fixpoint map_chars (f : ascii -> ascii) (s : string) : string :=
  match s with
  | EmptyString => EmptyString
  | String c r => String (f c) (map_chars f r)
  end.

(** [s.toLowerCase()] *)
Definition toLowerCase : string -> string := map_chars lower_char.

(** [s.startsWith(p)] *)
Fixpoint startsWith (p s : string) : bool :=
  match p, s with
  | EmptyString, _ => true
  | String a p', String b s' => if Ascii.eqb a b then startsWith p' s' else false
  | String _ _, EmptyString => false
  end.

(** [s.includes(p)] *)
Fixpoint includes (p s : string) : bool :=
  startsWith p s ||
  match s with
  | EmptyString => false
  | String _ s' => includes p s'
  end.

Fixpoint drop (n : nat) (s : string) : string :=
  match n, s with
  | O, _ => s
  | S n', String _ s' => drop n' s'
  | S _, EmptyString => EmptyString
  end.

(** [s.replace(pat, rep)] with a string pattern: the first occurrence only.
    ([rep] never holds a dollar sign where the class calls it.) *)
Fixpoint replace (pat rep s : string) : string :=
  if startsWith pat s then rep +:+ drop (String.length pat) s
  else match s with
       | EmptyString => EmptyString
       | String c s' => String c (replace pat rep s')
       end.

(** [s.split(sep)] for a one-character separator *)
Fixpoint split (sep : ascii) (s : string) : list string :=
  match s with
  | EmptyString => [EmptyString]
  | String c r =>
      if Ascii.eqb c sep then EmptyString :: split sep r
      else match split sep r with
           | [] => [String c EmptyString]
           | h :: t => String c h :: t
           end
  end.

Fixpoint rev_onto (s acc : string) : string :=
  match s with
  | EmptyString => acc
  | String c r => rev_onto r (String c acc)
  end.

Definition rev (s : string) : string := rev_onto s EmptyString.

Fixpoint drop_while (p : ascii -> bool) (s : string) : string :=
  match s with
  | EmptyString => EmptyString
  | String c r => if p c then drop_while p r else s
  end.

Fixpoint take_while (p : ascii -> bool) (s : string) : string :=
  match s with
  | EmptyString => EmptyString
  | String c r => if p c then String c (take_while p r) else EmptyString
  end.

Fixpoint filter_chars (p : ascii -> bool) (s : string) : string :=
  match s with
  | EmptyString => EmptyString
  | String c r => if p c then String c (filter_chars p r) else filter_chars p r
  end.

(** [s] without its longest suffix of characters in [p]. *)
Fixpoint strip_end (p : ascii -> bool) (s : string) : string :=
  match s with
  | EmptyString => EmptyString
  | String c r =>
      match strip_end p r with
      | EmptyString => if p c then EmptyString else String c EmptyString
      | r' => String c r'
      end
  end.

Definition strip (p : ascii -> bool) (s : string) : string :=
  strip_end p (drop_while p s).

(** White space of [String.prototype.trim] within one byte. *)
Definition is_js_space (c : ascii) : bool :=
  in_range 9 13 c || Nat.eqb (code c) 32.

Definition trim : string -> string := strip is_js_space.

Fixpoint all_chars (p : ascii -> bool) (s : string) : bool :=
  match s with
  | EmptyString => true
  | String c r => p c && all_chars p r
  end.

(** truthiness of a string: [!!s] *)
Definition truthy (s : string) : bool :=
  match s with EmptyString => false | _ => true end.

Definition is_char (a : ascii) (c : ascii) : bool := Ascii.eqb a c.

(** The one-character string of a line feed. *)
Definition newline : string := String (ascii_of_nat 10) EmptyString.

Fixpoint concat_all (l : list string) : string :=
  match l with
  | [] => EmptyString
  | s :: r => s +:+ concat_all r
  end.

End JS.

(** ** Node's [path] module (POSIX flavour) *)

Module Path.

Definition slash : ascii := "/"%char.
Definition dot : ascii := "."%char.

(** [path.basename(p)]: trailing separators are dropped, then the part
    after the last separator is returned. *)
Definition basename (p : string) : string :=
  JS.rev (JS.take_while (fun c => negb (JS.is_char slash c))
            (JS.drop_while (JS.is_char slash) (JS.rev p))).

Fixpoint has_dot (s : string) : bool :=
  match s with
  | EmptyString => false
  | String c r => JS.is_char dot c || has_dot r
  end.

(** The suffix of [s] that starts at its last dot ([s] has one). *)
Fixpoint from_last_dot (s : string) : string :=
  match s with
  | EmptyString => EmptyString
  | String c r => if has_dot r then from_last_dot r else s
  end.

(** [path.extname(p)] for a [p] without separator, which is what the class
    passes: from the last dot on, unless there is no dot, the only dot is
    the first character, or [p] is [".."]. *)
Definition extname (p : string) : string :=
  match p with
  | EmptyString => EmptyString
  | String c r =>
      if negb (has_dot r) then EmptyString
      else if String.eqb p ".." then EmptyString
      else from_last_dot r
  end.

(** [path.join(a, b)] for a non-empty relative [b] without dot segments.
    The result is not normalised further (a leading [./] of [a] stays): it
    names the same file. *)
Definition join (a b : string) : string :=
  match a with
  | EmptyString => b
  | _ => JS.strip_end (JS.is_char slash) a +:+ "/" +:+ b
  end.

End Path.

(** ** The WHATWG [URL] class

    [new URL(input)] and [new URL(input, base)], as far as the class uses
    them: scheme detection, special schemes, authority, dot segments,
    percent-encoding of path, query and fragment, opaque paths, and
    resolution of a relative reference.  Not modelled: host validation (IDNA,
    IPv4 forms, forbidden host code points), port checks and default-port
    elision, credentials encoding, and [file:] drive letters; on input that
    needs none of these the model is the parser's result. *)

Module URL.

Record t := mk {
  scheme : string;               (* lower case, without the colon *)
  authority : option string;     (* what follows [//], when present *)
  opaque : bool;                 (* the path is an opaque string *)
  pathname : string;
  query : option string;         (* without the question mark *)
  fragment : option string       (* without the hash sign *)
}.

Definition opt_prefix (p : string) (o : option string) : string :=
  match o with Some x => p +:+ x | None => "" end.

(** [url.href] *)
Definition href (u : t) : string :=
  scheme u +:+ ":" +:+ opt_prefix "//" (authority u) +:+ pathname u
    +:+ opt_prefix "?" (query u) +:+ opt_prefix "#" (fragment u).

Definition is_special (s : string) : bool :=
  String.eqb s "http" || String.eqb s "https" || String.eqb s "ftp"
  || String.eqb s "ws" || String.eqb s "wss" || String.eqb s "file".

(** *** Percent-encoding *)

Definition hex_digit (n : nat) : ascii :=
  if Nat.ltb n 10 then ascii_of_nat (48 + n) else ascii_of_nat (55 + n).

Definition percent (c : ascii) : string :=
  String "%" (String (hex_digit (JS.code c / 16))
                (String (hex_digit (JS.code c mod 16)) EmptyString)).

Fixpoint encode (set : ascii -> bool) (s : string) : string :=
  match s with
  | EmptyString => EmptyString
  | String c r => (if set c then percent c else String c EmptyString) +:+ encode set r
  end.

Definition one_of (l : string) (c : ascii) : bool :=
  JS.includes (String c EmptyString) l.

Definition is_dquote (c : ascii) : bool := Nat.eqb (JS.code c) 34.

Definition c0_set (c : ascii) : bool :=
  Nat.ltb (JS.code c) 32 || Nat.ltb 126 (JS.code c).
Definition fragment_set (c : ascii) : bool :=
  c0_set c || is_dquote c || one_of " <>`" c.
Definition query_set (special : bool) (c : ascii) : bool :=
  c0_set c || is_dquote c || one_of " #<>" c
  || (special && JS.is_char "'" c).
Definition path_set (c : ascii) : bool :=
  query_set false c || one_of "?^`{}" c.

(** *** Splitting the input *)

Definition is_c0_or_space (c : ascii) : bool := Nat.leb (JS.code c) 32.
Definition is_tab_or_newline (c : ascii) : bool :=
  Nat.eqb (JS.code c) 9 || Nat.eqb (JS.code c) 10 || Nat.eqb (JS.code c) 13.

(** The parser first trims C0 controls and spaces at both ends and drops
    every tab and newline. *)
Definition preprocess (s : string) : string :=
  JS.filter_chars (fun c => negb (is_tab_or_newline c)) (JS.strip is_c0_or_space s).

(** Text the parser has nothing to trim or drop from: every character is
    above the space. *)
Definition printable (s : string) : bool :=
  JS.all_chars (fun c => negb (is_c0_or_space c)) s.

Definition is_scheme_char (c : ascii) : bool :=
  JS.is_alnum c || one_of "+-." c.

(** [split_scheme s] is [Some (scheme, rest)] when [s] is
    [scheme ":" rest]. *)
Definition split_scheme (s : string) : option (string * string) :=
  match s with
  | String c _ =>
      if JS.is_alpha c then
        match JS.drop_while is_scheme_char s with
        | String ":" rest =>
            Some (JS.toLowerCase (JS.take_while is_scheme_char s), rest)
        | _ => None
        end
      else None
  | EmptyString => None
  end.

Definition before (stop : ascii -> bool) (s : string) : string :=
  JS.take_while (fun c => negb (stop c)) s.
Definition from (stop : ascii -> bool) (s : string) : string :=
  JS.drop_while (fun c => negb (stop c)) s.

(** What follows the first [mark] of [s], if there is one. *)
Definition after_mark (mark : ascii) (s : string) : option string :=
  match from (JS.is_char mark) s with
  | String _ r => Some r
  | EmptyString => None
  end.

Definition is_hash : ascii -> bool := JS.is_char "#".
Definition is_qmark : ascii -> bool := JS.is_char "?".
Definition is_slash : ascii -> bool := JS.is_char "/".
Definition is_backslash (c : ascii) : bool := Nat.eqb (JS.code c) 92.

Definition raw_fragment (s : string) : option string := after_mark "#" s.
Definition raw_query (s : string) : option string :=
  after_mark "?" (before is_hash s).
Definition raw_main (s : string) : string :=
  before (fun c => is_hash c || is_qmark c) s.

(** In a special URL a backslash is a path separator. *)
Definition slashes (special : bool) (s : string) : string :=
  if special
  then JS.map_chars (fun c => if is_backslash c then "/"%char else c) s
  else s.

(** *** Paths and dot segments *)

Definition is_single_dot (s : string) : bool :=
  String.eqb (JS.toLowerCase s) "." || String.eqb (JS.toLowerCase s) "%2e".
Definition is_double_dot (s : string) : bool :=
  let l := JS.toLowerCase s in
  String.eqb l ".." || String.eqb l ".%2e" || String.eqb l "%2e."
  || String.eqb l "%2e%2e".

(** The path state: [acc] is the path so far, last segment first. *)
Fixpoint path_state (segs : list string) (acc : list string) : list string :=
  match segs with
  | [] => List.rev acc
  | s :: rest =>
      let last := match rest with [] => true | _ => false end in
      if is_double_dot s then
        path_state rest (if last then "" :: List.tl acc else List.tl acc)
      else if is_single_dot s then
        path_state rest (if last then "" :: acc else acc)
      else path_state rest (encode path_set s :: acc)
  end.

Fixpoint join_segments (l : list string) : string :=
  match l with
  | [] => ""
  | s :: r => "/" +:+ s +:+ join_segments r
  end.

(** Segments of a stored path, which starts with a slash or is empty. *)
Definition segments_of (p : string) : list string :=
  match p with
  | String _ r => JS.split "/" r
  | EmptyString => []
  end.

(** Parsing [rel] in the path state on top of the segments [start]
    (in order). *)
Definition parse_path (start : list string) (rel : string) : string :=
  join_segments (path_state (JS.split "/" rel) (List.rev start)).

(** A path that begins at the root: [p] is empty or starts with a slash. *)
Definition absolute_path (special : bool) (p : string) : string :=
  match p with
  | EmptyString => if special then "/" else ""
  | String _ r => parse_path [] r
  end.

Definition enc_query (special : bool) (s : string) : option string :=
  encode (query_set special) <$> raw_query s.
Definition enc_fragment (s : string) : option string :=
  encode fragment_set <$> raw_fragment s.

(** *** Authority *)

(** [s] starts right after the slashes that announce an authority. *)
Definition with_authority (sch : string) (s whole : string) : option t :=
  let special := is_special sch in
  let auth := before is_slash s in
  let host := if special then JS.toLowerCase auth else auth in
  if special && negb (JS.truthy auth) && negb (String.eqb sch "file") then None
  else Some (mk sch (Some host) false
               (absolute_path special (from is_slash s))
               (enc_query special whole) (enc_fragment whole)).

(** *** The parser without a base *)

Definition parse_after_scheme (sch rest : string) : option t :=
  let special := is_special sch in
  let main := slashes special (raw_main rest) in
  if special then
    with_authority sch (JS.drop_while is_slash main) rest
  else if JS.startsWith "//" main then
    with_authority sch (JS.drop 2 main) rest
  else if JS.startsWith "/" main then
    Some (mk sch None false (absolute_path false main)
            (enc_query false rest) (enc_fragment rest))
  else
    Some (mk sch None true (encode c0_set main)
            (enc_query false rest) (enc_fragment rest)).

(** [new URL(input)]; [None] is the [TypeError] it throws. *)
Definition parse (input : string) : option t :=
  match split_scheme (preprocess input) with
  | Some (sch, rest) => parse_after_scheme sch rest
  | None => None
  end.

(** *** Relative references *)

Definition shorten (segs : list string) : list string := List.removelast segs.

(** The relative state: [s] has no scheme of its own (or repeats the
    special scheme of [b] without an authority). *)
Definition relative (s : string) (b : t) : option t :=
  let special := is_special (scheme b) in
  let main := slashes special (raw_main s) in
  if JS.startsWith "//" main then
    with_authority (scheme b)
      (if special then JS.drop_while is_slash main else JS.drop 2 main) s
  else if JS.startsWith "/" main then
    Some (mk (scheme b) (authority b) false (absolute_path special main)
            (enc_query special s) (enc_fragment s))
  else if negb (JS.truthy main) then
    Some (mk (scheme b) (authority b) false (pathname b)
            (match raw_query s with
             | Some _ => enc_query special s
             | None => query b
             end)
            (enc_fragment s))
  else
    Some (mk (scheme b) (authority b) false
            (parse_path (shorten (segments_of (pathname b))) main)
            (enc_query special s) (enc_fragment s)).

(** A reference without scheme against a parsed base. *)
Definition no_scheme (s : string) (b : t) : option t :=
  if opaque b then
    if JS.startsWith "#" s
    then Some (mk (scheme b) (authority b) true (pathname b) (query b)
                 (enc_fragment s))
    else None
  else relative s b.

(** [new URL(input, base)] *)
Definition parse_with_base (input base : string) : option t :=
  match parse base with
  | None => None
  | Some b =>
      let s := preprocess input in
      match split_scheme s with
      | Some (sch, rest) =>
          if is_special sch && String.eqb sch (scheme b)
             && negb (JS.startsWith "//" (slashes true (raw_main rest)))
          then relative rest b
          else parse_after_scheme sch rest
      | None => no_scheme s b
      end
  end.

End URL.

(** ** The parsed document (cheerio) *)

Definition attrs := list (string * string).

Unset Elimination Schemes.
Inductive node : Type :=
| Text (s : string)
| Elem (tag : string) (a : attrs) (kids : list node).
Set Elimination Schemes.

Section node_ind.
Variable P : node -> Prop.
Hypothesis P_text : forall s, P (Text s).
Hypothesis P_elem : forall tag a kids, Forall P kids -> P (Elem tag a kids).

Fixpoint node_ind (n : node) : P n :=
  match n with
  | Text s => P_text s
  | Elem tag a kids =>
      P_elem tag a kids
        ((fix all (l : list node) : Forall P l :=
            match l with
            | [] => Forall_nil_2 P
            | k :: r => Forall_cons_2 P k r (node_ind k) (all r)
            end) kids)
  end.
End node_ind.

Module Dom.

(** [$(el).attr(name)]; [None] is [undefined]. *)
Fixpoint attr (name : string) (a : attrs) : option string :=
  match a with
  | [] => None
  | (k, v) :: r => if String.eqb k name then Some v else attr name r
  end.

(** [$(el).attr(name, value)] *)
Fixpoint set_attr (name value : string) (a : attrs) : attrs :=
  match a with
  | [] => [(name, value)]
  | (k, v) :: r =>
      if String.eqb k name then (k, value) :: r
      else (k, v) :: set_attr name value r
  end.

(** A truthy attribute: present and not the empty string. *)
Definition attr_truthy (name : string) (a : attrs) : option string :=
  match attr name a with
  | Some v => if JS.truthy v then Some v else None
  | None => None
  end.

Definition attr_is (name value : string) (a : attrs) : bool :=
  match attr name a with
  | Some v => String.eqb v value
  | None => false
  end.

Definition has_attr (name : string) (a : attrs) : bool :=
  match attr name a with Some _ => true | None => false end.

(** [$(el).html()] of a raw-text element ([style], [script]): its text. *)
Fixpoint text_of (kids : list node) : string :=
  match kids with
  | [] => ""
  | Text s :: r => s +:+ text_of r
  | Elem _ _ _ :: r => text_of r
  end.

(** An element as a selector or a callback sees it. *)
Definition view (A : Type) := string -> attrs -> string -> A.

(** *** Pure traversals *)

(** [$(sel).remove()]: every element that [sel] matches goes, with its
    subtree. *)
Fixpoint remove_node (sel : view bool) (n : node) : list node :=
  match n with
  | Text s => [Text s]
  | Elem tag a kids =>
      if sel tag a (text_of kids) then []
      else [Elem tag a
              ((fix go (l : list node) : list node :=
                  match l with
                  | [] => []
                  | k :: r => remove_node sel k ++ go r
                  end) kids)]
  end.

Fixpoint remove (sel : view bool) (d : list node) : list node :=
  match d with
  | [] => []
  | k :: r => remove_node sel k ++ remove sel r
  end.

(** [$(sel).length > 0] *)
Fixpoint matches_node (sel : view bool) (n : node) : bool :=
  match n with
  | Text _ => false
  | Elem tag a kids =>
      sel tag a (text_of kids)
      || (fix go (l : list node) : bool :=
            match l with
            | [] => false
            | k :: r => matches_node sel k || go r
            end) kids
  end.

Fixpoint matches (sel : view bool) (d : list node) : bool :=
  match d with
  | [] => false
  | k :: r => matches_node sel k || matches sel r
  end.

(** Whether the forest has an element named [tag]. *)
Definition has (tag : string) : list node -> bool :=
  matches (fun t _ _ => String.eqb t tag).

(** [$(tag).append(new)] and [$(tag).prepend(new)]: into every element
    named [tag]. *)
Fixpoint insert_node (front : bool) (tag : string) (new : list node) (n : node)
  : node :=
  match n with
  | Text s => Text s
  | Elem t a kids =>
      let kids' :=
        (fix go (l : list node) : list node :=
           match l with
           | [] => []
           | k :: r => insert_node front tag new k :: go r
           end) kids in
      Elem t a
        (if String.eqb t tag
         then (if front then new ++ kids' else kids' ++ new)
         else kids')
  end.

Definition insert (front : bool) (tag : string) (new : list node)
  : list node -> list node :=
  List.map (insert_node front tag new).

Definition append := insert false.
Definition prepend := insert true.

(** A loop [$(sel).each(...)] whose callback may set attributes and may
    throw: [None] is the exception. *)
Fixpoint update_node (f : view (option attrs)) (n : node) : option node :=
  match n with
  | Text s => Some (Text s)
  | Elem tag a kids =>
      match f tag a (text_of kids) with
      | None => None
      | Some a' =>
          match (fix go (l : list node) : option (list node) :=
                   match l with
                   | [] => Some []
                   | k :: r =>
                       match update_node f k with
                       | None => None
                       | Some k' =>
                           match go r with
                           | None => None
                           | Some r' => Some (k' :: r')
                           end
                       end
                   end) kids with
          | None => None
          | Some kids' => Some (Elem tag a' kids')
          end
      end
  end.

Fixpoint update (f : view (option attrs)) (d : list node) : option (list node) :=
  match d with
  | [] => Some []
  | k :: r =>
      match update_node f k with
      | None => None
      | Some k' =>
          match update f r with
          | None => None
          | Some r' => Some (k' :: r')
          end
      end
  end.

(** *** Loops with effects

    [$(sel).each(callback)] in document order over a state [S].  The
    callback answers [None] when it removed the element and [Some a] when
    the element stays with attributes [a]; an element the selector does
    not match is answered [Some] of its own attributes and leaves the state
    alone.  The selection is made before the loop runs, so the descendants
    of a removed element are still visited. *)
Section Each.
Context {S : Type}.
Variable f : view (S -> option attrs * S).

Fixpoint each_node (n : node) (st : S) : list node * S :=
  match n with
  | Text s => ([Text s], st)
  | Elem tag a kids =>
      let (r, st1) := f tag a (text_of kids) st in
      let (kids', st2) :=
        (fix go (l : list node) (st : S) : list node * S :=
           match l with
           | [] => ([], st)
           | k :: r =>
               let (k', st') := each_node k st in
               let (r', st'') := go r st' in
               (k' ++ r', st'')
           end) kids st1 in
      match r with
      | None => ([], st2)
      | Some a' => ([Elem tag a' kids'], st2)
      end
  end.

Fixpoint each (d : list node) (st : S) : list node * S :=
  match d with
  | [] => ([], st)
  | k :: r =>
      let (k', st') := each_node k st in
      let (r', st'') := each r st' in
      (k' ++ r', st'')
  end.
End Each.

(** What a loop that appends [h v] for each selected value [v] adds. *)
Definition gather {M A : Type} (op : M -> M -> M) (unit : M) (h : A -> M)
  (l : list A) : M :=
  foldr (fun v acc => op (h v) acc) unit l.

(** The values a loop would see, in document order: [f] answers for the
    elements it selects. *)
Fixpoint select_node {A : Type} (f : view (option A)) (n : node) : list A :=
  match n with
  | Text _ => []
  | Elem tag a kids =>
      match f tag a (text_of kids) with
      | Some x => [x]
      | None => []
      end
      ++ (fix go (l : list node) : list A :=
            match l with
            | [] => []
            | k :: r => select_node f k ++ go r
            end) kids
  end.

Fixpoint select {A : Type} (f : view (option A)) (d : list node) : list A :=
  match d with
  | [] => []
  | k :: r => select_node f k ++ select f r
  end.

End Dom.

(** ** The class [WebsiteCloner] (first variant of the file) *)

Module WebsiteCloner.

(** *** The world outside the class *)

(** What a file on disk holds.  The two constant server scripts are kept
    symbolic. *)
Inductive content : Type :=
| Bytes (s : string)
| Markup (d : list node)
| PythonServer
| BatchServer.

Record env := mkEnv {
  (** the response body of a GET, [None] when the request fails (timeout,
      non-success status, transport error) *)
  http : string -> option string;
  (** whether writing the file at this path succeeds *)
  writable : string -> bool;
  (** [Date.now()] at the n-th call of [getFileName] *)
  date_now : nat -> N;
  (** whether the n-th download in flight finishes while [downloadAssets]
      awaits the rewrite of the style bundle *)
  early : nat -> bool
}.

(** The instance ([this.downloadedAssets]; [this.assetMap] is never read or
    written), the disk, the log of requests issued, and the downloads in
    flight. *)
Record state := mkState {
  downloadedAssets : gset string;
  requests : list string;
  files : gmap string content;
  inflight : list (string * string);
  clock : nat
}.

Definition fresh : state := mkState ∅ [] ∅ [] 0.

Definition log_request (u : string) (st : state) : state :=
  mkState (downloadedAssets st) (requests st ++ [u]) (files st) (inflight st)
    (clock st).
Definition write (p : string) (c : content) (st : state) : state :=
  mkState (downloadedAssets st) (requests st) (<[p := c]> (files st))
    (inflight st) (clock st).
Definition mark_downloaded (u : string) (st : state) : state :=
  mkState ({[u]} ∪ downloadedAssets st) (requests st) (files st) (inflight st)
    (clock st).
Definition set_inflight (l : list (string * string)) (st : state) : state :=
  mkState (downloadedAssets st) (requests st) (files st) l (clock st).
Definition tick (st : state) : state :=
  mkState (downloadedAssets st) (requests st) (files st) (inflight st)
    (S (clock st)).

(** [await fs.writeFile(path, c)]; [None] when it throws. *)
Definition writeFile (e : env) (p : string) (c : content) (st : state)
  : option state :=
  if writable e p then Some (write p c st) else None.

(** *** [resolveUrl] *)

Definition resolveUrl (url baseUrl : string) : option string :=
  URL.href <$> URL.parse_with_base url baseUrl.

(** *** [getFileName] *)

Definition is_safe_char (c : ascii) : bool :=
  JS.is_alnum c || JS.is_char "." c || JS.is_char "-" c.

(** [fileName.replace(/[^a-zA-Z0-9.-]/g, "_")] *)
Definition sanitize : string -> string :=
  JS.map_chars (fun c => if is_safe_char c then c else "_"%char).

Fixpoint until_last_dot (s : string) : string :=
  match s with
  | EmptyString => EmptyString
  | String c r => if Path.has_dot r then String c (until_last_dot r) else EmptyString
  end.

(** [fileName.replace(/\.[^.]*$/, '.png')] *)
Definition replace_ext (s : string) : string :=
  if Path.has_dot s then until_last_dot s +:+ ".png" else s.

Definition validImageExts : list string :=
  [".jpg"; ".jpeg"; ".png"; ".gif"; ".svg"; ".webp"; ".ico"].

Definition default_name (type : string) : string :=
  if String.eqb type "css" then "style"
  else if String.eqb type "js" then "script" else "image".

Definition default_ext (type : string) : string :=
  if String.eqb type "css" then ".css"
  else if String.eqb type "js" then ".js" else ".png".

Definition show_N (n : N) : string :=
  DecimalString.NilZero.string_of_uint (N.to_uint n).

(** [now] is what [Date.now()] answers if the fallback branch asks. *)
Definition getFileName (now : N) (url type : string) : string :=
  match URL.parse url with
  | Some urlObj =>
      let fileName := Path.basename (URL.pathname urlObj) in
      let fileName :=
        if negb (JS.truthy fileName) || String.eqb fileName "/"
        then default_name type else fileName in
      let fileName := sanitize fileName in
      let fileName :=
        if negb (JS.truthy (Path.extname fileName))
        then fileName +:+ default_ext type else fileName in
      if String.eqb type "images" then
        if existsb (String.eqb (JS.toLowerCase (Path.extname fileName)))
             validImageExts
        then fileName else replace_ext fileName
      else fileName
  | None =>
      if String.eqb type "css" then "style.css"
      else if String.eqb type "js" then "script.js"
      else "image_" +:+ show_N now +:+ ".png"
  end.

(** *** The tracking filters *)

Definition srcTrackingPatterns : list string :=
  ["google-analytics"; "gtag"; "googletagmanager"; "facebook.net";
   "twitter.com"; "linkedin.com"; "hotjar"; "mixpanel"; "segment.com"].

Definition isTrackingScript (src : string) : bool :=
  existsb (fun pattern => JS.includes pattern src) srcTrackingPatterns.

Definition contentTrackingPatterns : list string :=
  ["gtag"; "ga("; "GoogleAnalytics"; "google-analytics"; "fbq("; "facebook";
   "_gaq"; "gtm"; "dataLayer"; "mixpanel"; "hotjar"; "segment"; "_hj"].

Definition isTrackingScriptContent (content : string) : bool :=
  existsb (fun pattern => JS.includes pattern content) contentTrackingPatterns.

(** *** [downloadAsset] *)

(** The promise a call returns: already resolved (the early [return]), or
    tied to the download it started. *)
Inductive promise : Type :=
| Resolved
| Download (url localPath : string).

Inductive status : Type := Fulfilled | Rejected.

(** The part that runs before the first [await]: the [has] test and the
    request. *)
Definition downloadAsset (url localPath : string) (st : state)
  : promise * state :=
  if decide (url ∈ downloadedAssets st) then (Resolved, st)
  else (Download url localPath,
        set_inflight (inflight st ++ [(url, localPath)]) (log_request url st)).

(** The rest of the body, once the response is there: a failed request is
    caught and logged; a response is piped to the file, and the [finish]
    event adds the URL to the set.  A file has one writer here: when two
    downloads in flight share a path, their streams both write from the
    start of the file, and nothing is stated about what it holds. *)
Definition finish (e : env) (d : string * string) (st : state) : state :=
  match http e d.1 with
  | None => st
  | Some body =>
      if writable e d.2
      then mark_downloaded d.1 (write d.2 (Bytes body) st)
      else st
  end.

(** How the promise settles: only an error of the write stream rejects. *)
Definition settle (e : env) (p : promise) : status :=
  match p with
  | Resolved => Fulfilled
  | Download url localPath =>
      match http e url with
      | None => Fulfilled
      | Some _ => if writable e localPath then Fulfilled else Rejected
      end
  end.

(** The downloads in flight that finish during an [await], in the order
    they were started; the others stay in flight. *)
Fixpoint finish_some (e : env) (i : nat) (l : list (string * string))
  (st : state) : list (string * string) * state :=
  match l with
  | [] => ([], st)
  | d :: r =>
      if early e i then finish_some e (S i) r (finish e d st)
      else let (r', st') := finish_some e (S i) r st in (d :: r', st')
  end.

Definition await_point (e : env) (st : state) : state :=
  let (rest, st') := finish_some e 0 (inflight st) st in
  set_inflight rest st'.

(** [await Promise.allSettled(...)]: every download in flight finishes. *)
Definition settle_all (e : env) (st : state) : state :=
  set_inflight [] (fold_left (fun s d => finish e d s) (inflight st) st).

(** *** [downloadAssets] *)

Inductive completion (A : Type) : Type :=
| Returned (a : A)
| Threw.
Arguments Returned {A} a.
Arguments Threw {A}.

Record assets := mkAssets {
  count : nat;
  html : list node;
  assetMap_css : list string;
  assetMap_js : list string;
  assetMap_images : nat
}.

Definition is_tag (t tag : string) : bool := String.eqb tag t.

(** 1. [$("style").each]: the text joins the bundle, the node goes. *)
Definition inline_style : Dom.view (string -> option attrs * string) :=
  fun tag a text combinedCSS =>
    if is_tag "style" tag then (None, combinedCSS +:+ text +:+ JS.newline)
    else (Some a, combinedCSS).

(** [await axios.get(absolute, { timeout: 10000 })] *)
Definition axios_get (e : env) (url : string) (st : state)
  : option string * state :=
  (http e url, log_request url st).

(** The body shared by the two loops over linked sheets and scripts: fetch,
    and on success add the response to the bundle and remove the node. *)
Definition fetch_into_bundle (e : env) (baseUrl ref : string) (a : attrs)
  (s : string * state) : option attrs * (string * state) :=
  match resolveUrl ref baseUrl with
  | None => (Some a, s)
  | Some absolute =>
      let (response, st) := axios_get e absolute s.2 in
      match response with
      | Some data => (None, (s.1 +:+ data +:+ JS.newline, st))
      | None => (Some a, (s.1, st))
      end
  end.

(** 2. the loop over [$("link[rel='stylesheet']")] *)
Definition linked_style (e : env) (baseUrl : string)
  : Dom.view (string * state -> option attrs * (string * state)) :=
  fun tag a _ s =>
    if is_tag "link" tag && Dom.attr_is "rel" "stylesheet" a then
      match Dom.attr_truthy "href" a with
      | None => (Some a, s)
      | Some href => fetch_into_bundle e baseUrl href a s
      end
    else (Some a, s).

(** 3. [$("script").each]: inline scripts that are not tracking code *)
Definition inline_script : Dom.view (string -> option attrs * string) :=
  fun tag a text combinedJS =>
    if is_tag "script" tag then
      match Dom.attr_truthy "src" a with
      | None =>
          if negb (isTrackingScriptContent text)
          then (None, combinedJS +:+ text +:+ JS.newline)
          else (Some a, combinedJS)
      | Some _ => (Some a, combinedJS)
      end
    else (Some a, combinedJS).

(** 4. the loop over [$("script[src]")] *)
Definition linked_script (e : env) (baseUrl : string)
  : Dom.view (string * state -> option attrs * (string * state)) :=
  fun tag a _ s =>
    if is_tag "script" tag && Dom.has_attr "src" a then
      match Dom.attr_truthy "src" a with
      | None => (None, s)
      | Some src =>
          if isTrackingScript src then (None, s)
          else fetch_into_bundle e baseUrl src a s
      end
    else (Some a, s).

Definition element (tag : string) (a : attrs) : node := Elem tag a [].

Definition bundle_link : node :=
  element "link" [("rel", "stylesheet"); ("href", "style.css")].
Definition bundle_script : node := element "script" [("src", "script.js")].

(** The local variables of steps 5 to 7: [imageDownloads] and the state. *)
Definition downloads : Type := list promise * state.

(** The body shared by every image site: resolve, name the local file
    after the raw reference, start the download.  Answers the local path
    when the reference resolves. *)
Definition fetch_image (e : env) (baseUrl outputDir ref : string)
  (s : downloads) : option string * downloads :=
  match resolveUrl ref baseUrl with
  | None => (None, s)
  | Some fullUrl =>
      let fileName := getFileName (date_now e (clock s.2)) ref "images" in
      let localPath := fileName in
      let (p, st) :=
        downloadAsset fullUrl (Path.join outputDir localPath) (tick s.2) in
      (Some localPath, (s.1 ++ [p], st))
  end.

(** The callback of steps 5 and 7: rewrite attribute [name] of a matched
    element. *)
Definition localize (e : env) (baseUrl outputDir name : string) (a : attrs)
  (s : downloads) : option attrs * downloads :=
  match Dom.attr_truthy name a with
  | None => (Some a, s)
  | Some ref =>
      match fetch_image e baseUrl outputDir ref s with
      | (Some localPath, s') => (Some (Dom.set_attr name localPath a), s')
      | (None, s') => (Some a, s')
      end
  end.

(** 5. [$("img").each] *)
Definition image (e : env) (baseUrl outputDir : string)
  : Dom.view (downloads -> option attrs * downloads) :=
  fun tag a _ s =>
    if is_tag "img" tag then localize e baseUrl outputDir "src" a s
    else (Some a, s).

(** [srcset.split(",").map((s) => s.trim().split(" ")[0])] *)
Definition srcset_urls (srcset : string) : list string :=
  List.map (fun s => List.hd "" (JS.split " " (JS.trim s))) (JS.split "," srcset).

(** The inner loop over the candidates: each one rewrites the attribute
    from the original [srcset]. *)
Fixpoint srcset_loop (e : env) (baseUrl outputDir srcset : string)
  (urls : list string) (a : attrs) (s : downloads) : attrs * downloads :=
  match urls with
  | [] => (a, s)
  | url :: rest =>
      match fetch_image e baseUrl outputDir url s with
      | (Some localPath, s') =>
          srcset_loop e baseUrl outputDir srcset rest
            (Dom.set_attr "srcset" (JS.replace url localPath srcset) a) s'
      | (None, s') => srcset_loop e baseUrl outputDir srcset rest a s'
      end
  end.

(** [$("img[srcset]").each] *)
Definition image_set (e : env) (baseUrl outputDir : string)
  : Dom.view (downloads -> option attrs * downloads) :=
  fun tag a _ s =>
    if is_tag "img" tag && Dom.has_attr "srcset" a then
      match Dom.attr_truthy "srcset" a with
      | None => (Some a, s)
      | Some srcset =>
          let (a', s') :=
            srcset_loop e baseUrl outputDir srcset (srcset_urls srcset) a s in
          (Some a', s')
      end
    else (Some a, s).

(** 7. the loop over the icon links *)
Definition is_icon_link (tag : string) (a : attrs) : bool :=
  is_tag "link" tag
  && (Dom.attr_is "rel" "icon" a || Dom.attr_is "rel" "shortcut icon" a
      || Dom.attr_is "rel" "apple-touch-icon" a).

Definition icon (e : env) (baseUrl outputDir : string)
  : Dom.view (downloads -> option attrs * downloads) :=
  fun tag a _ s =>
    if is_icon_link tag a then localize e baseUrl outputDir "href" a s
    else (Some a, s).

(** 6. the matches of [/url\(["']?(.*?)["']?\)/g] *)

Definition is_quote (c : ascii) : bool := URL.is_dquote c || JS.is_char "'" c.
Definition is_line_end (c : ascii) : bool :=
  Nat.eqb (JS.code c) 10 || Nat.eqb (JS.code c) 13.
Definition is_close (c : ascii) : bool := JS.is_char ")" c.

Definition skip_quote (s : string) : string :=
  match s with
  | String c r => if is_quote c then r else s
  | EmptyString => s
  end.

Definition drop_last_quote (s : string) : string :=
  JS.rev (skip_quote (JS.rev s)).

(** One attempt right after [url(]: the capture and what follows the
    closing parenthesis, if one comes before the line ends. *)
Definition url_capture (s : string) : option (string * string) :=
  let body := skip_quote s in
  let inside := JS.take_while (fun c => negb (is_close c || is_line_end c)) body in
  match JS.drop_while (fun c => negb (is_close c || is_line_end c)) body with
  | String c rest =>
      if is_close c then Some (drop_last_quote inside, rest) else None
  | EmptyString => None
  end.

Fixpoint css_urls_from (fuel : nat) (s : string) : list string :=
  match fuel with
  | O => []
  | S fuel' =>
      match s with
      | EmptyString => []
      | String _ r =>
          if JS.startsWith "url(" s then
            match url_capture (JS.drop 4 s) with
            | Some (imgUrl, rest) => imgUrl :: css_urls_from fuel' rest
            | None => css_urls_from fuel' r
            end
          else css_urls_from fuel' r
      end
  end.

(** The captures of the successive [urlRegex.exec(combinedCSS)]. *)
Definition css_urls (combinedCSS : string) : list string :=
  css_urls_from (String.length combinedCSS) combinedCSS.

(** The [while] loop of step 6 over the captures. *)
Fixpoint css_loop (e : env) (baseUrl outputDir : string) (urls : list string)
  (updatedCSS : string) (s : downloads) : string * downloads :=
  match urls with
  | [] => (updatedCSS, s)
  | imgUrl :: rest =>
      if JS.startsWith "data:" imgUrl
      then css_loop e baseUrl outputDir rest updatedCSS s
      else
        match fetch_image e baseUrl outputDir imgUrl s with
        | (Some localPath, s') =>
            css_loop e baseUrl outputDir rest
              (JS.replace imgUrl localPath updatedCSS) s'
        | (None, s') => css_loop e baseUrl outputDir rest updatedCSS s'
        end
  end.

(** The bundle files: written when the text is not blank, and then the
    tag is appended. *)
Definition write_bundle (e : env) (path bundle parent : string) (tag : node)
  (d : list node) (st : state) : option (list node * state) :=
  if JS.truthy (JS.trim bundle) then
    match writeFile e path (Bytes bundle) st with
    | Some st' => Some (Dom.append parent [tag] d, st')
    | None => None
    end
  else Some (d, st).

(** Steps 1 to 4: consolidate style sheets and scripts.  A [Threw] comes
    with the state at the throw. *)
Definition consolidate (e : env) (baseUrl outputDir : string) (d : list node)
  (st : state) : completion (list node * string * string) * state :=
  let (d1, css0) := Dom.each inline_style d "" in
  let '(d2, (combinedCSS, st2)) := Dom.each (linked_style e baseUrl) d1 (css0, st) in
  match write_bundle e (Path.join outputDir "style.css") combinedCSS "head"
          bundle_link d2 st2 with
  | None => (Threw, st2)
  | Some (d3, st3) =>
      let (d4, js0) := Dom.each inline_script d3 "" in
      let '(d5, (combinedJS, st5)) :=
        Dom.each (linked_script e baseUrl) d4 (js0, st3) in
      match write_bundle e (Path.join outputDir "script.js") combinedJS "body"
              bundle_script d5 st5 with
      | None => (Threw, st5)
      | Some (d6, st6) => (Returned (d6, combinedCSS, combinedJS), st6)
      end
  end.

(** Step 6.  The only [await] between the first download and the last
    line is the rewrite of the style bundle, reached when the loop changed
    its text; downloads in flight may finish there. *)
Definition localize_css (e : env) (baseUrl outputDir combinedCSS : string)
  (s : downloads) : completion (list promise) * state :=
  if JS.truthy combinedCSS then
    let (updatedCSS, s') :=
      css_loop e baseUrl outputDir (css_urls combinedCSS) combinedCSS s in
    if String.eqb updatedCSS combinedCSS then (Returned s'.1, s'.2)
    else
      let st := await_point e s'.2 in
      match writeFile e (Path.join outputDir "style.css") (Bytes updatedCSS) st with
      | Some st' => (Returned s'.1, st')
      | None => (Threw, st)
      end
  else (Returned s.1, s.2).

(** Steps 5 to 7: start the image downloads and rewrite the references. *)
Definition localize_images (e : env) (baseUrl outputDir combinedCSS : string)
  (d : list node) (st : state) : completion (list node * list promise) * state :=
  let (d1, s1) := Dom.each (image e baseUrl outputDir) d ([], st) in
  let (d2, s2) := Dom.each (image_set e baseUrl outputDir) d1 s1 in
  match localize_css e baseUrl outputDir combinedCSS s2 with
  | (Threw, st3) => (Threw, st3)
  | (Returned ps, st3) =>
      let (d3, s4) := Dom.each (icon e baseUrl outputDir) d2 (ps, st3) in
      (Returned (d3, s4.1), s4.2)
  end.

Definition fulfilled (e : env) (p : promise) : bool :=
  match settle e p with Fulfilled => true | Rejected => false end.

Definition downloadAssets (e : env) (html0 : list node)
  (baseUrl outputDir : string) (st : state) : completion assets * state :=
  match consolidate e baseUrl outputDir html0 st with
  | (Threw, st1) => (Threw, st1)
  | (Returned (d, combinedCSS, combinedJS), st1) =>
      match localize_images e baseUrl outputDir combinedCSS d st1 with
      | (Threw, st2) => (Threw, st2)
      | (Returned (d', imageDownloads), st2) =>
          (** [await Promise.allSettled(imageDownloads)] *)
          let st3 := settle_all e st2 in
          let successful := List.length (List.filter (fulfilled e) imageDownloads) in
          (Returned
             (mkAssets successful d'
                (if JS.truthy combinedCSS then ["style.css"] else [])
                (if JS.truthy combinedJS then ["script.js"] else [])
                successful),
           st3)
      end
  end.

(** *** [generateHTMLOutput] *)

Record pageInfo := mkPageInfo {
  title : string;
  description : string;
  favicon : string;
  viewport : string;
  primaryColor : string;
  baseUrl : string
}.

Definition tracking_src (a : attrs) : bool :=
  match Dom.attr_truthy "src" a with
  | Some src => isTrackingScript src
  | None => false
  end.

(** The scripts the first loop removes. *)
Definition tracking_script : Dom.view bool :=
  fun tag a content =>
    is_tag "script" tag
    && (tracking_src a || (JS.truthy content && isTrackingScriptContent content)).

Definition noscript : Dom.view bool := fun tag _ _ => is_tag "noscript" tag.

Definition tracking_iframe : Dom.view bool :=
  fun tag a _ => is_tag "iframe" tag && tracking_src a.

(** [href.startsWith("/") && !href.startsWith("//")] *)
Definition site_relative (href : string) : bool :=
  JS.startsWith "/" href && negb (JS.startsWith "//" href).

(** The loop over [$("a")]; [new URL] may throw. *)
Definition absolute_link (info : pageInfo) : Dom.view (option attrs) :=
  fun tag a _ =>
    if is_tag "a" tag then
      match Dom.attr_truthy "href" a with
      | Some href =>
          if site_relative href then
            match URL.parse_with_base href (baseUrl info) with
            | Some u =>
                Some (Dom.set_attr "target" "_blank"
                        (Dom.set_attr "href" (URL.href u) a))
            | None => None
            end
          else Some a
      | None => Some a
      end
    else Some a.

Definition meta_named (name : string) : Dom.view bool :=
  fun tag a _ => is_tag "meta" tag && Dom.attr_is "name" name a.

(** The markup of a [meta] tag whose content holds no quote. *)
Definition meta (name value : string) : node :=
  element "meta" [("name", name); ("content", value)].

(** [$("style:contains('scroll-behavior')")] *)
Definition smooth_style : Dom.view bool :=
  fun tag _ text => is_tag "style" tag && JS.includes "scroll-behavior" text.

Definition q : string := String (ascii_of_nat 34) EmptyString.

Definition enhancementCSS : string :=
  JS.concat_all
    [JS.newline;
     "        /* UI Clone Enhancement Styles - Minimal and Non-Conflicting */"; JS.newline;
     "        html { "; JS.newline;
     "          scroll-behavior: smooth; "; JS.newline;
     "        }"; JS.newline;
     "        "; JS.newline;
     "        /* Ensure images are responsive without breaking existing styles */"; JS.newline;
     "        img:not([style*="; q; "width"; q; "]):not([style*="; q; "max-width"; q; "]) { "; JS.newline;
     "          max-width: 100%; "; JS.newline;
     "          height: auto; "; JS.newline;
     "        }"; JS.newline;
     "        "; JS.newline;
     "        /* Accessibility improvements */"; JS.newline;
     "        a:focus, button:focus, input:focus, select:focus, textarea:focus {"; JS.newline;
     "          outline: 2px solid #007acc;"; JS.newline;
     "          outline-offset: 2px;"; JS.newline;
     "        }"; JS.newline;
     "        "; JS.newline;
     "        /* Performance optimization for transitions */"; JS.newline;
     "        * {"; JS.newline;
     "          -webkit-font-smoothing: antialiased;"; JS.newline;
     "          -moz-osx-font-smoothing: grayscale;"; JS.newline;
     "        }"; JS.newline;
     "      "].

Definition enhancementStyles : list node :=
  [Text (JS.newline +:+ "      ");
   Elem "style" [] [Text enhancementCSS];
   Text (JS.newline +:+ "    ")].

Definition ensure (present : bool) (add : list node -> list node)
  (d : list node) : list node :=
  if present then d else add d.

(** The three removals that open [generateHTMLOutput]. *)
Definition scrub (d : list node) : list node :=
  Dom.remove tracking_iframe (Dom.remove noscript (Dom.remove tracking_script d)).

(** The tags that close it: added only when missing. *)
Definition enhance (info : pageInfo) (d : list node) : list node :=
  let d := ensure (Dom.matches (meta_named "viewport") d)
             (Dom.prepend "head" [meta "viewport" (viewport info)]) d in
  let d := ensure (Dom.matches (meta_named "description") d
                   || negb (JS.truthy (description info)))
             (Dom.append "head" [meta "description" (description info)]) d in
  ensure (Dom.matches smooth_style d) (Dom.append "head" enhancementStyles) d.

(** The document that is written to [index.html]; [None] when the loop
    over the links throws. *)
Definition final_document (info : pageInfo) (d : list node) : option (list node) :=
  match Dom.update (absolute_link info) (scrub d) with
  | None => None
  | Some d => Some (enhance info d)
  end.

Definition createServerScript (e : env) (outputDir : string) (st : state)
  : option state :=
  match writeFile e (Path.join outputDir "serve.py") PythonServer st with
  | None => None
  | Some st' => writeFile e (Path.join outputDir "serve.bat") BatchServer st'
  end.

Definition generateHTMLOutput (e : env) (d : list node) (outputDir : string)
  (info : pageInfo) (st : state) : completion string * state :=
  match final_document info d with
  | None => (Threw, st)
  | Some d' =>
      match writeFile e (Path.join outputDir "index.html") (Markup d') st with
      | None => (Threw, st)
      | Some st1 =>
          match createServerScript e outputDir st1 with
          | None => (Threw, st1)
          | Some st2 => (Returned "index.html", st2)
          end
      end
  end.

(** *** [clone] *)

(** What the page capture hands over: the rendered markup and the page
    metadata, or nothing when the page cannot be loaded. *)
Definition capture : Type := option (list node * pageInfo).

(** The AI collaborator: markup to markup, [None] when it throws. *)
Definition processor : Type := list node -> option (list node).

Record cloned := mkCloned {
  outputPath : string;
  assetsCount : nat;
  mainFile : string
}.

(** [useAI] is [options.useAI]: [None] when the option is absent. *)
Definition clone (e : env) (page : capture) (url outputDir : string)
  (aiProcessor : option processor) (useAI : option bool) (st : state)
  : completion cloned * state :=
  match page with
  | None => (Threw, st)
  | Some (html0, info) =>
      let finalHTML :=
        match aiProcessor with
        | Some ai =>
            if negb (bool_decide (useAI = Some false)) then
              match ai html0 with
              | Some cleaned => cleaned
              | None => html0
              end
            else html0
        | None => html0
        end in
      match downloadAssets e finalHTML url outputDir st with
      | (Threw, st1) => (Threw, st1)
      | (Returned assetsResult, st1) =>
          match generateHTMLOutput e (html assetsResult) outputDir info st1 with
          | (Threw, st2) => (Threw, st2)
          | (Returned main, st2) =>
              (Returned (mkCloned outputDir (count assetsResult) main), st2)
          end
      end
  end.

End WebsiteCloner.

(** ** The second variant of the file: its [clone]

    The second copy of the class differs in [clone], [downloadAssets],
    [getFileName] and adds [injectAssetsIntoHTML].  Its [clone] is embedded
    here over its own [downloadAssets], which is a parameter: what is stated
    about this [clone] holds whatever that function does. *)

Module Variant2.
Import WebsiteCloner.

Record assetMap := mkAssetMap {
  css : list string;
  js : list string;
  images : list string
}.

Record assets := mkAssets {
  count : nat;
  html : list node;
  map : assetMap
}.

Definition add_head (d : list node) : list node :=
  if Dom.matches (fun tag _ _ => is_tag "head" tag) d then d
  else Dom.prepend "html" [Elem "head" [] []] d.

Definition stylesheet_link (cssPath : string) : node :=
  element "link" [("rel", "stylesheet"); ("href", cssPath)].
Definition script_tag (jsPath : string) : node :=
  element "script" [("src", jsPath)].

Definition injectAssetsIntoHTML (aiHTML : list node) (m : assetMap) : list node :=
  let d := add_head aiHTML in
  let d := fold_left (fun d cssPath => Dom.append "head" [stylesheet_link cssPath] d)
             (css m) d in
  fold_left (fun d jsPath => Dom.append "body" [script_tag jsPath] d) (js m) d.

(** [processHTML(html, url)] of the AI collaborator; [None] when it throws. *)
Definition processor : Type := list node -> string -> option (list node).

Section Clone.
Variable downloadAssets :
  env -> list node -> string -> string -> state -> completion assets * state.

Definition ai_used (aiProcessor : option processor) (useAI : option bool) : bool :=
  match aiProcessor with
  | Some _ => bool_decide (useAI = Some true)
  | None => false
  end.

Definition clone (e : env) (page : capture) (url outputDir : string)
  (aiProcessor : option processor) (useAI : option bool) (st : state)
  : completion cloned * state :=
  match page with
  | None => (Threw, st)
  | Some (html0, info) =>
      let processedHTML :=
        match aiProcessor with
        | Some ai =>
            if bool_decide (useAI = Some true) then
              match ai html0 url with
              | Some processed => processed
              | None => html0
              end
            else html0
        | None => html0
        end in
      match downloadAssets e html0 url outputDir st with
      | (Threw, st1) => (Threw, st1)
      | (Returned assetsResult, st1) =>
          let assetsCount := count assetsResult in
          let finalHTML :=
            if ai_used aiProcessor useAI && Nat.ltb 0 assetsCount
            then injectAssetsIntoHTML processedHTML (map assetsResult)
            else html assetsResult in
          match generateHTMLOutput e finalHTML outputDir info st1 with
          | (Threw, st2) => (Threw, st2)
          | (Returned main, st2) =>
              (Returned (mkCloned outputDir assetsCount main), st2)
          end
      end
  end.
End Clone.

End Variant2.

(** ** Selections and sample inputs used in the statements *)

Module Sample.
Import WebsiteCloner.

(** The raw [src] of the [img] elements, in document order. *)
Definition img_src : Dom.view (option string) :=
  fun tag a _ => if is_tag "img" tag then Dom.attr "src" a else None.

(** The truthy [src] of the [script] elements, in document order. *)
Definition script_src : Dom.view (option string) :=
  fun tag a _ => if is_tag "script" tag then Dom.attr_truthy "src" a else None.

(** The text of the inline [script] elements, in document order. *)
Definition inline_script_text : Dom.view (option string) :=
  fun tag a text =>
    if is_tag "script" tag then
      match Dom.attr_truthy "src" a with
      | None => Some text
      | Some _ => None
      end
    else None.

(** A [script] element whose [src] the deny-list matches. *)
Definition denied_script : Dom.view bool :=
  fun tag a _ => is_tag "script" tag && tracking_src a.

(** A [script] element whose text carries a tracking signature. *)
Definition signed_script : Dom.view bool :=
  fun tag a text => is_tag "script" tag && isTrackingScriptContent text.

(** A link that the last loop of [generateHTMLOutput] makes absolute. *)
Definition site_link : Dom.view bool :=
  fun tag a _ =>
    is_tag "a" tag
    && match Dom.attr_truthy "href" a with
       | Some href => site_relative href
       | None => false
       end.

(** The requests of the loop over [script[src]] for the sources [srcs]:
    the sources that the deny-list matches are left out. *)
Definition script_fetches (base : string) (srcs : list string) : list string :=
  omap (fun src => resolveUrl src base)
    (List.filter (fun src => negb (isTrackingScript src)) srcs).

(** What the loop over the inline scripts adds to the behaviour bundle for
    the texts [texts]: the texts with a tracking signature are left out. *)
Definition script_bundle (texts : list string) : string :=
  JS.concat_all
    (List.map (fun text => text +:+ JS.newline)
       (List.filter (fun text => negb (isTrackingScriptContent text)) texts)).

(** A selector that can only match [script], [noscript] or [iframe]. *)
Definition removable (sel : Dom.view bool) : Prop :=
  forall tag a x,
    sel tag a x = true -> tag = "script" \/ tag = "noscript" \/ tag = "iframe".

(** Two runs at the same reading of the clock. *)
Definition same_clock (s s' : downloads) : Prop := clock s.2 = clock s'.2.

(** Two environments with the same clock: they may differ in every
    response, in every write and in the scheduling. *)
Definition same_time (e e' : env) : Prop := forall n, date_now e n = date_now e' n.

(** The instance only ever learns URLs. *)
Definition remembers (st st' : state) : Prop :=
  downloadedAssets st ⊆ downloadedAssets st'.

Definition page (head body : list node) : list node :=
  [Elem "html" [] [Elem "head" [] head; Elem "body" [] body]].

Definition img (src : string) : node := Elem "img" [("src", src)] [].

(** Every request fails; every write succeeds. *)
Definition offline : env :=
  mkEnv (fun _ => None) (fun _ => true) (fun _ => 0%N) (fun _ => false).

(** Every request is answered with [body]; every write succeeds. *)
Definition online (body : string) : env :=
  mkEnv (fun _ => Some body) (fun _ => true) (fun _ => 0%N) (fun _ => false).

Definition info (base : string) : pageInfo :=
  mkPageInfo "Example" "" "" "width=device-width, initial-scale=1.0" "#ffffff" base.

Definition a_png : string := "https://example.com/a.png".

(** One image referenced from two places. *)
Definition twice : list node := page [] [img a_png; img a_png].

(** One image. *)
Definition once : list node := page [] [img a_png].

(** One image, already local. *)
Definition local_page : list node := page [] [img "a.png"].

(** The two references of the scenario of the specification, as absolute
    URLs. *)
Definition x_png : string := "https://cdn.example.com/x.png".
Definition x_png_v2 : string := "https://cdn.example.com/x.png?v=2".
Definition versions : list node := page [] [img x_png; img x_png_v2].

(** A page of a host on the deny-list that loads its own script. *)
Definition denied_base : string := "https://twitter.com/home".
Definition own_script : list node :=
  page [] [Elem "script" [("src", "/main.js")] []].

(** An AI collaborator that answers a page with another image. *)
Definition b_png : string := "https://example.com/b.png".
Definition swap_image : processor := fun _ => Some (page [] [img b_png]).

(** A page with a tracked script, an inline tracking snippet, an inline
    script and a site-relative link. *)
Definition mixed : list node :=
  page [Elem "style" [] [Text "p{color:red}"]]
    [img a_png;
     Elem "script" [("src", "https://www.googletagmanager.com/gtag/js")] [];
     Elem "script" [] [Text "window.dataLayer=[]"];
     Elem "script" [] [Text "console.log(1)"];
     Elem "noscript" [] [img "https://example.com/pixel.gif"];
     Elem "a" [("href", "/about")] [Text "About"]].

End Sample.

(** ** The claims that the code does not meet, as stated *)

Module Stated.
Import WebsiteCloner Sample.

(** An image reference whose fetch fails keeps its raw value in the
    document [downloadAssets] returns. *)
Definition failed_reference_untouched : Prop :=
  forall e d base outputDir st r st' src url,
    downloadAssets e d base outputDir st = (Returned r, st') ->
    src ∈ Dom.select img_src d ->
    resolveUrl src base = Some url ->
    http e url = None ->
    src ∈ Dom.select img_src (html r).

(** Two different absolute URLs never get the same local file name. *)
Definition names_unique : Prop :=
  forall now u1 u2,
    is_Some (URL.parse u1) -> is_Some (URL.parse u2) -> u1 <> u2 ->
    getFileName now u1 "images" <> getFileName now u2 "images".

(** A script reference whose resolved URL matches the deny-list is never
    fetched. *)
Definition denied_url_not_fetched : Prop :=
  forall e d base outputDir st r st' src url,
    downloadAssets e d base outputDir st = (Returned r, st') ->
    src ∈ Dom.select script_src d ->
    resolveUrl src base = Some url ->
    isTrackingScript url = true ->
    url ∉ requests st'.

(** [resolveUrl] signals NotFetchable for [data:], [javascript:] and [#]. *)
Definition inert_not_fetchable : Prop :=
  forall base raw,
    JS.startsWith "data:" raw || JS.startsWith "javascript:" raw
    || JS.startsWith "#" raw = true ->
    resolveUrl raw base = None.

(** The asset mapping is applied to the markup of the AI collaborator:
    every local path of the asset map is referenced from the result, an
    image path by an image. *)
Definition mapping_applied : Prop :=
  forall aiHTML m path,
    path ∈ Variant2.images m ->
    path ∈ Dom.select img_src (Variant2.injectAssetsIntoHTML aiHTML m).

(** A reference that names a local file: neither a URL of its own nor
    rooted at the site. *)
Definition is_local_path (ref : string) : bool :=
  match URL.parse ref with
  | Some _ => false
  | None => negb (JS.startsWith "/" ref)
  end.

(** The asset references of a document: the [src] of its images and
    scripts, the [href] of its links. *)
Definition asset_ref : Dom.view (option string) :=
  fun tag a _ =>
    if is_tag "img" tag || is_tag "script" tag then Dom.attr_truthy "src" a
    else if is_tag "link" tag then Dom.attr_truthy "href" a
    else None.

Definition only_local_paths (d : list node) : Prop :=
  Forall (fun ref => is_local_path ref = true) (Dom.select asset_ref d).

(** Rewriting a document that holds only local asset paths is a no-op. *)
Definition rewrite_noop_on_local : Prop :=
  forall info d, only_local_paths d -> final_document info d = Some d.

End Stated.

(** ** Selections used to describe what the passes do to a document *)

Module Shape.
Import Dom WebsiteCloner Sample.

Definition responds (e : env) (base ref : string) : bool :=
  match resolveUrl ref base with
  | Some absolute => bool_decide (is_Some (http e absolute))
  | None => false
  end.

(** The response to the request for [ref], when it resolves and the request
    succeeds. *)
Definition response (e : env) (base ref : string) : option string :=
  match resolveUrl ref base with
  | Some absolute => http e absolute
  | None => None
  end.

Definition style_element : Dom.view bool := fun tag _ _ => is_tag "style" tag.

Definition style_text : Dom.view (option string) :=
  fun tag _ text => if is_tag "style" tag then Some text else None.

(** The [href] of the linked style sheets, in document order. *)
Definition sheet_href : Dom.view (option string) :=
  fun tag a _ =>
    if is_tag "link" tag && Dom.attr_is "rel" "stylesheet" a
    then Dom.attr_truthy "href" a else None.

(** A linked style sheet whose request succeeds. *)
Definition fetched_sheet (e : env) (base : string) : Dom.view bool :=
  fun tag a text =>
    match sheet_href tag a text with
    | Some href => responds e base href
    | None => false
    end.

(** An inline script that joins the behaviour bundle. *)
Definition merged_script : Dom.view bool :=
  fun tag a text =>
    match inline_script_text tag a text with
    | Some content => negb (isTrackingScriptContent content)
    | None => false
    end.

(** A [script[src]] that the fourth loop removes: its [src] is empty, or
    matched by the deny-list, or its request succeeds. *)
Definition removed_script (e : env) (base : string) : Dom.view bool :=
  fun tag a _ =>
    is_tag "script" tag && Dom.has_attr "src" a
    && match Dom.attr_truthy "src" a with
       | Some src => isTrackingScript src || responds e base src
       | None => true
       end.

(** A script source that the deny-list does not match. *)
Definition not_denied (src : string) : bool := negb (isTrackingScript src).

(** The text of a bundle made of [parts]: each part ends with a newline. *)
Definition bundle_text (parts : list string) : string :=
  JS.concat_all (List.map (fun part => part +:+ JS.newline) parts).

(** The responses to the requests for [refs] that succeed, in order. *)
Definition responses (e : env) (base : string) (refs : list string) : list string :=
  omap (response e base) refs.

(** The absolute URLs of [refs] that resolve, in order. *)
Definition resolved (base : string) (refs : list string) : list string :=
  omap (fun ref => resolveUrl ref base) refs.

(** The tag of a bundle is appended when the bundle is not blank. *)
Definition with_bundle (bundle parent : string) (tag : node) (d : list node)
  : list node :=
  if JS.truthy (JS.trim bundle) then Dom.append parent [tag] d else d.

(** The characters of a local file name: letters, digits, dot, hyphen and
    the underscore that replaces every other character. *)
Definition is_name_char (c : ascii) : bool :=
  is_safe_char c || JS.is_char "_" c.

(** A name whose extension is one of the image extensions. *)
Definition valid_image_name (fileName : string) : bool :=
  existsb (String.eqb (JS.toLowerCase (Path.extname fileName))) validImageExts.

(** What [getFileName] answers when [new URL(url)] throws. *)
Definition fallback_name (now : N) (type : string) : string :=
  if String.eqb type "css" then "style.css"
  else if String.eqb type "js" then "script.js"
  else "image_" +:+ show_N now +:+ ".png".

(** A [link] to the style sheet [path]. *)
Definition links_to (path : string) : Dom.view bool :=
  fun tag a _ =>
    is_tag "link" tag && Dom.attr_is "rel" "stylesheet" a
    && Dom.attr_is "href" path a.

(** A [script] that loads [path]. *)
Definition loads (path : string) : Dom.view bool :=
  fun tag a _ => is_tag "script" tag && Dom.attr_is "src" path a.

(** One [forEach] of [injectAssetsIntoHTML]: a tag per path, appended to
    the elements named [target]. *)
Definition appended (target : string) (mk : string -> node) (l : list string)
  (d : list node) : list node :=
  fold_left (fun d path => Dom.append target [mk path] d) l d.

(** The names of the files that are not downloads. *)
Definition fixed_names : list string :=
  ["style.css"; "script.js"; "index.html"; "serve.py"; "serve.bat"].

(** The names [clone] gives its files: a fixed name, or a name of safe
    characters with an image extension. *)
Definition output_name (name : string) : bool :=
  bool_decide (name ∈ fixed_names)
  || (JS.all_chars is_name_char name && valid_image_name name).

(** A path directly inside the output directory. *)
Definition in_output (outputDir path : string) : Prop :=
  exists name, path = Path.join outputDir name /\ output_name name = true.

(** Since [st0], files appeared in the output directory only, and every
    download in flight writes there. *)
Definition kept (outputDir : string) (st0 st : state) : Prop :=
  (forall path,
      is_Some (files st !! path) ->
      is_Some (files st0 !! path) \/ in_output outputDir path)
  /\ Forall (fun d => in_output outputDir d.2) (inflight st).

(** The truthy [src] of the [img] elements, in document order. *)
Definition img_ref : Dom.view (option string) :=
  fun tag a _ => if is_tag "img" tag then Dom.attr_truthy "src" a else None.

(** The URLs that are not in the set [known]. *)
Definition unknown (known : gset string) (urls : list string) : list string :=
  List.filter (fun u => bool_decide (u ∉ known)) urls.

(** What the URL parser keeps of the text that follows a prefix it keeps:
    C0 controls and spaces are trimmed at the end, tabs and newlines are
    dropped. *)
Definition after_prefix (rest : string) : string :=
  JS.filter_chars (fun c => negb (URL.is_tab_or_newline c))
    (JS.strip_end URL.is_c0_or_space rest).

(** A printable character other than the space, the question mark and the
    hash sign: the parser keeps it and encodes it nowhere in an opaque
    path. *)
Definition plain (c : ascii) : bool :=
  negb (URL.c0_set c) && negb (URL.is_c0_or_space c)
  && negb (URL.is_hash c) && negb (URL.is_qmark c).

(** The truthy [href] of the icon links, in document order. *)
Definition icon_ref : Dom.view (option string) :=
  fun tag a _ => if is_icon_link tag a then Dom.attr_truthy "href" a else None.

(** What steps 5 to 7 make of the reference [ref], when it is no [data:]
    reference: its local file name when [resolveUrl] accepts it, and [ref]
    itself when not. *)
Definition localized (base ref ref' : string) : Prop :=
  JS.startsWith "data:" ref = false ->
  match resolveUrl ref base with
  | Some _ => exists now, ref' = getFileName now ref "images"
  | None => ref' = ref
  end.

(** The state after the requests [us] and nothing else. *)
Definition logged (us : list string) (st : state) : state :=
  mkState (downloadedAssets st) (requests st ++ us) (files st) (inflight st)
    (clock st).

(** Every request is answered with [body]; no write succeeds. *)
Definition read_only (body : string) : env :=
  mkEnv (fun _ => Some body) (fun _ => false) (fun _ => 0%N) (fun _ => false).


(** The text of the style bundle of a page. *)
Definition style_bundle (e : env) (base : string) (d : list node) : string :=
  bundle_text (select style_text d)
  +:+ bundle_text
        (responses e base (select sheet_href (Dom.remove style_element d))).

(** The page after steps 1 and 2 and the write of the style bundle. *)
Definition styled (e : env) (base : string) (d : list node) : list node :=
  with_bundle (style_bundle e base d) "head" bundle_link
    (Dom.remove (fetched_sheet e base) (Dom.remove style_element d)).

(** The text of the behaviour bundle of a page. *)
Definition behaviour_bundle (e : env) (base : string) (d : list node) : string :=
  script_bundle (select inline_script_text (styled e base d))
  +:+ bundle_text
        (responses e base
           (List.filter not_denied
              (select script_src (Dom.remove merged_script (styled e base d))))).

End Shape.

(** ** The caller: [UICloneCLI.cloneWebsite] and the [clone] command

    [lib/ui-clone-cli.js] holds one [WebsiteCloner] and the AI collaborator
    of the last call that found a key; [bin/cli.js] hands it the options
    object that commander builds from the command line. *)

Module UICloneCLI.
Import WebsiteCloner.

(** The keys of the options object that are read or set anywhere: [None]
    is [undefined]. *)
Record options := mkOptions {
  output : option string;
  apiKey : option string;
  ai : option bool;
  noAi : option bool
}.

(** The options of [ui-clone clone <url>] as commander builds them:
    [-o, --output <dir>] with its default under [output],
    [-k, --api-key <key>] under [apiKey], and the negatable [--no-ai] under
    [ai], which is [true] unless the flag is given.  No key [noAi] is
    set. *)
Definition command_line (dir key : option string) (no_ai_flag : bool) : options :=
  mkOptions (Some (default "./cloned-ui" dir)) key (Some (negb no_ai_flag)) None.

(** The instance: [this.aiProcessor] and the state of [this.cloner]. *)
Record cli := mkCli {
  aiProcessor : option processor;
  cloner : state
}.

(** [new UICloneCLI()] *)
Definition new_cli : cli := mkCli None fresh.

(** [aiProcessor.cleanWithAI(html)] on a collaborator that defines no
    [cleanWithAI], as [AIAgent3] and [AIAgent] do: the call throws a
    [TypeError]. *)
Definition no_cleanWithAI : processor := fun _ => None.

Definition truthy_string (s : option string) : option string :=
  match s with
  | Some v => if JS.truthy v then Some v else None
  | None => None
  end.

(** [options.apiKey || (await this.getApiKey())], when truthy; [stored] is
    what [getApiKey] answers. *)
Definition found_key (o : options) (stored : option string) : option string :=
  match truthy_string (apiKey o) with
  | Some k => Some k
  | None => truthy_string stored
  end.

(** [cloneWebsite(url, options)]: every error is caught and reported, so
    the call always returns; what is left is the instance.  [AIAgent3] is
    the constructor of the collaborator. *)
Definition cloneWebsite (e : env) (page : capture) (stored : option string)
  (AIAgent3 : string -> processor) (url : string) (o : options) (this : cli)
  : cli :=
  let aiProcessor' :=
    if negb (default false (noAi o)) then
      match found_key o stored with
      | None => aiProcessor this
      | Some k => Some (AIAgent3 k)
      end
    else aiProcessor this in
  let outputDir := default "./cloned-ui" (truthy_string (output o)) in
  let useAI :=
    negb (default false (noAi o)) && bool_decide (is_Some aiProcessor') in
  mkCli aiProcessor'
    (clone e page url outputDir aiProcessor' (Some useAI) (cloner this)).2.

(** The action of the [clone] command of [bin/cli.js]. *)
Definition clone_command (e : env) (page : capture) (stored : option string)
  (AIAgent3 : string -> processor) (url : string) (dir key : option string)
  (no_ai_flag : bool) : cli :=
  cloneWebsite e page stored AIAgent3 url (command_line dir key no_ai_flag)
    new_cli.

End UICloneCLI.

(** * Properties *)

(** ** Strings *)

Module JSFacts.
Import JS.

Lemma includes_unfold p s :
  includes p s =
  (startsWith p s || match s with EmptyString => false | String _ r => includes p r end).
Proof. destruct s; reflexivity. Qed.

Lemma startsWith_app p s : startsWith p (p +:+ s) = true.
Proof.
  induction p as [|c p IH]; simpl; [reflexivity|].
  rewrite Ascii.eqb_refl. exact IH.
Qed.

Lemma startsWith_inv p s : startsWith p s = true -> exists b, s = p +:+ b.
Proof.
  revert s. induction p as [|c p IH]; intros s H; simpl in *.
  - by exists s.
  - destruct s as [|c' s]; [discriminate|].
    destruct (Ascii.eqb c c') eqn:E; [|discriminate].
    apply Ascii.eqb_eq in E as ->.
    destruct (IH _ H) as [b ->]. by exists b.
Qed.

Lemma includes_app_r p a s : includes p s = true -> includes p (a +:+ s) = true.
Proof.
  intros H. induction a as [|c a IH]; simpl; [exact H|].
  rewrite IH. apply orb_true_r.
Qed.

(** [includes] is the substring test. *)
Lemma includes_spec p s :
  includes p s = true <-> exists a b, s = a +:+ p +:+ b.
Proof.
  split.
  - induction s as [|c s IH]; rewrite includes_unfold; intros H.
    + rewrite orb_false_r in H. destruct (startsWith_inv _ _ H) as [b ->].
      by exists EmptyString, b.
    + apply orb_true_iff in H as [H|H].
      * destruct (startsWith_inv _ _ H) as [b ->]. by exists EmptyString, b.
      * destruct (IH H) as (a & b & ->). by exists (String c a), b.
  - intros (a & b & ->). apply includes_app_r.
    rewrite includes_unfold, startsWith_app. reflexivity.
Qed.

Lemma strip_end_keep p c s :
  p c = false -> strip_end p (String c s) = String c (strip_end p s).
Proof. intros H. simpl. rewrite H. by destruct (strip_end p s). Qed.

Lemma app_cons c (a b : string) : String c a +:+ b = String c (a +:+ b).
Proof. reflexivity. Qed.

Lemma app_empty (b : string) : EmptyString +:+ b = b.
Proof. reflexivity. Qed.

Lemma append_assoc (a b c : string) : (a +:+ b) +:+ c = a +:+ b +:+ c.
Proof.
  induction a as [|x a IH]; [reflexivity|].
  rewrite !app_cons. f_equal. exact IH.
Qed.

End JSFacts.

(** ** Documents *)

(** Induction over a forest: the children of the first element and the
    siblings that follow it. *)
Lemma forest_ind (P : list node -> Prop) :
  P [] ->
  (forall s r, P r -> P (Text s :: r)) ->
  (forall tag a kids r, P kids -> P r -> P (Elem tag a kids :: r)) ->
  forall d, P d.
Proof.
  intros H0 Ht He.
  assert (Hn : forall n r, P r -> P (n :: r)).
  { induction n as [s | tag a kids IH] using node_ind; intros r Hr.
    - by apply Ht.
    - apply He; [|done].
      induction IH as [|k ks Hk _ IHks]; [done|]. by apply Hk. }
  induction d; [done|]. by apply Hn.
Qed.

Module DomFacts.
Import Dom.

(** *** The equations of the traversals *)

Lemma remove_text sel s r : remove sel (Text s :: r) = Text s :: remove sel r.
Proof. reflexivity. Qed.

Lemma remove_elem sel tag a kids r :
  remove sel (Elem tag a kids :: r) =
  (if sel tag a (text_of kids) then [] else [Elem tag a (remove sel kids)])
  ++ remove sel r.
Proof.
  cbn [remove remove_node]. destruct (sel tag a (text_of kids)); [done|].
  do 3 f_equal. induction kids as [|k ks IH]; [done|]. cbn [remove]. by rewrite IH.
Qed.

Lemma matches_text sel s r : matches sel (Text s :: r) = matches sel r.
Proof. reflexivity. Qed.

Lemma matches_elem sel tag a kids r :
  matches sel (Elem tag a kids :: r) =
  (sel tag a (text_of kids) || matches sel kids || matches sel r).
Proof.
  cbn [matches matches_node]. do 2 f_equal.
  induction kids as [|k ks IH]; [done|]. cbn [matches]. by rewrite IH.
Qed.

Lemma insert_text front tag new s r :
  insert front tag new (Text s :: r) = Text s :: insert front tag new r.
Proof. reflexivity. Qed.

Lemma insert_elem front tag new t a kids r :
  insert front tag new (Elem t a kids :: r) =
  Elem t a (if String.eqb t tag
            then (if front then new ++ insert front tag new kids
                  else insert front tag new kids ++ new)
            else insert front tag new kids)
  :: insert front tag new r.
Proof. reflexivity. Qed.

Lemma update_text f s r :
  update f (Text s :: r) =
  match update f r with Some r' => Some (Text s :: r') | None => None end.
Proof. reflexivity. Qed.

Lemma update_elem f tag a kids r :
  update f (Elem tag a kids :: r) =
  match f tag a (text_of kids) with
  | None => None
  | Some a' =>
      match update f kids with
      | None => None
      | Some kids' =>
          match update f r with
          | None => None
          | Some r' => Some (Elem tag a' kids' :: r')
          end
      end
  end.
Proof.
  cbn [update update_node]. destruct (f tag a (text_of kids)); [|done].
  assert (E : (fix go (l : list node) : option (list node) :=
                 match l with
                 | [] => Some []
                 | k :: r0 =>
                     match update_node f k with
                     | Some k' =>
                         match go r0 with
                         | Some r' => Some (k' :: r')
                         | None => None
                         end
                     | None => None
                     end
                 end) kids = update f kids).
  { induction kids as [|k ks IH]; [done|]. cbn [update]. by rewrite IH. }
  rewrite E. by destruct (update f kids).
Qed.

Lemma each_text {S} (f : view (S -> option attrs * S)) s r st :
  each f (Text s :: r) st =
  let (r', st') := each f r st in (Text s :: r', st').
Proof. reflexivity. Qed.

Lemma each_elem {S} (f : view (S -> option attrs * S)) tag a kids r st :
  each f (Elem tag a kids :: r) st =
  let (res, st1) := f tag a (text_of kids) st in
  let (kids', st2) := each f kids st1 in
  let (r', st3) := each f r st2 in
  (match res with
   | None => []
   | Some a' => [Elem tag a' kids']
   end ++ r', st3).
Proof.
  cbn [each each_node]. destruct (f tag a (text_of kids) st) as [res st1].
  assert (E : forall st0,
             (fix go (l : list node) (st : S) : list node * S :=
                match l with
                | [] => ([], st)
                | k :: r0 =>
                    let (k', st') := each_node f k st in
                    let (r', st'') := go r0 st' in (k' ++ r', st'')
                end) kids st0 = each f kids st0).
  { induction kids as [|k ks IH]; [done|]. intros st0. cbn [each].
    destruct (each_node f k st0). by rewrite IH. }
  rewrite E. destruct (each f kids st1) as [kids' st2].
  destruct res; destruct (each f r st2); reflexivity.
Qed.

Lemma select_text {A} (f : view (option A)) s r :
  select f (Text s :: r) = select f r.
Proof. reflexivity. Qed.

Lemma select_elem {A} (f : view (option A)) tag a kids r :
  select f (Elem tag a kids :: r) =
  match f tag a (text_of kids) with Some x => [x] | None => [] end
  ++ select f kids ++ select f r.
Proof.
  cbn [select select_node]. rewrite <- app_assoc. do 2 f_equal.
  induction kids as [|k ks IH]; [done|]. cbn [select]. by rewrite IH.
Qed.

Create Rewrite HintDb dom.
#[global] Hint Rewrite remove_text remove_elem matches_text matches_elem
  insert_text insert_elem update_text update_elem : dom.
#[global] Hint Rewrite @select_text @select_elem @each_text @each_elem : dom.

Ltac forest d :=
  induction d as [| ?s ?r ?IHr | ?tag ?a ?kids ?r ?IHkids ?IHr] using forest_ind.

(** *** Text *)

Lemma text_of_app d1 d2 : text_of (d1 ++ d2) = text_of d1 +:+ text_of d2.
Proof.
  induction d1 as [|[s|tag a kids] d1 IH]; cbn [app text_of]; [done| |done].
  by rewrite IH, JSFacts.append_assoc.
Qed.

Lemma text_of_remove sel d : text_of (remove sel d) = text_of d.
Proof.
  forest d; autorewrite with dom; [done|cbn [text_of]; by rewrite IHr|].
  rewrite text_of_app, IHr. by destruct (sel tag a (text_of kids)).
Qed.

Lemma text_of_insert front tag new d : text_of (insert front tag new d) = text_of d.
Proof.
  forest d; autorewrite with dom; cbn [text_of]; [done|by rewrite IHr|done].
Qed.

Lemma text_of_update f d d' : update f d = Some d' -> text_of d' = text_of d.
Proof.
  revert d'. forest d; intros d'; autorewrite with dom.
  - by intros [= <-].
  - destruct (update f r) as [r'|]; [|done]. intros [= <-].
    cbn [text_of]. by rewrite (IHr r').
  - destruct (f tag a (text_of kids)); [|done].
    destruct (update f kids); [|done].
    destruct (update f r) as [r'|]; [|done]. intros [= <-].
    cbn [text_of]. by apply IHr.
Qed.

Lemma text_of_each {S} (f : view (S -> option attrs * S)) d st :
  text_of (each f d st).1 = text_of d.
Proof.
  revert st. forest d; intros st; autorewrite with dom; [done| |].
  - specialize (IHr st). destruct (each f r st). cbn [fst text_of] in *.
    by rewrite IHr.
  - destruct (f tag a (text_of kids) st) as [res st1].
    destruct (each f kids st1) as [kids' st2].
    specialize (IHr st2). destruct (each f r st2). cbn [fst] in *.
    rewrite text_of_app, IHr. by destruct res.
Qed.

(** *** Selections *)

Lemma matches_app sel d1 d2 :
  matches sel (d1 ++ d2) = matches sel d1 || matches sel d2.
Proof.
  induction d1 as [|k d1 IH]; [done|]. cbn [app matches].
  by rewrite IH, orb_assoc.
Qed.

Lemma matches_weaken (sel1 sel2 : view bool) d :
  (forall tag a text, sel1 tag a text = true -> sel2 tag a text = true) ->
  matches sel2 d = false -> matches sel1 d = false.
Proof.
  intros Hsel. forest d; autorewrite with dom; [done|done|].
  intros [[H1 H2]%orb_false_iff H3]%orb_false_iff.
  rewrite IHkids, IHr by done.
  destruct (sel1 tag a (text_of kids)) eqn:E; [|done].
  apply Hsel in E. congruence.
Qed.

Lemma matches_remove_self sel d : matches sel (remove sel d) = false.
Proof.
  forest d; autorewrite with dom; [done|by autorewrite with dom|].
  rewrite matches_app, IHr, orb_false_r.
  destruct (sel tag a (text_of kids)) eqn:E; [done|].
  autorewrite with dom. by rewrite text_of_remove, E, IHkids.
Qed.

Lemma matches_remove sel sel' d :
  matches sel d = false -> matches sel (remove sel' d) = false.
Proof.
  forest d; autorewrite with dom; [done|by autorewrite with dom|].
  intros [[H1 H2]%orb_false_iff H3]%orb_false_iff.
  rewrite matches_app, IHr, orb_false_r by done.
  destruct (sel' tag a (text_of kids)); [done|].
  autorewrite with dom. by rewrite text_of_remove, H1, IHkids.
Qed.

Lemma remove_id sel d : matches sel d = false -> remove sel d = d.
Proof.
  forest d; autorewrite with dom; [done|by intros ?; rewrite IHr|].
  intros [[H1 H2]%orb_false_iff H3]%orb_false_iff.
  by rewrite H1, IHkids, IHr.
Qed.

Lemma matches_update (sel : view bool) f d d' :
  (forall tag a text a',
      f tag a text = Some a' -> sel tag a text = false -> sel tag a' text = false) ->
  update f d = Some d' -> matches sel d = false -> matches sel d' = false.
Proof.
  intros Hf. revert d'. forest d; intros d'; autorewrite with dom.
  - by intros [= <-].
  - destruct (update f r) as [r'|]; [|done]. intros [= <-] ?.
    autorewrite with dom. by apply IHr.
  - destruct (f tag a (text_of kids)) as [a'|] eqn:Ef; [|done].
    destruct (update f kids) as [kids'|] eqn:Ek; [|done].
    destruct (update f r) as [r'|]; [|done].
    intros [= <-] [[H1 H2]%orb_false_iff H3]%orb_false_iff.
    autorewrite with dom.
    rewrite (text_of_update _ _ _ Ek), (Hf _ _ _ _ Ef H1).
    by rewrite (IHkids kids'), (IHr r').
Qed.

Lemma update_establish (sel : view bool) f d d' :
  (forall tag a text a', f tag a text = Some a' -> sel tag a' text = false) ->
  update f d = Some d' -> matches sel d' = false.
Proof.
  intros Hf. revert d'. forest d; intros d'; autorewrite with dom.
  - by intros [= <-].
  - destruct (update f r) as [r'|]; [|done]. intros [= <-].
    autorewrite with dom. by apply IHr.
  - destruct (f tag a (text_of kids)) as [a'|] eqn:Ef; [|done].
    destruct (update f kids) as [kids'|] eqn:Ek; [|done].
    destruct (update f r) as [r'|]; [|done]. intros [= <-].
    autorewrite with dom.
    rewrite (text_of_update _ _ _ Ek), (Hf _ _ _ _ Ef).
    by rewrite (IHkids kids'), (IHr r').
Qed.

Lemma update_id (sel : view bool) f d :
  (forall tag a text, sel tag a text = false -> f tag a text = Some a) ->
  matches sel d = false -> update f d = Some d.
Proof.
  intros Hf. forest d; autorewrite with dom; [done|by intros ?; rewrite IHr|].
  intros [[H1 H2]%orb_false_iff H3]%orb_false_iff.
  by rewrite (Hf _ _ _ H1), IHkids, IHr.
Qed.

Lemma insert_no_target front tag new d :
  has tag d = false -> insert front tag new d = d.
Proof.
  unfold has. forest d; autorewrite with dom; [done|by intros ?; rewrite IHr|].
  intros [[H1 H2]%orb_false_iff H3]%orb_false_iff.
  by rewrite H1, IHkids, IHr.
Qed.

(** A selector that never matches an element named [tag] sees an insertion
    into [tag] as the new nodes, wherever there is a target. *)
Lemma matches_insert (sel : view bool) front tag new d :
  (forall a text, sel tag a text = false) ->
  matches sel (insert front tag new d) =
  matches sel d || (has tag d && matches sel new).
Proof.
  intros Hsel. unfold has.
  forest d; autorewrite with dom; [done|done|].
  rewrite IHr. destruct (String.eqb tag0 tag) eqn:E.
  - apply String.eqb_eq in E as ->. rewrite !Hsel.
    destruct front; rewrite matches_app, IHkids;
      destruct (matches sel kids), (matches sel r), (matches sel new),
        (matches (fun t _ _ => String.eqb t tag) kids),
        (matches (fun t _ _ => String.eqb t tag) r); reflexivity.
  - rewrite text_of_insert, IHkids.
    destruct (sel tag0 a (text_of kids)), (matches sel kids), (matches sel r),
      (matches sel new), (matches (fun t _ _ => String.eqb t tag) kids),
      (matches (fun t _ _ => String.eqb t tag) r); reflexivity.
Qed.

(** *** Loops with effects *)

Section EachFacts.
Context {S : Type} (f : view (S -> option attrs * S)).

Lemma each_establish (sel : view bool) d st :
  (forall tag a text st0 a' st1,
      f tag a text st0 = (Some a', st1) -> sel tag a' text = false) ->
  matches sel (each f d st).1 = false.
Proof.
  intros Hf. revert st. forest d; intros st; autorewrite with dom; [done| |].
  - specialize (IHr st). destruct (each f r st). by autorewrite with dom.
  - destruct (f tag a (text_of kids) st) as [res st1] eqn:Ef.
    specialize (IHkids st1). pose proof (text_of_each f kids st1) as Ht.
    destruct (each f kids st1) as [kids' st2].
    specialize (IHr st2). destruct (each f r st2). cbn [fst] in *.
    rewrite matches_app, IHr, orb_false_r.
    destruct res as [a'|]; [|done]. autorewrite with dom.
    by rewrite Ht, (Hf _ _ _ _ _ _ Ef), IHkids.
Qed.

Lemma each_preserve (sel : view bool) d st :
  (forall tag a text st0 a' st1,
      f tag a text st0 = (Some a', st1) ->
      sel tag a text = false -> sel tag a' text = false) ->
  matches sel d = false -> matches sel (each f d st).1 = false.
Proof.
  intros Hf. revert st. forest d; intros st; autorewrite with dom; [done| |].
  - intros H. specialize (IHr st H). destruct (each f r st).
    by autorewrite with dom.
  - intros [[H1 H2]%orb_false_iff H3]%orb_false_iff.
    destruct (f tag a (text_of kids) st) as [res st1] eqn:Ef.
    specialize (IHkids st1 H2). pose proof (text_of_each f kids st1) as Ht.
    destruct (each f kids st1) as [kids' st2].
    specialize (IHr st2 H3). destruct (each f r st2). cbn [fst] in *.
    rewrite matches_app, IHr, orb_false_r.
    destruct res as [a'|]; [|done]. autorewrite with dom.
    by rewrite Ht, (Hf _ _ _ _ _ _ Ef H1), IHkids.
Qed.

(** A relation between states that every callback respects holds between
    the state before the loop and the state after it. *)
Lemma each_invariant (R : S -> S -> Prop) d st :
  (forall s, R s s) ->
  (forall s1 s2 s3, R s1 s2 -> R s2 s3 -> R s1 s3) ->
  (forall tag a text st0, R st0 (f tag a text st0).2) ->
  R st (each f d st).2.
Proof.
  intros Hrefl Htrans Hf. revert st. forest d; intros st; autorewrite with dom; [done| |].
  - specialize (IHr st). by destruct (each f r st).
  - specialize (Hf tag a (text_of kids) st).
    destruct (f tag a (text_of kids) st) as [res st1].
    specialize (IHkids st1). destruct (each f kids st1) as [kids' st2].
    specialize (IHr st2). destruct (each f r st2) as [r' st3]. cbn [snd] in *.
    eauto.
Qed.
End EachFacts.

End DomFacts.

(** ** URLs *)

Module URLFacts.
Import URL.

Lemma lower_alpha_not_slash c :
  JS.is_alpha c = true -> Ascii.eqb "/" (JS.lower_char c) = false.
Proof.
  destruct c as [[] [] [] [] [] [] [] []]; intros H;
    first [discriminate H | reflexivity].
Qed.

(** A scheme never starts with a slash. *)
Lemma split_scheme_head s sch rest :
  split_scheme s = Some (sch, rest) -> JS.startsWith "/" sch = false.
Proof.
  unfold split_scheme. destruct s as [|c s]; [done|].
  destruct (JS.is_alpha c) eqn:Ec; [|done].
  destruct (JS.drop_while is_scheme_char (String c s)) as [|x r]; [done|].
  destruct (Ascii.eqb x ":") eqn:Ex.
  - apply Ascii.eqb_eq in Ex as ->. intros [= <- <-].
    cbn [JS.take_while]. unfold is_scheme_char at 1, JS.is_alnum at 1.
    rewrite Ec. cbn [orb JS.toLowerCase JS.map_chars JS.startsWith].
    by rewrite lower_alpha_not_slash.
  - intros H. exfalso. revert H.
    destruct x as [[] [] [] [] [] [] [] []]; first [discriminate Ex | discriminate].
Qed.

Lemma with_authority_scheme sch s whole u :
  with_authority sch s whole = Some u -> scheme u = sch.
Proof. unfold with_authority. case_match; [done|]. by intros [= <-]. Qed.

Lemma parse_after_scheme_scheme sch rest u :
  parse_after_scheme sch rest = Some u -> scheme u = sch.
Proof.
  unfold parse_after_scheme.
  repeat case_match; eauto using with_authority_scheme; by intros [= <-].
Qed.

Lemma relative_scheme s b u : relative s b = Some u -> scheme u = scheme b.
Proof.
  unfold relative.
  repeat case_match; eauto using with_authority_scheme; by intros [= <-].
Qed.

Lemma parse_scheme s u : parse s = Some u -> JS.startsWith "/" (scheme u) = false.
Proof.
  unfold parse. destruct (split_scheme _) as [[sch rest]|] eqn:E; [|done].
  intros ->%parse_after_scheme_scheme. eauto using split_scheme_head.
Qed.

Lemma parse_with_base_scheme s base u :
  parse_with_base s base = Some u -> JS.startsWith "/" (scheme u) = false.
Proof.
  unfold parse_with_base. destruct (parse base) as [b|] eqn:Eb; [|done].
  apply parse_scheme in Eb.
  destruct (split_scheme _) as [[sch rest]|] eqn:E.
  - case_match.
    + by intros ->%relative_scheme.
    + intros ->%parse_after_scheme_scheme. eauto using split_scheme_head.
  - unfold no_scheme. repeat case_match; try done.
    + by intros [= <-].
    + by intros ->%relative_scheme.
Qed.

Lemma href_head u :
  JS.startsWith "/" (scheme u) = false -> JS.startsWith "/" (href u) = false.
Proof. unfold href. by destruct (scheme u). Qed.

Lemma tab_or_newline_c0 c : is_c0_or_space c = false -> is_tab_or_newline c = false.
Proof.
  destruct c as [[] [] [] [] [] [] [] []]; intros H;
    first [discriminate H | reflexivity].
Qed.

Lemma strip_end_printable s : printable s = true -> JS.strip_end is_c0_or_space s = s.
Proof.
  induction s as [|c s IH]; [done|]. cbn [printable JS.all_chars].
  intros [Hc Hs]%andb_true_iff. apply negb_true_iff in Hc.
  rewrite JSFacts.strip_end_keep by done. f_equal. by apply IH.
Qed.

Lemma filter_printable s :
  printable s = true ->
  JS.filter_chars (fun c => negb (is_tab_or_newline c)) s = s.
Proof.
  induction s as [|c s IH]; [done|]. cbn [printable JS.all_chars JS.filter_chars].
  intros [Hc Hs]%andb_true_iff. apply negb_true_iff in Hc.
  rewrite (tab_or_newline_c0 _ Hc). cbn [negb]. f_equal. by apply IH.
Qed.

Lemma preprocess_printable s : printable s = true -> preprocess s = s.
Proof.
  intros H. unfold preprocess, JS.strip.
  assert (E : JS.drop_while is_c0_or_space s = s).
  { destruct s as [|c s]; [done|]. cbn [printable JS.all_chars] in H.
    apply andb_true_iff in H as [Hc _]. apply negb_true_iff in Hc.
    cbn [JS.drop_while]. by rewrite Hc. }
  by rewrite E, strip_end_printable, filter_printable.
Qed.

Lemma preprocess_head c s :
  is_c0_or_space c = false -> exists x, preprocess (String c s) = String c x.
Proof.
  intros Hc. unfold preprocess, JS.strip. cbn [JS.drop_while]. rewrite Hc.
  rewrite JSFacts.strip_end_keep by done. cbn [JS.filter_chars].
  rewrite (tab_or_newline_c0 _ Hc). cbn [negb]. eauto.
Qed.

Lemma before_head stop s :
  JS.startsWith "/" s = false -> JS.startsWith "/" (before stop s) = false.
Proof.
  destruct s as [|c s]; [done|]. intros H. unfold before. cbn [JS.take_while].
  destruct (negb (stop c)); [|done]. cbn [JS.startsWith] in *.
  by destruct (Ascii.eqb "/" c).
Qed.

Lemma two_slashes s : JS.startsWith "/" s = false -> JS.startsWith "//" s = false.
Proof.
  destruct s as [|c s]; [done|]. intros H. cbn [JS.startsWith] in *.
  by destruct (Ascii.eqb "/" c).
Qed.

End URLFacts.

(** ** Attributes *)

Module AttrFacts.
Import Dom.

Lemma attr_set_same name v a : attr name (set_attr name v a) = Some v.
Proof.
  induction a as [|[k w] a IH]; cbn [set_attr attr].
  - by rewrite String.eqb_refl.
  - destruct (String.eqb k name) eqn:E; cbn [attr]; by rewrite E.
Qed.

Lemma attr_set_other name name' v a :
  name <> name' -> attr name (set_attr name' v a) = attr name a.
Proof.
  intros Hne. induction a as [|[k w] a IH]; cbn [set_attr attr].
  - destruct (String.eqb name' name) eqn:E; [|done].
    by apply String.eqb_eq in E.
  - destruct (String.eqb k name') eqn:E; cbn [attr]; [|by rewrite IH].
    apply String.eqb_eq in E as ->.
    destruct (String.eqb name' name) eqn:E'; [|done].
    by apply String.eqb_eq in E'.
Qed.

Lemma attr_truthy_attr name a v : attr_truthy name a = Some v -> attr name a = Some v.
Proof. unfold attr_truthy. destruct (attr name a); [|done]. by case_match. Qed.

End AttrFacts.

(** ** The final rewrite ([generateHTMLOutput]) *)

Module RewriteFacts.
Import Dom DomFacts WebsiteCloner Sample.

Lemma is_tag_eq t tag : is_tag t tag = true -> tag = t.
Proof. apply String.eqb_eq. Qed.

Lemma absolute_link_cases info tag a text a' :
  absolute_link info tag a text = Some a' -> a' = a \/ tag = "a".
Proof.
  unfold absolute_link. destruct (is_tag "a" tag) eqn:E.
  - right. by apply is_tag_eq.
  - intros [= <-]. by left.
Qed.

Lemma absolute_link_fixed info tag a text :
  site_link tag a text = false -> absolute_link info tag a text = Some a.
Proof.
  unfold site_link, absolute_link. destruct (is_tag "a" tag); [|done].
  destruct (attr_truthy "href" a); [|done]. cbn [andb]. by intros ->.
Qed.

Lemma absolute_link_establish info tag a text a' :
  absolute_link info tag a text = Some a' -> site_link tag a' text = false.
Proof.
  unfold site_link, absolute_link. destruct (is_tag "a" tag); [|done].
  cbn [andb]. destruct (attr_truthy "href" a) as [href|] eqn:Ea.
  - destruct (site_relative href) eqn:Er.
    + destruct (URL.parse_with_base href (baseUrl info)) as [u|] eqn:Eu; [|done].
      intros [= <-]. unfold attr_truthy.
      rewrite AttrFacts.attr_set_other, AttrFacts.attr_set_same by done.
      destruct (JS.truthy (URL.href u)); [|done]. unfold site_relative.
      by rewrite (URLFacts.href_head u (URLFacts.parse_with_base_scheme _ _ _ Eu)).
    + intros [= <-]. by rewrite Ea.
  - intros [= <-]. by rewrite Ea.
Qed.

(** A selector on a tag other than [a] is blind to the loop over links. *)
Lemma absolute_link_blind (sel : view bool) info tag a text a' :
  (forall b x, sel "a" b x = false) ->
  absolute_link info tag a text = Some a' ->
  sel tag a text = false -> sel tag a' text = false.
Proof.
  intros Hsel [-> | ->]%absolute_link_cases; [done|]. by rewrite Hsel.
Qed.

Lemma ensure_keeps (sel : view bool) p front tag new d :
  (forall a x, sel tag a x = false) ->
  matches sel new = false ->
  matches sel d = false ->
  matches sel (ensure p (insert front tag new) d) = false.
Proof.
  intros Hsel Hnew Hd. unfold ensure. destruct p; [done|].
  by rewrite matches_insert, Hd, Hnew, andb_false_r.
Qed.

(** After [ensure], either the condition holds or there is nowhere to
    insert. *)
Lemma ensure_settles (sel : view bool) extra front tag new d :
  (forall a x, sel tag a x = false) ->
  matches sel new = true ->
  matches sel (ensure (matches sel d || extra) (insert front tag new) d) || extra
  = true
  \/ has tag (ensure (matches sel d || extra) (insert front tag new) d) = false.
Proof.
  intros Hsel Hnew. unfold ensure.
  destruct (matches sel d || extra) eqn:E; [by left|].
  destruct (has tag d) eqn:Eh.
  - left. by rewrite matches_insert, Eh, Hnew, orb_true_r.
  - right. by rewrite insert_no_target.
Qed.

Lemma settled_stays (sel : view bool) extra p front tag new d :
  (forall a x, sel tag a x = false) ->
  matches sel d || extra = true \/ has tag d = false ->
  matches sel (ensure p (insert front tag new) d) || extra = true
  \/ has tag (ensure p (insert front tag new) d) = false.
Proof.
  intros Hsel H. unfold ensure. destruct p; [done|].
  destruct H as [H|H].
  - left. rewrite matches_insert by done.
    apply orb_true_iff in H as [-> | ->]; [done|]. apply orb_true_r.
  - right. by rewrite insert_no_target.
Qed.

Lemma settled_fixed (sel : view bool) extra front tag new d :
  matches sel d || extra = true \/ has tag d = false ->
  ensure (matches sel d || extra) (insert front tag new) d = d.
Proof.
  intros [H|H]; unfold ensure.
  - by rewrite H.
  - rewrite insert_no_target by done. by case_match.
Qed.

Lemma removable_blind (sel : view bool) tag a x :
  removable sel -> tag <> "script" -> tag <> "noscript" -> tag <> "iframe" ->
  sel tag a x = false.
Proof.
  intros Hsel ???. destruct (sel tag a x) eqn:E; [|done].
  by destruct (Hsel _ _ _ E) as [?|[?|?]].
Qed.

Lemma removable_tracking_script : removable tracking_script.
Proof.
  intros tag a x [->%is_tag_eq _]%andb_true_iff. by left.
Qed.

Lemma removable_noscript : removable noscript.
Proof. intros tag a x ->%is_tag_eq. right. by left. Qed.

Lemma removable_tracking_iframe : removable tracking_iframe.
Proof.
  intros tag a x [->%is_tag_eq _]%andb_true_iff. right. by right.
Qed.

Lemma removable_denied_script : removable denied_script.
Proof. intros tag a x [->%is_tag_eq _]%andb_true_iff. by left. Qed.

Lemma removable_signed_script : removable signed_script.
Proof. intros tag a x [->%is_tag_eq _]%andb_true_iff. by left. Qed.

(** What [enhance] adds is neither a script, nor a frame, nor a link. *)
Lemma enhance_keeps (sel : view bool) info d :
  (forall a x, sel "head" a x = false) ->
  (forall a x, sel "meta" a x = false) ->
  (forall a x, sel "style" a x = false) ->
  matches sel d = false -> matches sel (enhance info d) = false.
Proof.
  intros Hhead Hmeta Hstyle Hd. unfold enhance, prepend, append.
  repeat apply ensure_keeps; try done.
  - cbn. by rewrite Hstyle.
  - cbn. by rewrite Hmeta.
  - cbn. by rewrite Hmeta.
Qed.

Lemma enhance_keeps_removable sel info d :
  removable sel -> matches sel d = false -> matches sel (enhance info d) = false.
Proof.
  intros Hsel. apply enhance_keeps; intros; by apply removable_blind.
Qed.

Lemma scrub_clean d :
  matches tracking_script (scrub d) = false
  /\ matches noscript (scrub d) = false
  /\ matches tracking_iframe (scrub d) = false.
Proof.
  unfold scrub. repeat split.
  - do 2 apply matches_remove. apply matches_remove_self.
  - apply matches_remove. apply matches_remove_self.
  - apply matches_remove_self.
Qed.

Lemma scrub_id d :
  matches tracking_script d = false -> matches noscript d = false ->
  matches tracking_iframe d = false -> scrub d = d.
Proof.
  intros H1 H2 H3. unfold scrub.
  by rewrite (remove_id tracking_script), (remove_id noscript),
    (remove_id tracking_iframe).
Qed.

Lemma smooth_enhancement : matches smooth_style enhancementStyles = true.
Proof. vm_compute. reflexivity. Qed.

(** [enhance] adds nothing the second time. *)
Lemma enhance_fixed info d : enhance info (enhance info d) = enhance info d.
Proof.
  unfold enhance at 2. cbv zeta.
  set (d1 := ensure _ _ d). set (d2 := ensure _ _ d1). set (d3 := ensure _ _ d2).
  assert (V1 : matches (meta_named "viewport") d1 || false = true
               \/ has "head" d1 = false).
  { subst d1. rewrite <- (orb_false_r (matches (meta_named "viewport") d)).
    by apply ensure_settles. }
  assert (V3 : matches (meta_named "viewport") d3 || false = true
               \/ has "head" d3 = false).
  { subst d3 d2. do 2 (apply settled_stays; [done|]). exact V1. }
  assert (D2 : matches (meta_named "description") d2
               || negb (JS.truthy (description info)) = true
               \/ has "head" d2 = false).
  { subst d2. by apply ensure_settles. }
  assert (D3 : matches (meta_named "description") d3
               || negb (JS.truthy (description info)) = true
               \/ has "head" d3 = false).
  { subst d3. apply settled_stays; [done|]. exact D2. }
  assert (S3 : matches smooth_style d3 || false = true \/ has "head" d3 = false).
  { subst d3. rewrite <- (orb_false_r (matches smooth_style d2)).
    apply ensure_settles; [done|]. apply smooth_enhancement. }
  unfold enhance, prepend, append. cbv zeta.
  rewrite <- (orb_false_r (matches (meta_named "viewport") d3)).
  rewrite (settled_fixed _ _ _ _ _ _ V3).
  rewrite (settled_fixed _ _ _ _ _ _ D3).
  rewrite <- (orb_false_r (matches smooth_style d3)).
  by rewrite (settled_fixed _ _ _ _ _ _ S3).
Qed.

(** What [final_document] returns has no node left that [generateHTMLOutput]
    removes and no link left that it makes absolute. *)
Lemma rewrite_clean info d d' :
  final_document info d = Some d' ->
  matches tracking_script d' = false
  /\ matches noscript d' = false
  /\ matches tracking_iframe d' = false
  /\ matches site_link d' = false.
Proof.
  unfold final_document.
  destruct (update (absolute_link info) (scrub d)) as [d4|] eqn:E; [|done].
  intros [= <-]. destruct (scrub_clean d) as (H1 & H2 & H3).
  repeat split.
  - apply enhance_keeps_removable; [apply removable_tracking_script|].
    eapply matches_update; [|exact E|exact H1].
    intros ????. by apply absolute_link_blind.
  - apply enhance_keeps_removable; [apply removable_noscript|].
    eapply matches_update; [|exact E|exact H2].
    intros ????. by apply absolute_link_blind.
  - apply enhance_keeps_removable; [apply removable_tracking_iframe|].
    eapply matches_update; [|exact E|exact H3].
    intros ????. by apply absolute_link_blind.
  - apply enhance_keeps; try done.
    eapply update_establish; [|exact E]. apply absolute_link_establish.
Qed.

Lemma rewrite_fixed info d d' : final_document info d = Some d' -> final_document info d' = Some d'.
Proof.
  intros H. destruct (rewrite_clean _ _ _ H) as (H1 & H2 & H3 & H4).
  unfold final_document in *.
  destruct (update (absolute_link info) (scrub d)) as [d4|]; [|done].
  injection H as <-.
  rewrite scrub_id by done.
  rewrite (update_id site_link) by (done || apply absolute_link_fixed).
  by rewrite enhance_fixed.
Qed.

End RewriteFacts.

(** ** The consolidating pass ([downloadAssets]) *)

Module ClonerFacts.
Import Dom DomFacts WebsiteCloner Sample RewriteFacts.

(** *** The document it returns holds no denied script *)

Lemma fetch_into_bundle_keep e base ref a s a' s' :
  fetch_into_bundle e base ref a s = (Some a', s') -> a' = a.
Proof.
  unfold fetch_into_bundle, axios_get. repeat case_match; congruence.
Qed.

Lemma linked_script_establish e base tag a text s a' s' :
  linked_script e base tag a text s = (Some a', s') ->
  denied_script tag a' text = false.
Proof.
  unfold linked_script, denied_script, tracking_src, has_attr, attr_truthy.
  destruct (is_tag "script" tag); cbn [andb]; [|done].
  destruct (attr "src" a) as [src|] eqn:Ea; [|by intros [= <- _]; rewrite Ea].
  destruct (JS.truthy src) eqn:Et; [|done].
  destruct (isTrackingScript src) eqn:Ei; [done|].
  intros ->%fetch_into_bundle_keep. by rewrite Ea, Et.
Qed.

Lemma localize_keep e base outputDir name a s a' s' :
  localize e base outputDir name a s = (Some a', s') ->
  a' = a \/ exists v, a' = set_attr name v a.
Proof.
  unfold localize. destruct (attr_truthy name a); [|intros [= <- _]; by left].
  destruct (fetch_image _ _ _ _ _) as [[p|] ?]; intros [= <- _]; eauto.
Qed.

Lemma image_blind (sel : view bool) e base outputDir tag a text s a' s' :
  (forall b x, sel "img" b x = false) ->
  image e base outputDir tag a text s = (Some a', s') ->
  sel tag a text = false -> sel tag a' text = false.
Proof.
  intros Hsel. unfold image. destruct (is_tag "img" tag) eqn:E.
  - apply is_tag_eq in E as ->. by rewrite Hsel.
  - by intros [= <- _].
Qed.

Lemma image_set_blind (sel : view bool) e base outputDir tag a text s a' s' :
  (forall b x, sel "img" b x = false) ->
  image_set e base outputDir tag a text s = (Some a', s') ->
  sel tag a text = false -> sel tag a' text = false.
Proof.
  intros Hsel. unfold image_set. destruct (is_tag "img" tag) eqn:E.
  - apply is_tag_eq in E as ->. by rewrite Hsel.
  - by intros [= <- _].
Qed.

Lemma icon_blind (sel : view bool) e base outputDir tag a text s a' s' :
  (forall b x, sel "link" b x = false) ->
  icon e base outputDir tag a text s = (Some a', s') ->
  sel tag a text = false -> sel tag a' text = false.
Proof.
  intros Hsel. unfold icon, is_icon_link. destruct (is_tag "link" tag) eqn:E.
  - apply is_tag_eq in E as ->. by rewrite Hsel.
  - by intros [= <- _].
Qed.

Lemma write_bundle_keeps (sel : view bool) e path bundle parent tag d st d' st' :
  (forall a x, sel parent a x = false) ->
  matches sel [tag] = false ->
  write_bundle e path bundle parent tag d st = Some (d', st') ->
  matches sel d = false -> matches sel d' = false.
Proof.
  intros Hsel Htag. unfold write_bundle, append.
  destruct (JS.truthy (JS.trim bundle)); [|by intros [= <- _]].
  destruct (writeFile e path (Bytes bundle) st); [|done].
  intros [= <- _] Hd. by rewrite matches_insert, Hd, Htag, andb_false_r.
Qed.

Lemma bundle_script_allowed : matches denied_script [bundle_script] = false.
Proof. vm_compute. reflexivity. Qed.

Lemma consolidate_no_denied e base outputDir d st d' css js st' :
  consolidate e base outputDir d st = (Returned (d', css, js), st') ->
  matches denied_script d' = false.
Proof.
  unfold consolidate.
  destruct (each inline_style d "") as [d1 css0].
  destruct (each (linked_style e base) d1 (css0, st)) as [d2 [combinedCSS st2]].
  destruct (write_bundle _ _ combinedCSS _ _ d2 st2) as [[d3 st3]|]; [|done].
  destruct (each inline_script d3 "") as [d4 js0].
  pose proof (each_establish (linked_script e base) denied_script d4 (js0, st3))
    as H.
  destruct (each (linked_script e base) d4 (js0, st3)) as [d5 [combinedJS st5]].
  destruct (write_bundle _ _ combinedJS _ _ d5 st5) as [[d6 st6]|] eqn:Ew; [|done].
  intros [= <- _ _ _].
  eapply write_bundle_keeps; [|apply bundle_script_allowed|exact Ew|].
  - intros. apply removable_blind; [apply removable_denied_script|done..].
  - apply H. intros ??????. apply linked_script_establish.
Qed.

Lemma localize_images_keeps (sel : view bool) e base outputDir css d st d' ps st' :
  (forall b x, sel "img" b x = false) ->
  (forall b x, sel "link" b x = false) ->
  localize_images e base outputDir css d st = (Returned (d', ps), st') ->
  matches sel d = false -> matches sel d' = false.
Proof.
  intros Himg Hlink. unfold localize_images.
  pose proof (each_preserve (image e base outputDir) sel d ([], st)) as H1.
  destruct (each (image e base outputDir) d ([], st)) as [d1 s1].
  pose proof (each_preserve (image_set e base outputDir) sel d1 s1) as H2.
  destruct (each (image_set e base outputDir) d1 s1) as [d2 s2].
  destruct (localize_css e base outputDir css s2) as [[ps3|] st3]; [|done].
  pose proof (each_preserve (icon e base outputDir) sel d2 (ps3, st3)) as H3.
  destruct (each (icon e base outputDir) d2 (ps3, st3)) as [d3 s4].
  intros [= <- _ _] Hd. apply H3.
  { intros ??????. by apply icon_blind. }
  apply H2.
  { intros ??????. by apply image_set_blind. }
  apply H1; [|done].
  intros ??????. by apply image_blind.
Qed.

Lemma downloadAssets_no_denied e d base outputDir st r st' :
  downloadAssets e d base outputDir st = (Returned r, st') ->
  matches denied_script (html r) = false.
Proof.
  unfold downloadAssets.
  destruct (consolidate e base outputDir d st) as [[[[d1 css] js]|] st1] eqn:Ec;
    [|done].
  destruct (localize_images e base outputDir css d1 st1) as [[[d2 ps]|] st2] eqn:El;
    [|done].
  intros [= <- _]. cbn [html].
  eapply localize_images_keeps; [| |exact El|].
  - intros. apply removable_blind; [apply removable_denied_script|done..].
  - intros. apply removable_blind; [apply removable_denied_script|done..].
  - eapply consolidate_no_denied, Ec.
Qed.

(** *** What a loop accumulates *)

Section Accumulate.
Context {S M A : Type} (f : view (S -> option attrs * S)).
Context (log : S -> M) (op : M -> M -> M) (unit : M).
Context (sel : view (option A)) (h : A -> M).
Hypothesis op_assoc : forall x y z, op (op x y) z = op x (op y z).
Hypothesis op_unit_l : forall x, op unit x = x.
Hypothesis op_unit_r : forall x, op x unit = x.

Lemma gather_app l1 l2 :
  gather op unit h (l1 ++ l2) = op (gather op unit h l1) (gather op unit h l2).
Proof.
  unfold gather. induction l1 as [|v l1 IH]; cbn [app foldr].
  - by rewrite op_unit_l.
  - by rewrite IH, op_assoc.
Qed.

(** When each callback appends [h v] for the element it selects with value
    [v], the loop appends them in document order. *)
Lemma each_accumulates d st :
  (forall tag a x s,
      log (f tag a x s).2
      = op (log s) (match sel tag a x with Some v => h v | None => unit end)) ->
  log (each f d st).2 = op (log st) (gather op unit h (select sel d)).
Proof.
  intros Hf. revert st. forest d; intros st; autorewrite with dom.
  - by rewrite op_unit_r.
  - specialize (IHr st). by destruct (each f r st).
  - specialize (Hf tag a (text_of kids) st).
    destruct (f tag a (text_of kids) st) as [res st1].
    specialize (IHkids st1). destruct (each f kids st1) as [kids' st2].
    specialize (IHr st2). destruct (each f r st2) as [r' st3]. cbn [snd] in *.
    rewrite IHr, IHkids, Hf, !gather_app, !op_assoc. do 2 f_equal.
    destruct (sel tag a (text_of kids)); unfold gather; cbn [foldr];
      by rewrite ?op_unit_r.
Qed.
End Accumulate.

Lemma linked_script_step e base tag a text s :
  requests (linked_script e base tag a text s).2.2
  = requests s.2
    ++ match script_src tag a text with
       | Some src =>
           if isTrackingScript src then []
           else option_list (resolveUrl src base)
       | None => []
       end.
Proof.
  unfold linked_script, script_src, has_attr, attr_truthy.
  destruct (is_tag "script" tag); cbn [andb]; [|by rewrite app_nil_r].
  destruct (attr "src" a) as [src|]; [|by rewrite app_nil_r].
  destruct (JS.truthy src); [|by rewrite app_nil_r].
  destruct (isTrackingScript src); [by rewrite app_nil_r|].
  unfold fetch_into_bundle, axios_get.
  destruct (resolveUrl src base) as [u|]; [|by rewrite app_nil_r].
  by destruct (http e u).
Qed.

Lemma gather_script_fetches base srcs :
  gather app []
    (fun src => if isTrackingScript src then []
                else option_list (resolveUrl src base)) srcs
  = script_fetches base srcs.
Proof.
  unfold script_fetches, gather in *.
  induction srcs as [|src srcs IH]; [done|].
  cbn [foldr List.filter]. rewrite IH. destruct (isTrackingScript src); cbn [negb]; [done|].
  cbn [omap list_omap]. by destruct (resolveUrl src base).
Qed.

(** The loop over [script[src]] requests the sources the deny-list does
    not match, and only them. *)
Lemma linked_script_requests e base d s :
  requests (each (linked_script e base) d s).2.2
  = requests s.2 ++ script_fetches base (select script_src d).
Proof.
  rewrite <- gather_script_fetches.
  apply (each_accumulates (linked_script e base) (fun s => requests s.2) app []
           script_src); intros.
  - by rewrite <- app_assoc.
  - done.
  - by rewrite app_nil_r.
  - apply linked_script_step.
Qed.

Lemma inline_script_step tag a text js :
  (inline_script tag a text js).2
  = js +:+ match inline_script_text tag a text with
           | Some text =>
               if isTrackingScriptContent text then ""
               else text +:+ JS.newline
           | None => ""
           end.
Proof.
  unfold inline_script, inline_script_text.
  assert (E : forall x : string, x +:+ "" = x).
  { induction x as [|c x IH]; [done|]. by rewrite JSFacts.app_cons, IH. }
  destruct (is_tag "script" tag); [|by rewrite E].
  destruct (attr_truthy "src" a); [by rewrite E|].
  destruct (isTrackingScriptContent text); cbn [negb snd]; by rewrite ?E.
Qed.

Lemma gather_script_bundle texts :
  gather String.append ""
    (fun text => if isTrackingScriptContent text then ""
                 else text +:+ JS.newline) texts
  = script_bundle texts.
Proof.
  unfold script_bundle, gather in *.
  induction texts as [|text texts IH]; [done|].
  cbn [foldr List.filter]. rewrite IH. by destruct (isTrackingScriptContent text).
Qed.

(** The loop over the inline scripts adds the texts without a tracking
    signature, and only them. *)
Lemma inline_script_bundle d js :
  (each inline_script d js).2 = js +:+ script_bundle (select inline_script_text d).
Proof.
  rewrite <- gather_script_bundle.
  apply (each_accumulates inline_script (fun js => js) String.append ""
           inline_script_text); intros.
  - apply JSFacts.append_assoc.
  - done.
  - induction x as [|c x IH]; [done|]. by rewrite JSFacts.app_cons, IH.
  - apply inline_script_step.
Qed.

(** *** The set of downloaded URLs only grows *)

Lemma remembers_refl st : remembers st st.
Proof. by unfold remembers. Qed.

Lemma remembers_trans st1 st2 st3 :
  remembers st1 st2 -> remembers st2 st3 -> remembers st1 st3.
Proof. unfold remembers. set_solver. Qed.

#[local] Instance remembers_reflexive : Reflexive remembers := remembers_refl.

#[local] Hint Resolve remembers_refl remembers_trans : core.

Ltac same_set := unfold remembers; cbn; set_solver.
Ltac chain :=
  cbn [fst snd] in *;
  repeat first [eassumption | apply remembers_refl
               | eapply remembers_trans; [eassumption|]].

Lemma downloadAsset_remembers url localPath st :
  remembers st (downloadAsset url localPath st).2.
Proof. unfold downloadAsset. case_decide; same_set. Qed.

Lemma finish_remembers e p st : remembers st (finish e p st).
Proof.
  unfold finish, remembers. repeat case_match; cbn; set_solver.
Qed.

Lemma finish_some_remembers e i l st : remembers st (finish_some e i l st).2.
Proof.
  revert i st. induction l as [|p l IH]; intros i st; cbn [finish_some]; [done|].
  destruct (early e i).
  - eapply remembers_trans; [apply finish_remembers|apply IH].
  - specialize (IH (S i) st). by destruct (finish_some e (S i) l st).
Qed.

Lemma await_point_remembers e st : remembers st (await_point e st).
Proof.
  unfold await_point. pose proof (finish_some_remembers e 0 (inflight st) st).
  by destruct (finish_some e 0 (inflight st) st).
Qed.

Lemma settle_all_remembers e st : remembers st (settle_all e st).
Proof.
  unfold settle_all. change (remembers st (fold_left (fun s p => finish e p s)
                                             (inflight st) st)).
  generalize (inflight st). intros l. revert st.
  induction l as [|p l IH]; intros st; cbn [fold_left]; [done|].
  eapply remembers_trans; [apply finish_remembers|apply IH].
Qed.

Lemma writeFile_remembers e p c st st' :
  writeFile e p c st = Some st' -> remembers st st'.
Proof. unfold writeFile. case_match; [|done]. intros [= <-]. same_set. Qed.

Lemma fetch_into_bundle_remembers e base ref a s :
  remembers s.2 (fetch_into_bundle e base ref a s).2.2.
Proof. unfold fetch_into_bundle, axios_get. repeat case_match; same_set. Qed.

Lemma linked_style_remembers e base tag a text s :
  remembers s.2 (linked_style e base tag a text s).2.2.
Proof.
  unfold linked_style. repeat case_match; try done.
  apply fetch_into_bundle_remembers.
Qed.

Lemma linked_script_remembers e base tag a text s :
  remembers s.2 (linked_script e base tag a text s).2.2.
Proof.
  unfold linked_script. repeat case_match; try done.
  apply fetch_into_bundle_remembers.
Qed.

Lemma fetch_image_remembers e base outputDir ref s :
  remembers s.2 (fetch_image e base outputDir ref s).2.2.
Proof.
  unfold fetch_image. destruct (resolveUrl ref base) as [u|]; [|done].
  pose proof (downloadAsset_remembers u
                (Path.join outputDir
                   (getFileName (date_now e (clock s.2)) ref "images"))
                (tick s.2)) as H.
  by destruct (downloadAsset _ _ _).
Qed.

Lemma localize_remembers e base outputDir name a s :
  remembers s.2 (localize e base outputDir name a s).2.2.
Proof.
  unfold localize. destruct (attr_truthy name a) as [ref|]; [|done].
  pose proof (fetch_image_remembers e base outputDir ref s).
  by destruct (fetch_image e base outputDir ref s) as [[?|] ?].
Qed.

Lemma srcset_loop_remembers e base outputDir srcset urls a s :
  remembers s.2 (srcset_loop e base outputDir srcset urls a s).2.2.
Proof.
  revert a s. induction urls as [|url urls IH]; intros a s; cbn [srcset_loop];
    [done|].
  pose proof (fetch_image_remembers e base outputDir url s).
  destruct (fetch_image e base outputDir url s) as [[?|] s'];
    eapply remembers_trans; eauto.
Qed.

Lemma css_loop_remembers e base outputDir urls css s :
  remembers s.2 (css_loop e base outputDir urls css s).2.2.
Proof.
  revert css s. induction urls as [|url urls IH]; intros css s; cbn [css_loop];
    [done|].
  destruct (JS.startsWith "data:" url); [apply IH|].
  pose proof (fetch_image_remembers e base outputDir url s).
  destruct (fetch_image e base outputDir url s) as [[?|] s'];
    eapply remembers_trans; eauto.
Qed.

Lemma image_remembers e base outputDir tag a text s :
  remembers s.2 (image e base outputDir tag a text s).2.2.
Proof. unfold image. case_match; [apply localize_remembers|done]. Qed.

Lemma icon_remembers e base outputDir tag a text s :
  remembers s.2 (icon e base outputDir tag a text s).2.2.
Proof. unfold icon. case_match; [apply localize_remembers|done]. Qed.

Lemma image_set_remembers e base outputDir tag a text s :
  remembers s.2 (image_set e base outputDir tag a text s).2.2.
Proof.
  unfold image_set. repeat case_match; try done.
  match goal with
  | H : srcset_loop ?e ?b ?o ?x ?l ?a ?s = _ |- _ =>
      pose proof (srcset_loop_remembers e b o x l a s) as R; by rewrite H in R
  end.
Qed.

(** The relation on the local variables of a loop that carry the state. *)
Lemma each_remembers {X} (f : view (X * state -> option attrs * (X * state)))
  d s d' s' :
  (forall tag a text s0, remembers s0.2 (f tag a text s0).2.2) ->
  each f d s = (d', s') -> remembers s.2 s'.2.
Proof.
  intros Hf E.
  pose proof (each_invariant f (fun s s' => remembers s.2 s'.2) d s) as H.
  rewrite E in H. apply H; eauto.
Qed.

Lemma write_bundle_remembers e path bundle parent tag d st d' st' :
  write_bundle e path bundle parent tag d st = Some (d', st') -> remembers st st'.
Proof.
  unfold write_bundle. case_match; [|by intros [= _ <-]].
  destruct (writeFile e path (Bytes bundle) st) eqn:E; [|done].
  intros [= _ <-]. eauto using writeFile_remembers.
Qed.

Lemma consolidate_remembers e base outputDir d st :
  remembers st (consolidate e base outputDir d st).2.
Proof.
  unfold consolidate.
  destruct (each inline_style d "") as [d1 css0].
  destruct (each (linked_style e base) d1 (css0, st)) as [d2 [combinedCSS st2]]
    eqn:E2.
  apply each_remembers in E2; [|apply linked_style_remembers].
  destruct (write_bundle _ _ combinedCSS _ _ d2 st2) as [[d3 st3]|] eqn:E3;
    [|chain].
  apply write_bundle_remembers in E3.
  destruct (each inline_script d3 "") as [d4 js0].
  destruct (each (linked_script e base) d4 (js0, st3)) as [d5 [combinedJS st5]]
    eqn:E5.
  apply each_remembers in E5; [|apply linked_script_remembers].
  destruct (write_bundle _ _ combinedJS _ _ d5 st5) as [[d6 st6]|] eqn:E6;
    [apply write_bundle_remembers in E6|]; chain.
Qed.

Lemma localize_css_remembers e base outputDir css s :
  remembers s.2 (localize_css e base outputDir css s).2.
Proof.
  unfold localize_css. destruct (JS.truthy css); [|done].
  pose proof (css_loop_remembers e base outputDir (css_urls css) css s) as Hloop.
  destruct (css_loop e base outputDir (css_urls css) css s) as [updated s'].
  destruct (String.eqb updated css); [done|].
  pose proof (await_point_remembers e s'.2) as Hawait.
  destruct (writeFile _ _ _ _) eqn:E; cbn [snd] in *;
    [apply writeFile_remembers in E|]; chain.
Qed.

Lemma localize_images_remembers e base outputDir css d st :
  remembers st (localize_images e base outputDir css d st).2.
Proof.
  unfold localize_images.
  destruct (each (image e base outputDir) d ([], st)) as [d1 s1] eqn:E1.
  apply each_remembers in E1; [|apply image_remembers].
  destruct (each (image_set e base outputDir) d1 s1) as [d2 s2] eqn:E2.
  apply each_remembers in E2; [|apply image_set_remembers].
  pose proof (localize_css_remembers e base outputDir css s2) as H3.
  destruct (localize_css e base outputDir css s2) as [[ps|] st3]; [|chain].
  destruct (each (icon e base outputDir) d2 (ps, st3)) as [d3 s4] eqn:E4.
  apply each_remembers in E4; [|apply icon_remembers]. chain.
Qed.

(** A run of [downloadAssets] forgets no URL. *)
Lemma downloadAssets_remembers e d base outputDir st :
  remembers st (downloadAssets e d base outputDir st).2.
Proof.
  unfold downloadAssets.
  pose proof (consolidate_remembers e base outputDir d st) as H1.
  destruct (consolidate e base outputDir d st) as [[[[d1 css] js]|] st1];
    [|chain].
  pose proof (localize_images_remembers e base outputDir css d1 st1) as H2.
  destruct (localize_images e base outputDir css d1 st1) as [[[d2 ps]|] st2];
    [|chain].
  pose proof (settle_all_remembers e st2). chain.
Qed.

Lemma generateHTMLOutput_remembers e d outputDir info st :
  remembers st (generateHTMLOutput e d outputDir info st).2.
Proof.
  unfold generateHTMLOutput, createServerScript.
  destruct (final_document info d) as [d'|]; [|done].
  destruct (writeFile e _ (Markup d') st) as [st1|] eqn:E1; [|done].
  apply writeFile_remembers in E1.
  destruct (writeFile e _ PythonServer st1) as [st2|] eqn:E2; [|done].
  apply writeFile_remembers in E2.
  destruct (writeFile e _ BatchServer st2) as [st3|] eqn:E3; [|done].
  apply writeFile_remembers in E3. chain.
Qed.

(** Neither does a whole [clone]. *)
Lemma clone_remembers e page url outputDir ai useAI st :
  remembers st (clone e page url outputDir ai useAI st).2.
Proof.
  unfold clone. destruct page as [[html0 info]|]; [|done].
  match goal with
  | |- context [downloadAssets ?e ?d ?b ?o ?s] =>
      pose proof (downloadAssets_remembers e d b o s) as H1;
      destruct (downloadAssets e d b o s) as [[r|] st1]; [|chain]
  end.
  pose proof (generateHTMLOutput_remembers e (html r) outputDir info st1) as H2.
  destruct (generateHTMLOutput e (html r) outputDir info st1) as [[?|] st2];
    chain.
Qed.

(** *** The rewritten references do not depend on any fetch *)

Lemma each_related {S S'} (f : view (S -> option attrs * S))
  (f' : view (S' -> option attrs * S')) (R : S -> S' -> Prop) d u u' :
  (forall tag a x s s',
      R s s' ->
      (f tag a x s).1 = (f' tag a x s').1 /\ R (f tag a x s).2 (f' tag a x s').2) ->
  R u u' ->
  (each f d u).1 = (each f' d u').1 /\ R (each f d u).2 (each f' d u').2.
Proof.
  intros Hf. revert u u'. forest d; intros u u' HR; autorewrite with dom.
  - done.
  - destruct (IHr u u' HR) as [E1 E2].
    destruct (each f r u), (each f' r u'). cbn in *. by subst.
  - destruct (Hf tag a (text_of kids) u u' HR) as [E1 E2].
    destruct (f tag a (text_of kids) u) as [res st1].
    destruct (f' tag a (text_of kids) u') as [res' st1']. cbn in E1, E2. subst res'.
    destruct (IHkids st1 st1' E2) as [E3 E4].
    destruct (each f kids st1) as [k2 st2], (each f' kids st1') as [k2' st2'].
    cbn in E3, E4. subst k2'.
    destruct (IHr st2 st2' E4) as [E5 E6].
    destruct (each f r st2) as [r3 st3], (each f' r st2') as [r3' st3'].
    cbn in *. by subst.
Qed.

Lemma downloadAsset_clock url localPath st :
  clock (downloadAsset url localPath st).2 = clock st.
Proof. unfold downloadAsset. by case_decide. Qed.

Lemma finish_clock e p st : clock (finish e p st) = clock st.
Proof. unfold finish. by repeat case_match. Qed.

Lemma finish_some_clock e i l st : clock (finish_some e i l st).2 = clock st.
Proof.
  revert i st. induction l as [|p l IH]; intros i st; cbn [finish_some]; [done|].
  destruct (early e i).
  - by rewrite IH, finish_clock.
  - specialize (IH (S i) st). by destruct (finish_some e (S i) l st).
Qed.

Lemma await_point_clock e st : clock (await_point e st) = clock st.
Proof.
  unfold await_point. pose proof (finish_some_clock e 0 (inflight st) st).
  by destruct (finish_some e 0 (inflight st) st).
Qed.

Lemma writeFile_clock e p c st st' :
  writeFile e p c st = Some st' -> clock st' = clock st.
Proof. unfold writeFile. case_match; [|done]. by intros [= <-]. Qed.

Section Independent.
Context (e e' : env) (base outputDir : string).
Hypothesis Htime : same_time e e'.

Lemma fetch_image_related ref s s' :
  same_clock s s' ->
  (fetch_image e base outputDir ref s).1 = (fetch_image e' base outputDir ref s').1
  /\ same_clock (fetch_image e base outputDir ref s).2
       (fetch_image e' base outputDir ref s').2.
Proof.
  unfold same_clock, fetch_image. intros Hc.
  destruct (resolveUrl ref base) as [u|]; [|done].
  rewrite Htime, Hc.
  pose proof (downloadAsset_clock u
    (Path.join outputDir (getFileName (date_now e' (clock s'.2)) ref "images"))
    (tick s.2)) as H1.
  pose proof (downloadAsset_clock u
    (Path.join outputDir (getFileName (date_now e' (clock s'.2)) ref "images"))
    (tick s'.2)) as H2.
  destruct (downloadAsset _ _ (tick s.2)), (downloadAsset _ _ (tick s'.2)).
  cbn in *. split; [done|]. rewrite H1, H2. by f_equal.
Qed.

Lemma localize_related name a s s' :
  same_clock s s' ->
  (localize e base outputDir name a s).1 = (localize e' base outputDir name a s').1
  /\ same_clock (localize e base outputDir name a s).2
       (localize e' base outputDir name a s').2.
Proof.
  intros Hc. unfold localize. destruct (attr_truthy name a) as [ref|]; [|done].
  destruct (fetch_image_related ref s s' Hc) as [E1 E2].
  destruct (fetch_image e base outputDir ref s) as [p1 s1].
  destruct (fetch_image e' base outputDir ref s') as [p2 s2].
  cbn in E1, E2. subst p2. by destruct p1.
Qed.

Lemma srcset_loop_related srcset urls a s s' :
  same_clock s s' ->
  (srcset_loop e base outputDir srcset urls a s).1
  = (srcset_loop e' base outputDir srcset urls a s').1
  /\ same_clock (srcset_loop e base outputDir srcset urls a s).2
       (srcset_loop e' base outputDir srcset urls a s').2.
Proof.
  revert a s s'. induction urls as [|url urls IH]; intros a s s' Hc;
    cbn [srcset_loop]; [done|].
  destruct (fetch_image_related url s s' Hc) as [E1 E2].
  destruct (fetch_image e base outputDir url s) as [p1 s1].
  destruct (fetch_image e' base outputDir url s') as [p2 s2].
  cbn in E1, E2. subst p2. destruct p1; by apply IH.
Qed.

Lemma css_loop_related urls css s s' :
  same_clock s s' ->
  (css_loop e base outputDir urls css s).1 = (css_loop e' base outputDir urls css s').1
  /\ same_clock (css_loop e base outputDir urls css s).2
       (css_loop e' base outputDir urls css s').2.
Proof.
  revert css s s'. induction urls as [|url urls IH]; intros css s s' Hc;
    cbn [css_loop]; [done|].
  destruct (JS.startsWith "data:" url); [by apply IH|].
  destruct (fetch_image_related url s s' Hc) as [E1 E2].
  destruct (fetch_image e base outputDir url s) as [p1 s1].
  destruct (fetch_image e' base outputDir url s') as [p2 s2].
  cbn in E1, E2. subst p2. destruct p1; by apply IH.
Qed.

Lemma image_related tag a x s s' :
  same_clock s s' ->
  (image e base outputDir tag a x s).1 = (image e' base outputDir tag a x s').1
  /\ same_clock (image e base outputDir tag a x s).2
       (image e' base outputDir tag a x s').2.
Proof. unfold image. case_match; [apply localize_related|done]. Qed.

Lemma icon_related tag a x s s' :
  same_clock s s' ->
  (icon e base outputDir tag a x s).1 = (icon e' base outputDir tag a x s').1
  /\ same_clock (icon e base outputDir tag a x s).2
       (icon e' base outputDir tag a x s').2.
Proof. unfold icon. case_match; [apply localize_related|done]. Qed.

Lemma image_set_related tag a x s s' :
  same_clock s s' ->
  (image_set e base outputDir tag a x s).1
  = (image_set e' base outputDir tag a x s').1
  /\ same_clock (image_set e base outputDir tag a x s).2
       (image_set e' base outputDir tag a x s').2.
Proof.
  intros Hc. unfold image_set. case_match; [|done].
  destruct (attr_truthy "srcset" a) as [srcset|]; [|done].
  destruct (srcset_loop_related srcset (srcset_urls srcset) a s s' Hc) as [E1 E2].
  destruct (srcset_loop e _ _ _ _ _ _), (srcset_loop e' _ _ _ _ _ _).
  cbn in *. by subst.
Qed.

Lemma localize_css_related css s s' ps st ps' st' :
  same_clock s s' ->
  localize_css e base outputDir css s = (Returned ps, st) ->
  localize_css e' base outputDir css s' = (Returned ps', st') ->
  clock st = clock st'.
Proof.
  intros Hc. unfold localize_css. destruct (JS.truthy css).
  - destruct (css_loop_related (css_urls css) css s s' Hc) as [E1 E2].
    destruct (css_loop e _ _ _ _ _) as [u1 s1], (css_loop e' _ _ _ _ _) as [u2 s2].
    cbn in E1, E2. subst u2. destruct (String.eqb u1 css).
    + by intros [= _ <-] [= _ <-].
    + destruct (writeFile e _ _ _) eqn:W1; [|done].
      destruct (writeFile e' _ _ _) eqn:W2; [|done].
      intros [= _ <-] [= _ <-].
      rewrite (writeFile_clock _ _ _ _ _ W1), (writeFile_clock _ _ _ _ _ W2).
      by rewrite !await_point_clock.
  - by intros [= _ <-] [= _ <-].
Qed.

(** Steps 5 to 7 return the same document whatever the network, the disk
    and the instance answer. *)
Lemma localize_images_independent css d st st' d1 ps1 st1 d2 ps2 st2 :
  clock st = clock st' ->
  localize_images e base outputDir css d st = (Returned (d1, ps1), st1) ->
  localize_images e' base outputDir css d st' = (Returned (d2, ps2), st2) ->
  d1 = d2.
Proof.
  intros Hc. unfold localize_images.
  destruct (each_related (image e base outputDir) (image e' base outputDir)
              same_clock d ([], st) ([], st') image_related Hc) as [E1 R1].
  destruct (each (image e _ _) d _) as [x1 s1], (each (image e' _ _) d _) as [x1' s1'].
  cbn in E1, R1. subst x1'.
  destruct (each_related (image_set e base outputDir) (image_set e' base outputDir)
              same_clock x1 s1 s1' image_set_related R1) as [E2 R2].
  destruct (each (image_set e _ _) x1 _) as [x2 s2],
    (each (image_set e' _ _) x1 _) as [x2' s2'].
  cbn in E2, R2. subst x2'.
  destruct (localize_css e base outputDir css s2) as [[q|] t] eqn:C1; [|done].
  destruct (localize_css e' base outputDir css s2') as [[q'|] t'] eqn:C2; [|done].
  pose proof (localize_css_related css s2 s2' q t q' t' R2 C1 C2) as R3.
  destruct (each_related (icon e base outputDir) (icon e' base outputDir)
              same_clock x2 (q, t) (q', t') icon_related R3) as [E4 _].
  destruct (each (icon e _ _) x2 _) as [x4 s4], (each (icon e' _ _) x2 _) as [x4' s4'].
  cbn in E4. by intros [= <- _ _] [= <- _ _].
Qed.
End Independent.

End ClonerFacts.

(** ** The asset fetcher and the naming of local files *)

Module FetchFacts.
Import Dom WebsiteCloner Sample.

Lemma getFileName_basename now now' u1 u2 p1 p2 type :
  URL.parse u1 = Some p1 -> URL.parse u2 = Some p2 ->
  Path.basename (URL.pathname p1) = Path.basename (URL.pathname p2) ->
  getFileName now u1 type = getFileName now' u2 type.
Proof. intros H1 H2 H3. unfold getFileName. by rewrite H1, H2, H3. Qed.

Lemma downloadAsset_known url localPath st :
  url ∈ downloadedAssets st -> downloadAsset url localPath st = (Resolved, st).
Proof. intros H. unfold downloadAsset. by rewrite decide_True. Qed.

Lemma downloadAsset_twice url p1 p2 st :
  url ∉ downloadedAssets st ->
  requests (downloadAsset url p2 (downloadAsset url p1 st).2).2
  = requests st ++ [url; url].
Proof.
  intros H.
  assert (E : downloadAsset url p1 st
              = (Download url p1,
                 set_inflight (inflight st ++ [(url, p1)]) (log_request url st))).
  { unfold downloadAsset. by rewrite decide_False. }
  rewrite E. cbn [snd]. unfold downloadAsset.
  cbn [set_inflight log_request downloadedAssets].
  rewrite decide_False by done. cbn. by rewrite <- app_assoc.
Qed.

Lemma finish_learns e url p body st :
  http e url = Some body -> writable e p = true ->
  url ∈ downloadedAssets (finish e (url, p) st).
Proof.
  intros H Hw. unfold finish. cbn [fst snd]. rewrite H, Hw. cbn. set_solver.
Qed.

(** A failed request settles the promise as fulfilled. *)
Lemma settle_failed e url p : http e url = None -> settle e (Download url p) = Fulfilled.
Proof. intros H. cbn. by rewrite H. Qed.

Lemma localize_known e base outputDir name a ps st ref url :
  attr_truthy name a = Some ref -> resolveUrl ref base = Some url ->
  url ∈ downloadedAssets st ->
  localize e base outputDir name a (ps, st)
  = (Some (set_attr name (getFileName (date_now e (clock st)) ref "images") a),
     (ps ++ [Resolved], tick st)).
Proof.
  intros Ha Hu Hk. unfold localize, fetch_image. rewrite Ha, Hu. cbn [fst snd].
  by rewrite downloadAsset_known.
Qed.

Lemma generateHTMLOutput_requests e d outputDir info st :
  requests (generateHTMLOutput e d outputDir info st).2 = requests st.
Proof.
  unfold generateHTMLOutput, createServerScript, writeFile.
  by repeat case_match; simplify_eq.
Qed.

(** The [clone] of the second variant scans the captured markup, whatever
    the AI collaborator answers. *)
Lemma variant2_scans_capture dl e html0 info url outputDir ai useAI st :
  requests (Variant2.clone dl e (Some (html0, info)) url outputDir ai useAI st).2
  = requests (dl e html0 url outputDir st).2.
Proof.
  unfold Variant2.clone. destruct (dl e html0 url outputDir st) as [[r|] st1];
    [|done].
  match goal with
  | |- context [generateHTMLOutput ?e ?d ?o ?i ?s] =>
      pose proof (generateHTMLOutput_requests e d o i s) as H;
      by destruct (generateHTMLOutput e d o i s) as [[?|] ?]
  end.
Qed.

Lemma script_fetches_denied base src l1 l2 :
  isTrackingScript src = true ->
  script_fetches base (l1 ++ src :: l2) = script_fetches base (l1 ++ l2).
Proof.
  intros H. unfold script_fetches.
  rewrite !List.filter_app. cbn [List.filter]. by rewrite H.
Qed.

Lemma script_bundle_signed text l1 l2 :
  isTrackingScriptContent text = true ->
  script_bundle (l1 ++ text :: l2) = script_bundle (l1 ++ l2).
Proof.
  intros H. unfold script_bundle.
  rewrite !List.filter_app. cbn [List.filter]. by rewrite H.
Qed.

Lemma signed_by_substring content pattern pre post :
  In pattern contentTrackingPatterns ->
  content = pre +:+ pattern +:+ post ->
  isTrackingScriptContent content = true.
Proof.
  intros Hin ->. unfold isTrackingScriptContent.
  apply existsb_exists. exists pattern. split; [done|].
  apply JSFacts.includes_spec. eauto.
Qed.

Lemma signed_is_tracking tag a text :
  signed_script tag a text = true -> tracking_script tag a text = true.
Proof.
  unfold signed_script, tracking_script.
  intros [-> H]%andb_true_iff. rewrite H. cbn [andb].
  destruct text; [discriminate H|]. cbn. apply orb_true_r.
Qed.

Lemma denied_is_tracking tag a text :
  denied_script tag a text = true -> tracking_script tag a text = true.
Proof.
  unfold denied_script, tracking_script.
  by intros [-> ->]%andb_true_iff.
Qed.

End FetchFacts.

(** ** Failures of a download stay inside [downloadAssets] *)

Module ReturnFacts.
Import Dom WebsiteCloner Sample.

Lemma write_bundle_returns e path bundle parent tag d st :
  writable e path = true ->
  exists r, write_bundle e path bundle parent tag d st = Some r.
Proof.
  intros Hw. unfold write_bundle, writeFile. rewrite Hw. case_match; eauto.
Qed.

Lemma consolidate_returns e base outputDir d st :
  (forall p, writable e p = true) ->
  exists r st', consolidate e base outputDir d st = (Returned r, st').
Proof.
  intros Hw. unfold consolidate.
  destruct (each inline_style d "") as [d1 css0].
  destruct (each (linked_style e base) d1 (css0, st)) as [d2 [combinedCSS st2]].
  destruct (write_bundle_returns e (Path.join outputDir "style.css") combinedCSS
              "head" bundle_link d2 st2 (Hw _)) as [[d3 st3] ->].
  destruct (each inline_script d3 "") as [d4 js0].
  destruct (each (linked_script e base) d4 (js0, st3)) as [d5 [combinedJS st5]].
  destruct (write_bundle_returns e (Path.join outputDir "script.js") combinedJS
              "body" bundle_script d5 st5 (Hw _)) as [[d6 st6] ->].
  eauto.
Qed.

Lemma localize_css_returns e base outputDir css s :
  (forall p, writable e p = true) ->
  exists ps st', localize_css e base outputDir css s = (Returned ps, st').
Proof.
  intros Hw. unfold localize_css, writeFile. rewrite Hw.
  repeat case_match; eauto.
Qed.

(** Whatever the network answers, [downloadAssets] returns when the disk
    takes the writes. *)
Lemma downloadAssets_returns e d base outputDir st :
  (forall p, writable e p = true) ->
  exists r st', downloadAssets e d base outputDir st = (Returned r, st').
Proof.
  intros Hw. unfold downloadAssets, localize_images.
  destruct (consolidate_returns e base outputDir d st Hw) as ([[d1 css] js] & st1 & ->).
  destruct (each (image e base outputDir) d1 ([], st1)) as [x1 s1].
  destruct (each (image_set e base outputDir) x1 s1) as [x2 s2].
  destruct (localize_css_returns e base outputDir css s2 Hw) as (ps & st3 & ->).
  destruct (each (icon e base outputDir) x2 (ps, st3)) as [x4 s4].
  eauto.
Qed.

(** With a disk that takes every write, every promise is fulfilled: the
    count is the number of downloads started or skipped. *)
Lemma all_fulfilled e ps :
  (forall p, writable e p = true) -> List.filter (fulfilled e) ps = ps.
Proof.
  intros Hw. induction ps as [|p ps IH]; [done|]. cbn [List.filter].
  rewrite IH. unfold fulfilled, settle.
  destruct p as [|u l]; [done|]. rewrite Hw. by destruct (http e u).
Qed.

End ReturnFacts.

(** * Further properties of the class *)

(** ** Steps 1 to 4 of [downloadAssets], as a whole *)

Module ConsolidateFacts.
Import Dom DomFacts WebsiteCloner Sample Shape.

(** A loop that only removes the elements [sel] matches returns the
    document without them. *)
Lemma each_as_remove {S} (f : view (S -> option attrs * S)) (sel : view bool) d st :
  (forall tag a x s, (f tag a x s).1 = if sel tag a x then None else Some a) ->
  (each f d st).1 = remove sel d.
Proof.
  intros Hf. revert st. forest d; intros st; autorewrite with dom; [done| |].
  - specialize (IHr st). destruct (each f r st). cbn [fst] in *. by rewrite IHr.
  - specialize (Hf tag a (text_of kids) st).
    destruct (f tag a (text_of kids) st) as [res st1]. cbn [fst] in Hf.
    specialize (IHkids st1). destruct (each f kids st1) as [kids' st2].
    specialize (IHr st2). destruct (each f r st2) as [r' st3]. cbn [fst] in *.
    subst. by destruct (sel tag a (text_of kids)).
Qed.

Lemma inline_style_removes tag a x css :
  (inline_style tag a x css).1 = if style_element tag a x then None else Some a.
Proof. unfold inline_style, style_element. by case_match. Qed.

Lemma linked_style_removes e base tag a x s :
  (linked_style e base tag a x s).1
  = if fetched_sheet e base tag a x then None else Some a.
Proof.
  unfold linked_style, fetched_sheet, sheet_href, responds, fetch_into_bundle,
    axios_get.
  destruct (is_tag "link" tag && attr_is "rel" "stylesheet" a); [|done].
  destruct (attr_truthy "href" a) as [href|]; [|done].
  destruct (resolveUrl href base) as [u|]; [|done].
  by destruct (http e u).
Qed.

Lemma inline_script_removes tag a x js :
  (inline_script tag a x js).1 = if merged_script tag a x then None else Some a.
Proof.
  unfold inline_script, merged_script, inline_script_text.
  destruct (is_tag "script" tag); [|done].
  destruct (attr_truthy "src" a); [done|].
  by destruct (isTrackingScriptContent x).
Qed.

Lemma linked_script_removes e base tag a x s :
  (linked_script e base tag a x s).1
  = if removed_script e base tag a x then None else Some a.
Proof.
  unfold linked_script, removed_script, responds, fetch_into_bundle, axios_get.
  destruct (is_tag "script" tag && has_attr "src" a); [|done]. cbn [andb].
  destruct (attr_truthy "src" a) as [src|]; [|done].
  destruct (isTrackingScript src); [done|]. cbn [orb].
  destruct (resolveUrl src base) as [u|]; [|done].
  by destruct (http e u).
Qed.

Lemma append_empty (x : string) : x +:+ "" = x.
Proof. induction x as [|c x IH]; [done|]. by rewrite JSFacts.app_cons, IH. Qed.

Lemma gather_bundle_text (l : list string) :
  gather String.append "" (fun part => part +:+ JS.newline) l = bundle_text l.
Proof.
  unfold gather, bundle_text. induction l as [|x l IH]; [done|].
  cbn [foldr List.map JS.concat_all]. by rewrite IH.
Qed.

Lemma gather_responses e base (l : list string) :
  gather String.append ""
    (fun ref => match response e base ref with
                | Some data => data +:+ JS.newline
                | None => ""
                end) l
  = bundle_text (responses e base l).
Proof.
  unfold gather, bundle_text, responses. induction l as [|x l IH]; [done|].
  cbn [foldr omap list_omap]. rewrite IH.
  by destruct (response e base x).
Qed.

Lemma gather_resolved base (l : list string) :
  gather app [] (fun ref => option_list (resolveUrl ref base)) l = resolved base l.
Proof.
  unfold gather, resolved. induction l as [|x l IH]; [done|].
  cbn [foldr omap list_omap]. rewrite IH. by destruct (resolveUrl x base).
Qed.

(** Step 1 adds the text of every style element, in document order. *)
Lemma inline_style_text d css :
  (each inline_style d css).2 = css +:+ bundle_text (select style_text d).
Proof.
  rewrite <- gather_bundle_text.
  apply (ClonerFacts.each_accumulates inline_style (fun css => css) String.append
           "" style_text); intros.
  - apply JSFacts.append_assoc.
  - done.
  - apply append_empty.
  - unfold inline_style, style_text. case_match; [done|].
    cbn [snd]. by rewrite append_empty.
Qed.

(** Step 2 adds the responses of the linked sheets, in document order. *)
Lemma linked_style_text e base d s :
  (each (linked_style e base) d s).2.1
  = s.1 +:+ bundle_text (responses e base (select sheet_href d)).
Proof.
  rewrite <- gather_responses.
  apply (ClonerFacts.each_accumulates (linked_style e base) (fun s => s.1)
           String.append "" sheet_href); intros.
  - apply JSFacts.append_assoc.
  - done.
  - apply append_empty.
  - unfold linked_style, sheet_href, response, fetch_into_bundle, axios_get.
    destruct (is_tag "link" tag && attr_is "rel" "stylesheet" a);
      [|by rewrite append_empty].
    destruct (attr_truthy "href" a) as [href|]; [|by rewrite append_empty].
    destruct (resolveUrl href base) as [u|]; [|by rewrite append_empty].
    destruct (http e u); cbn [fst snd]; by rewrite ?append_empty.
Qed.

(** Step 2 requests every linked sheet whose reference resolves. *)
Lemma linked_style_requests e base d s :
  requests (each (linked_style e base) d s).2.2
  = requests s.2 ++ resolved base (select sheet_href d).
Proof.
  rewrite <- gather_resolved.
  apply (ClonerFacts.each_accumulates (linked_style e base)
           (fun s => requests s.2) app [] sheet_href); intros.
  - by rewrite <- app_assoc.
  - done.
  - by rewrite app_nil_r.
  - unfold linked_style, sheet_href, fetch_into_bundle, axios_get.
    destruct (is_tag "link" tag && attr_is "rel" "stylesheet" a);
      [|by rewrite app_nil_r].
    destruct (attr_truthy "href" a) as [href|]; [|by rewrite app_nil_r].
    destruct (resolveUrl href base) as [u|]; [|by rewrite app_nil_r].
    by destruct (http e u).
Qed.

(** Step 4 adds the responses of the scripts that the deny-list does not
    match, in document order. *)
Lemma linked_script_text e base d s :
  (each (linked_script e base) d s).2.1
  = s.1 +:+ bundle_text
              (responses e base (List.filter not_denied (select script_src d))).
Proof.
  assert (G : forall l,
             gather String.append ""
               (fun src => if isTrackingScript src then ""
                           else match response e base src with
                                | Some data => data +:+ JS.newline
                                | None => ""
                                end) l
             = bundle_text (responses e base (List.filter not_denied l))).
  { unfold gather, bundle_text, responses, not_denied.
    induction l as [|x l IH]; [done|]. cbn [foldr List.filter]. rewrite IH.
    destruct (isTrackingScript x); cbn [negb]; [done|].
    cbn [omap list_omap]. by destruct (response e base x). }
  rewrite <- G.
  apply (ClonerFacts.each_accumulates (linked_script e base) (fun s => s.1)
           String.append "" script_src); intros.
  - apply JSFacts.append_assoc.
  - done.
  - apply append_empty.
  - unfold linked_script, script_src, response, fetch_into_bundle, axios_get,
      has_attr, attr_truthy.
    destruct (is_tag "script" tag); cbn [andb]; [|by rewrite append_empty].
    destruct (attr "src" a) as [src|]; [|by rewrite append_empty].
    destruct (JS.truthy src); [|by rewrite append_empty].
    destruct (isTrackingScript src); [by rewrite append_empty|].
    destruct (resolveUrl src base) as [u|]; [|by rewrite append_empty].
    destruct (http e u); cbn [fst snd]; by rewrite ?append_empty.
Qed.

Lemma write_bundle_document e path bundle parent tag d st d' st' :
  write_bundle e path bundle parent tag d st = Some (d', st') ->
  d' = with_bundle bundle parent tag d.
Proof.
  unfold write_bundle, with_bundle. case_match; [|by intros [= <- _]].
  destruct (writeFile e path (Bytes bundle) st); [|done]. by intros [= <- _].
Qed.

Lemma write_bundle_requests e path bundle parent tag d st d' st' :
  write_bundle e path bundle parent tag d st = Some (d', st') ->
  requests st' = requests st.
Proof.
  unfold write_bundle, writeFile.
  destruct (JS.truthy (JS.trim bundle)); [|by intros [= _ <-]].
  destruct (writable e path); [|done]. by intros [= _ <-].
Qed.

Lemma logged_nil st : logged [] st = st.
Proof. destruct st. unfold logged. cbn. by rewrite app_nil_r. Qed.

Lemma logged_app us vs st : logged vs (logged us st) = logged (us ++ vs) st.
Proof. unfold logged. cbn. by rewrite <- app_assoc. Qed.

Lemma gather_list_app {A B} (h : A -> list B) l1 l2 :
  gather app [] h (l1 ++ l2) = gather app [] h l1 ++ gather app [] h l2.
Proof.
  unfold gather. induction l1 as [|x l1 IH]; [done|].
  cbn [app foldr]. by rewrite IH, app_assoc.
Qed.

(** The loop over the linked sheets changes the state by its requests
    only. *)
Lemma linked_style_state e base d u :
  (each (linked_style e base) d u).2.2
  = logged (resolved base (select sheet_href d)) u.2.
Proof.
  rewrite <- gather_resolved.
  revert u. forest d; intros u; autorewrite with dom.
  - by rewrite logged_nil.
  - specialize (IHr u). by destruct (each (linked_style e base) r u).
  - assert (Hf : (linked_style e base tag a (text_of kids) u).2.2
                 = logged (match sheet_href tag a (text_of kids) with
                           | Some ref => option_list (resolveUrl ref base)
                           | None => []
                           end) u.2).
    { unfold linked_style, sheet_href, fetch_into_bundle, axios_get.
      destruct (is_tag "link" tag && attr_is "rel" "stylesheet" a);
        [|by rewrite logged_nil].
      destruct (attr_truthy "href" a) as [href|]; [|by rewrite logged_nil].
      destruct (resolveUrl href base) as [abs|]; [|by rewrite logged_nil].
      by destruct (http e abs). }
    destruct (linked_style e base tag a (text_of kids) u) as [res s1].
    specialize (IHkids s1).
    destruct (each (linked_style e base) kids s1) as [kids' s2].
    specialize (IHr s2).
    destruct (each (linked_style e base) r s2) as [r' s3]. cbn [snd] in *.
    rewrite IHr, IHkids, Hf, !logged_app, !gather_list_app. f_equal.
    f_equal.
    destruct (sheet_href tag a (text_of kids)) as [ref|]; [|done].
    unfold gather. cbn [option_list foldr]. by rewrite app_nil_r.
Qed.

(** The steps of [consolidate], named. *)
Lemma consolidate_cases e base outputDir d st d' css js st' :
  consolidate e base outputDir d st = (Returned (d', css, js), st') ->
  exists st3,
    write_bundle e (Path.join outputDir "style.css") (style_bundle e base d)
      "head" bundle_link
      (remove (fetched_sheet e base) (remove style_element d))
      (each (linked_style e base) (remove style_element d)
         (bundle_text (select style_text d), st)).2.2
    = Some (styled e base d, st3)
    /\ write_bundle e (Path.join outputDir "script.js") (behaviour_bundle e base d)
         "body" bundle_script
         (remove (removed_script e base) (remove merged_script (styled e base d)))
         (each (linked_script e base) (remove merged_script (styled e base d))
            (script_bundle (select inline_script_text (styled e base d)), st3)).2.2
       = Some (d', st')
    /\ css = style_bundle e base d
    /\ js = behaviour_bundle e base d
    /\ d' = with_bundle js "body" bundle_script
              (remove (removed_script e base)
                 (remove merged_script (styled e base d))).
Proof.
  unfold consolidate.
  pose proof (each_as_remove inline_style style_element d "" inline_style_removes) as D1.
  pose proof (inline_style_text d "") as T1. rewrite JSFacts.app_empty in T1.
  destruct (each inline_style d "") as [d1 css0]. cbn [fst snd] in D1, T1. subst d1 css0.
  set (d1 := remove style_element d).
  set (css0 := bundle_text (select style_text d)).
  pose proof (each_as_remove (linked_style e base) (fetched_sheet e base) d1
                (css0, st) (linked_style_removes e base)) as D2.
  pose proof (linked_style_text e base d1 (css0, st)) as T2.
  destruct (each (linked_style e base) d1 (css0, st)) as [d2 [combinedCSS st2]].
  cbn [fst snd] in D2, T2. subst d2.
  assert (Ec : combinedCSS = style_bundle e base d) by exact T2.
  clear T2. subst combinedCSS.
  destruct (write_bundle _ _ (style_bundle e base d) _ _ _ st2)
    as [[d3 st3]|] eqn:W1; [|done].
  pose proof (write_bundle_document _ _ _ _ _ _ _ _ _ W1) as D3.
  change (d3 = styled e base d) in D3. subst d3.
  pose proof (each_as_remove inline_script merged_script (styled e base d) ""
                inline_script_removes) as D4.
  pose proof (ClonerFacts.inline_script_bundle (styled e base d) "") as T4.
  rewrite JSFacts.app_empty in T4.
  destruct (each inline_script (styled e base d) "") as [d4 js0].
  cbn [fst snd] in D4, T4. subst d4 js0.
  set (d4 := remove merged_script (styled e base d)).
  set (js0 := script_bundle (select inline_script_text (styled e base d))).
  pose proof (each_as_remove (linked_script e base) (removed_script e base) d4
                (js0, st3) (linked_script_removes e base)) as D5.
  pose proof (linked_script_text e base d4 (js0, st3)) as T5.
  destruct (each (linked_script e base) d4 (js0, st3))
    as [d5 [combinedJS st5]] eqn:E5.
  cbn [fst snd] in D5, T5. subst d5.
  assert (Ej : combinedJS = behaviour_bundle e base d) by exact T5.
  clear T5. subst combinedJS.
  destruct (write_bundle _ _ (behaviour_bundle e base d) _ _ _ st5)
    as [[d6 st6]|] eqn:W2; [|done].
  pose proof (write_bundle_document _ _ _ _ _ _ _ _ _ W2) as D6.
  intros [= <- <- <- <-]. exists st3. rewrite E5. done.
Qed.

End ConsolidateFacts.

Section Consolidation.
Import Dom DomFacts WebsiteCloner Sample Shape.

(** X1.  The loop over the style elements (step 1) removes every style
    element from the document and adds their texts to the style bundle, each
    followed by a newline, in document order. *)
Theorem inline_styles_moved_to_bundle d css :
  (each inline_style d css).1 = remove style_element d
  /\ (each inline_style d css).2 = css +:+ bundle_text (select style_text d)
  /\ matches style_element (each inline_style d css).1 = false.
Proof.
  assert (E : (each inline_style d css).1 = remove style_element d).
  { apply ConsolidateFacts.each_as_remove. apply ConsolidateFacts.inline_style_removes. }
  split; [exact E|]. split; [apply ConsolidateFacts.inline_style_text|].
  rewrite E. apply matches_remove_self.
Qed.

(** X2.  The loop over the linked style sheets (step 2): one request goes
    out for every sheet whose [href] resolves, with no deduplication; the
    responses join the style bundle in document order; and the document
    loses exactly the sheets whose request succeeded, every other node being
    left as it was (a sheet that failed keeps its remote [href]). *)
Theorem linked_sheets_fetched_and_merged e base d s :
  (each (linked_style e base) d s).1 = remove (fetched_sheet e base) d
  /\ (each (linked_style e base) d s).2.1
     = s.1 +:+ bundle_text (responses e base (select sheet_href d))
  /\ requests (each (linked_style e base) d s).2.2
     = requests s.2 ++ resolved base (select sheet_href d).
Proof.
  split; [|split].
  - apply ConsolidateFacts.each_as_remove. intros.
    apply ConsolidateFacts.linked_style_removes.
  - apply ConsolidateFacts.linked_style_text.
  - apply ConsolidateFacts.linked_style_requests.
Qed.

(** X3.  The two loops over the scripts (steps 3 and 4).  The first removes
    exactly the inline scripts whose text carries no tracking signature.  The
    second removes every [script] with a [src] attribute that is empty, that
    the deny-list matches, or whose request succeeded, and leaves a script
    whose request failed or whose [src] does not resolve in place; the
    responses of the sources the deny-list does not match join the bundle in
    document order, each followed by a newline. *)
Theorem scripts_fetched_and_merged e base d js s :
  (each inline_script d js).1 = remove merged_script d
  /\ (each (linked_script e base) d s).1 = remove (removed_script e base) d
  /\ (each (linked_script e base) d s).2.1
     = s.1 +:+ bundle_text
                 (responses e base (List.filter not_denied (select script_src d))).
Proof.
  split; [|split].
  - apply ConsolidateFacts.each_as_remove.
    apply ConsolidateFacts.inline_script_removes.
  - apply ConsolidateFacts.each_as_remove. intros.
    apply ConsolidateFacts.linked_script_removes.
  - apply ConsolidateFacts.linked_script_text.
Qed.

(** X4.  What steps 1 to 4 return when no write fails.  The style bundle is
    the texts of all style elements followed by the responses of all linked
    sheets, whatever their order in the page; the behaviour bundle is the
    unsigned inline scripts followed by the responses of the linked scripts;
    the document has lost the merged nodes and gained one tag per bundle that
    is not blank; and the requests are those of the sheets, then those of the
    scripts. *)
Theorem consolidate_result e base outputDir d st d' css js st' :
  consolidate e base outputDir d st = (Returned (d', css, js), st') ->
  css = style_bundle e base d
  /\ js = behaviour_bundle e base d
  /\ d' = with_bundle js "body" bundle_script
            (remove (removed_script e base)
               (remove merged_script (styled e base d)))
  /\ requests st'
     = requests st
       ++ resolved base (select sheet_href (remove style_element d))
       ++ script_fetches base
            (select script_src (remove merged_script (styled e base d))).
Proof.
  intros H. apply ConsolidateFacts.consolidate_cases in H.
  destruct H as (st3 & H3 & H6 & -> & -> & ->).
  split; [done|]. split; [done|]. split; [done|].
  apply ConsolidateFacts.write_bundle_requests in H3, H6.
  rewrite H6, ClonerFacts.linked_script_requests. cbn [snd].
  rewrite H3, ConsolidateFacts.linked_style_requests. cbn [snd].
  by rewrite <- app_assoc.
Qed.

Lemma consolidate_result_witness :
  exists d' css js st',
    consolidate (online "x") "https://example.com/" "out" mixed fresh
    = (Returned (d', css, js), st')
    /\ css = style_bundle (online "x") "https://example.com/" mixed.
Proof.
  do 4 eexists. split; [vm_compute; reflexivity|].
  refine (proj1 (consolidate_result (online "x") "https://example.com/" "out"
                   mixed fresh _ _ _ _ _)).
  vm_compute. reflexivity.
Defined.



(** X6.  When the style bundle is not blank and [style.css] cannot be
    written, [downloadAssets] throws at that write: the linked sheets have
    been requested, no script and no image has, and nothing is on disk. *)
Theorem style_write_failure_aborts e d base outputDir st :
  writable e (Path.join outputDir "style.css") = false ->
  JS.truthy (JS.trim (style_bundle e base d)) = true ->
  downloadAssets e d base outputDir st
  = (Threw,
     logged (resolved base (select sheet_href (remove style_element d))) st).
Proof.
  intros Hw Hb. unfold downloadAssets, consolidate.
  pose proof (ConsolidateFacts.each_as_remove inline_style style_element d ""
                ConsolidateFacts.inline_style_removes) as D1.
  pose proof (ConsolidateFacts.inline_style_text d "") as T1.
  rewrite JSFacts.app_empty in T1.
  destruct (each inline_style d "") as [d1 css0]. cbn [fst snd] in D1, T1.
  subst d1 css0.
  pose proof (ConsolidateFacts.linked_style_text e base (remove style_element d)
                (bundle_text (select style_text d), st)) as T2.
  pose proof (ConsolidateFacts.linked_style_state e base (remove style_element d)
                (bundle_text (select style_text d), st)) as S2.
  destruct (each (linked_style e base) (remove style_element d)
              (bundle_text (select style_text d), st))
    as [d2 [combinedCSS st2]].
  cbn [fst snd] in T2, S2. change (combinedCSS = style_bundle e base d) in T2.
  subst combinedCSS st2.
  unfold write_bundle, writeFile. by rewrite Hb, Hw.
Qed.

Lemma style_write_failure_aborts_witness :
  downloadAssets (read_only "x") mixed "https://example.com/" "out" fresh
  = (Threw,
     logged (resolved "https://example.com/"
               (select sheet_href (remove style_element mixed))) fresh).
Proof.
  apply (style_write_failure_aborts (read_only "x") mixed "https://example.com/"
           "out" fresh); vm_compute; reflexivity.
Defined.

End Consolidation.

(** ** The final document *)

Module OutputFacts.
Import Dom DomFacts WebsiteCloner Sample Shape.

(** Inserting nodes that hold no [tag] element adds no [tag] element. *)
Lemma has_insert tag front target new d :
  has tag new = false -> has tag (insert front target new d) = has tag d.
Proof.
  intros Hnew. unfold has in *.
  forest d; autorewrite with dom; [done|done|].
  rewrite IHr. f_equal. f_equal.
  destruct (String.eqb tag0 target); [|exact IHkids].
  destruct front; by rewrite matches_app, IHkids, Hnew, ?orb_false_r.
Qed.

Lemma insert_adds (sel : view bool) front tag new d :
  (forall a x, sel tag a x = false) ->
  matches sel new = true -> has tag d = true ->
  matches sel (insert front tag new d) = true.
Proof.
  intros Hsel Hnew Hd. rewrite matches_insert, Hd, Hnew by done.
  apply orb_true_r.
Qed.








(** A loop that throws at an element it selects throws. *)
Lemma update_fails (sel : view bool) f d :
  (forall tag a x, sel tag a x = true -> f tag a x = None) ->
  matches sel d = true -> update f d = None.
Proof.
  intros Hf. forest d; autorewrite with dom; [done| |].
  - intros H. by rewrite (IHr H).
  - intros [[H|H]%orb_true_iff|H]%orb_true_iff.
    + by rewrite (Hf _ _ _ H).
    + rewrite (IHkids H). by destruct (f tag a (text_of kids)).
    + rewrite (IHr H). destruct (f tag a (text_of kids)); [|done].
      by destruct (update f kids).
Qed.

Lemma site_link_throws info tag a x :
  URL.parse (baseUrl info) = None ->
  site_link tag a x = true -> absolute_link info tag a x = None.
Proof.
  intros Hb. unfold site_link, absolute_link, URL.parse_with_base.
  destruct (is_tag "a" tag); [|done]. cbn [andb].
  destruct (attr_truthy "href" a) as [href|]; [|done].
  intros ->. by rewrite Hb.
Qed.

End OutputFacts.

Section Output.
Import Dom DomFacts WebsiteCloner Sample Shape.

(** X7.  The document [generateHTMLOutput] writes has no [noscript]
    element, no [iframe] whose [src] the deny-list matches, and no link whose
    [href] is site-relative (begins with one slash): each such link has been
    made absolute. *)
Theorem final_document_clean info d d' :
  final_document info d = Some d' ->
  matches noscript d' = false
  /\ matches tracking_iframe d' = false
  /\ matches site_link d' = false.
Proof.
  intros H. destruct (RewriteFacts.rewrite_clean _ _ _ H) as (_ & H2 & H3 & H4).
  done.
Qed.

Lemma final_document_clean_witness :
  exists d',
    final_document (info "https://example.com/") mixed = Some d'
    /\ matches noscript d' = false.
Proof.
  eexists. split; [vm_compute; reflexivity|].
  refine (proj1 (final_document_clean (info "https://example.com/") mixed _ _)).
  vm_compute. reflexivity.
Defined.



(** X9.  [pageInfo.baseUrl] is parsed only for a site-relative link.  With
    a base URL that does not parse, [generateHTMLOutput] throws before it
    writes anything when the scrubbed document has such a link, and the base
    is never looked at when it has none. *)
Theorem unparsable_base_fatal_for_site_links e d outputDir info st :
  URL.parse (baseUrl info) = None ->
  (matches site_link (scrub d) = true ->
   generateHTMLOutput e d outputDir info st = (Threw, st))
  /\ (matches site_link (scrub d) = false ->
      final_document info d = Some (enhance info (scrub d))).
Proof.
  intros Hb. split; intros H.
  - unfold generateHTMLOutput, final_document.
    rewrite (OutputFacts.update_fails site_link); [done| |done].
    intros. by apply OutputFacts.site_link_throws.
  - unfold final_document. rewrite (update_id site_link); [done| |done].
    intros. by apply RewriteFacts.absolute_link_fixed.
Qed.

Lemma unparsable_base_fatal_for_site_links_witness :
  generateHTMLOutput offline mixed "out" (info "example.com") fresh
  = (Threw, fresh).
Proof.
  refine (proj1 (unparsable_base_fatal_for_site_links offline mixed "out"
                   (info "example.com") fresh _) _).
  - vm_compute. reflexivity.
  - vm_compute. reflexivity.
Defined.

End Output.

(** ** Names, filters and the fetcher *)

Module NameFacts.
Import Dom DomFacts WebsiteCloner Sample Shape.

Lemma all_chars_app p (a b : string) :
  JS.all_chars p (a +:+ b) = JS.all_chars p a && JS.all_chars p b.
Proof.
  induction a as [|c a IH]; [done|].
  rewrite JSFacts.app_cons. cbn [JS.all_chars]. by rewrite IH, andb_assoc.
Qed.

Lemma all_chars_weaken (p q : ascii -> bool) s :
  (forall c, p c = true -> q c = true) ->
  JS.all_chars p s = true -> JS.all_chars q s = true.
Proof.
  intros Hpq. induction s as [|c s IH]; [done|]. cbn [JS.all_chars].
  intros [Hc Hs]%andb_true_iff. by rewrite (Hpq _ Hc), IH.
Qed.

Lemma sanitize_name s : JS.all_chars is_name_char (sanitize s) = true.
Proof.
  unfold sanitize. induction s as [|c s IH]; [done|].
  cbn [JS.map_chars JS.all_chars]. rewrite IH, andb_true_r.
  unfold is_name_char. destruct (is_safe_char c) eqn:E; [by rewrite E|done].
Qed.

Lemma sanitize_empty s : JS.truthy (sanitize s) = JS.truthy s.
Proof. by destruct s. Qed.

Lemma until_last_dot_name p s :
  JS.all_chars p s = true -> JS.all_chars p (until_last_dot s) = true.
Proof.
  induction s as [|c s IH]; [done|]. cbn [until_last_dot JS.all_chars].
  intros [Hc Hs]%andb_true_iff. destruct (Path.has_dot s); [|done].
  cbn [JS.all_chars]. by rewrite Hc, IH.
Qed.

Lemma replace_ext_name s :
  JS.all_chars is_name_char s = true ->
  JS.all_chars is_name_char (replace_ext s) = true.
Proof.
  intros H. unfold replace_ext. destruct (Path.has_dot s); [|done].
  by rewrite all_chars_app, until_last_dot_name.
Qed.

Lemma digits_name d :
  JS.all_chars is_name_char (DecimalString.NilEmpty.string_of_uint d) = true.
Proof. induction d; cbn [DecimalString.NilEmpty.string_of_uint JS.all_chars]; by rewrite ?IHd. Qed.

Lemma show_N_name n : JS.all_chars is_name_char (show_N n) = true.
Proof.
  unfold show_N, DecimalString.NilZero.string_of_uint.
  destruct (N.to_uint n); try done; apply (digits_name (_ _)).
Qed.

Lemma default_name_name type : JS.all_chars is_name_char (default_name type) = true.
Proof. unfold default_name. by repeat case_match. Qed.

Lemma default_ext_name type : JS.all_chars is_name_char (default_ext type) = true.
Proof. unfold default_ext. by repeat case_match. Qed.

Lemma default_name_truthy type : JS.truthy (default_name type) = true.
Proof. unfold default_name. by repeat case_match. Qed.

(** *** Extensions *)

Lemma has_dot_app a b : Path.has_dot (a +:+ b) = Path.has_dot a || Path.has_dot b.
Proof.
  induction a as [|c a IH]; [done|]. rewrite JSFacts.app_cons.
  cbn [Path.has_dot]. by rewrite IH, orb_assoc.
Qed.

Lemma from_last_dot_png x : Path.from_last_dot (x +:+ ".png") = ".png".
Proof.
  induction x as [|c x IH]; [done|]. rewrite JSFacts.app_cons.
  cbn [Path.from_last_dot]. rewrite has_dot_app. cbn [Path.has_dot].
  change (JS.is_char Path.dot ".") with true. by rewrite orb_true_r.
Qed.

Lemma extname_png x : JS.truthy x = true -> Path.extname (x +:+ ".png") = ".png".
Proof.
  destruct x as [|c x]; [done|]. intros _. rewrite JSFacts.app_cons.
  unfold Path.extname. rewrite has_dot_app. cbn [Path.has_dot].
  change (JS.is_char Path.dot ".") with true. rewrite orb_true_r. cbn [negb].
  rewrite from_last_dot_png.
  destruct (String.eqb (String c (x +:+ ".png")) "..") eqn:E; [|done].
  apply String.eqb_eq in E. injection E as _ E.
  destruct x as [|c1 x]; [discriminate E|].
  rewrite JSFacts.app_cons in E. injection E as _ E.
  destruct x; rewrite ?JSFacts.app_empty, ?JSFacts.app_cons in E; discriminate E.
Qed.

Lemma valid_png x : JS.truthy x = true -> valid_image_name (x +:+ ".png") = true.
Proof. intros H. unfold valid_image_name. by rewrite extname_png. Qed.

Lemma default_ext_images : default_ext "images" = ".png".
Proof. reflexivity. Qed.

Lemma truthy_app a b : JS.truthy a = true -> JS.truthy (a +:+ b) = true.
Proof. by destruct a. Qed.

Lemma extname_has_dot s : JS.truthy (Path.extname s) = true -> Path.has_dot s = true.
Proof.
  unfold Path.extname. destruct s as [|c s]; [done|].
  cbn [Path.has_dot]. destruct (Path.has_dot s); [by rewrite orb_true_r|done].
Qed.

Lemma extname_prefix s :
  JS.truthy (Path.extname s) = true -> JS.truthy (until_last_dot s) = true.
Proof.
  unfold Path.extname. destruct s as [|c s]; [done|].
  cbn [until_last_dot]. by destruct (Path.has_dot s).
Qed.

(** *** URLs without scheme *)

Lemma slash_not_scheme ref : JS.startsWith "/" ref = true -> URL.parse ref = None.
Proof.
  destruct ref as [|c ref]; [done|]. cbn [JS.startsWith].
  destruct (Ascii.eqb "/" c) eqn:E; [|done]. apply Ascii.eqb_eq in E as <-.
  intros _. unfold URL.parse.
  destruct (URLFacts.preprocess_head "/" ref eq_refl) as [x ->]. done.
Qed.

(** *** What [getFileName] answers *)

Lemma getFileName_name now url type :
  JS.all_chars is_name_char (getFileName now url type) = true.
Proof.
  unfold getFileName. destruct (URL.parse url) as [urlObj|].
  - cbv zeta.
    set (base := if negb _ || _ then default_name type else _).
    assert (Hs : JS.all_chars is_name_char (sanitize base) = true)
      by apply sanitize_name.
    set (named := if negb (JS.truthy (Path.extname (sanitize base)))
                  then _ else _).
    assert (Hn : JS.all_chars is_name_char named = true).
    { subst named. case_match; [|done].
      by rewrite all_chars_app, Hs, default_ext_name. }
    repeat case_match; try done. by apply replace_ext_name.
  - repeat case_match; try done.
    by rewrite !all_chars_app, show_N_name.
Qed.

Lemma getFileName_image now url :
  valid_image_name (getFileName now url "images") = true.
Proof.
  unfold getFileName. destruct (URL.parse url) as [urlObj|].
  - cbv zeta.
    set (base := if negb _ || _ then default_name "images" else _).
    assert (Hb : JS.truthy (sanitize base) = true).
    { rewrite sanitize_empty. subst base.
      destruct (JS.truthy (Path.basename (URL.pathname urlObj))) eqn:E;
        cbn [negb orb]; [|apply default_name_truthy].
      case_match; [apply default_name_truthy|exact E]. }
    change (String.eqb "images" "images") with true. cbv iota.
    destruct (JS.truthy (Path.extname (sanitize base))) eqn:Ee; cbn [negb].
    + fold (valid_image_name (sanitize base)).
      destruct (valid_image_name (sanitize base)) eqn:Ev; [exact Ev|].
      unfold replace_ext. rewrite (extname_has_dot _ Ee).
      apply valid_png. by apply extname_prefix.
    + rewrite default_ext_images.
      fold (valid_image_name (sanitize base +:+ ".png")).
      rewrite (valid_png _ Hb). by apply valid_png.
  - change (String.eqb "images" "css") with false.
    change (String.eqb "images" "js") with false. cbv iota.
    rewrite <- JSFacts.append_assoc. apply valid_png. done.
Qed.

End NameFacts.

Section Names.
Import Dom DomFacts WebsiteCloner Sample Shape.

(** X10.  Whatever the URL and the type, the local file name is made of
    letters, digits, dots, hyphens and underscores only: it holds no path
    separator, so the file is created in the output directory itself. *)
Theorem file_name_has_safe_characters now url type :
  JS.all_chars is_name_char (getFileName now url type) = true.
Proof. apply NameFacts.getFileName_name. Qed.

(** X11.  For the type [images] the name always ends in one of the seven
    image extensions, compared without regard to case: a name with another
    extension has it replaced by [.png], a name without extension gets
    [.png] appended, and the fallback name ends in [.png]. *)
Theorem image_name_has_image_extension now url :
  valid_image_name (getFileName now url "images") = true.
Proof. apply NameFacts.getFileName_image. Qed.

(** X12.  The deny-list of [isTrackingScript] is a plain, case-sensitive
    substring test on the raw [src]: a source is denied exactly when one of
    the nine patterns occurs somewhere in it. *)
Theorem denied_iff_pattern_occurs src :
  isTrackingScript src = true
  <-> exists pattern pre post,
        In pattern srcTrackingPatterns /\ src = pre +:+ pattern +:+ post.
Proof.
  unfold isTrackingScript. rewrite existsb_exists. split.
  - intros (pattern & Hin & (pre & post & ->)%JSFacts.includes_spec). eauto.
  - intros (pattern & pre & post & Hin & ->). exists pattern. split; [done|].
    apply JSFacts.includes_spec. eauto.
Qed.

(** X13.  When a download ends, its URL is added to [downloadedAssets]
    exactly when the response arrived and the file could be written; a
    failed request or a failed write leaves the set as it was, so the URL is
    not remembered. *)
Theorem url_remembered_iff_written e url localPath st u :
  u ∈ downloadedAssets (finish e (url, localPath) st)
  <-> u ∈ downloadedAssets st
      \/ (u = url /\ is_Some (http e url) /\ writable e localPath = true).
Proof.
  unfold finish. cbn [fst snd]. destruct (http e url) as [body|] eqn:Eh.
  - destruct (writable e localPath) eqn:Ew; cbn.
    + rewrite elem_of_union, elem_of_singleton. split.
      * intros [-> | H]; [right|by left]. by split; [|split; [eexists|]].
      * intros [H | (-> & _)]; [by right|by left].
    + split; [by left|]. by intros [H | (_ & _ & H)].
  - split; [by left|]. intros [H | (_ & [? H] & _)]; done.
Qed.

End Names.

(** ** Steps 5 to 7 *)

Module ImageFacts.
Import Dom DomFacts WebsiteCloner Sample Shape.






(** *** The captures of the style bundle *)

Lemma css_urls_from_none fuel css :
  JS.includes "url(" css = false -> css_urls_from fuel css = [].
Proof.
  revert css. induction fuel as [|fuel IH]; intros css; [done|].
  destruct css as [|c css]; [done|].
  rewrite JSFacts.includes_unfold. intros [H1 H2]%orb_false_iff.
  cbn [css_urls_from]. rewrite H1. by apply IH.
Qed.

Lemma css_loop_inert e base outputDir urls css s :
  Forall (fun imgUrl => JS.startsWith "data:" imgUrl = true) urls ->
  css_loop e base outputDir urls css s = (css, s).
Proof.
  intros H. induction H as [|imgUrl urls Hu _ IH]; [done|].
  cbn [css_loop]. by rewrite Hu.
Qed.

End ImageFacts.

Section Images.
Import Dom DomFacts WebsiteCloner Sample Shape.



(** X15.  Step 6 leaves alone a style bundle in which every [url(...)]
    capture begins with [data:], and so a bundle with no [url(] at all: no
    download is started and [style.css] is not written again. *)
Theorem inert_style_bundle_untouched e base outputDir css s :
  Forall (fun imgUrl => JS.startsWith "data:" imgUrl = true) (css_urls css) ->
  localize_css e base outputDir css s = (Returned s.1, s.2)
  /\ (JS.includes "url(" css = false -> css_urls css = []).
Proof.
  intros H. split.
  - unfold localize_css. destruct (JS.truthy css); [|done].
    rewrite (ImageFacts.css_loop_inert _ _ _ _ _ _ H).
    by rewrite String.eqb_refl.
  - apply ImageFacts.css_urls_from_none.
Qed.

Lemma inert_style_bundle_untouched_witness :
  localize_css offline "https://example.com/" "out"
    "p{background:url(data:image/png;base64,AAAA)}" ([], fresh)
  = (Returned [], fresh).
Proof.
  refine (proj1 (inert_style_bundle_untouched offline "https://example.com/" "out"
                   "p{background:url(data:image/png;base64,AAAA)}" ([], fresh) _)).
  vm_compute. repeat constructor.
Defined.

End Images.

(** ** The second variant: [injectAssetsIntoHTML] *)

Module InjectFacts.
Import Dom DomFacts WebsiteCloner Sample Shape.

Lemma select_app {A} (sel : view (option A)) d1 d2 :
  select sel (d1 ++ d2) = select sel d1 ++ select sel d2.
Proof.
  induction d1 as [|n d1 IH]; [done|]. cbn [app select].
  by rewrite <- app_assoc, IH.
Qed.

(** Inserting elements that a view does not select, and that carry no text,
    does not change what the view selects. *)
Lemma select_insert {A} (sel : view (option A)) front tag new d :
  text_of new = "" -> select sel new = [] ->
  select sel (insert front tag new d) = select sel d.
Proof.
  intros Ht Hs. forest d; autorewrite with dom; [done|done|].
  rewrite IHr. destruct (String.eqb tag0 tag).
  - destruct front.
    + by rewrite text_of_app, Ht, JSFacts.app_empty, text_of_insert,
        select_app, Hs, IHkids.
    + by rewrite text_of_app, Ht, ConsolidateFacts.append_empty, text_of_insert,
        select_app, Hs, IHkids, app_nil_r.
  - by rewrite text_of_insert, IHkids.
Qed.

Section Fold.
Context (target : string) (mk : string -> node).

Lemma appended_has tag l d :
  (forall path, has tag [mk path] = false) ->
  has tag (appended target mk l d) = has tag d.
Proof.
  intros Hmk. revert d. induction l as [|x l IH]; intros d; [done|].
  cbn [appended fold_left]. fold (appended target mk l (append target [mk x] d)).
  rewrite IH. by apply OutputFacts.has_insert.
Qed.

Lemma appended_keeps (sel : view bool) l d :
  (forall a x, sel target a x = false) ->
  matches sel d = true -> matches sel (appended target mk l d) = true.
Proof.
  intros Hsel. revert d. induction l as [|x l IH]; intros d Hd; [done|].
  cbn [appended fold_left]. fold (appended target mk l (append target [mk x] d)).
  apply IH. unfold append. by rewrite matches_insert, Hd.
Qed.

Lemma appended_adds (sel : view bool) l d path :
  (forall a x, sel target a x = false) ->
  (forall q, has target [mk q] = false) ->
  has target d = true -> In path l -> matches sel [mk path] = true ->
  matches sel (appended target mk l d) = true.
Proof.
  intros Hsel Hmk. revert d. induction l as [|x l IH]; intros d Hd Hin Hp; [done|].
  cbn [appended fold_left]. fold (appended target mk l (append target [mk x] d)).
  destruct Hin as [-> | Hin].
  - apply appended_keeps; [done|]. by apply OutputFacts.insert_adds.
  - apply IH; [|done..]. unfold append. by rewrite OutputFacts.has_insert.
Qed.

Lemma appended_select {A} (sel : view (option A)) l d :
  (forall path, text_of [mk path] = "") ->
  (forall path, select sel [mk path] = []) ->
  select sel (appended target mk l d) = select sel d.
Proof.
  intros Ht Hs. revert d. induction l as [|x l IH]; intros d; [done|].
  cbn [appended fold_left]. fold (appended target mk l (append target [mk x] d)).
  rewrite IH. by apply select_insert.
Qed.
End Fold.

Lemma add_head_has d :
  has "head" d = true \/ has "html" d = true ->
  has "head" (Variant2.add_head d) = true.
Proof.
  unfold Variant2.add_head.
  change (matches (fun tag _ _ => is_tag "head" tag) d) with (has "head" d).
  destruct (has "head" d) eqn:E; [done|]. intros [?|H]; [done|].
  by apply OutputFacts.insert_adds.
Qed.

Lemma inject_images d m :
  select img_src (Variant2.injectAssetsIntoHTML d m) = select img_src d.
Proof.
  unfold Variant2.injectAssetsIntoHTML. cbv zeta.
  fold (appended "head" Variant2.stylesheet_link (Variant2.css m)
          (Variant2.add_head d)).
  set (d1 := appended "head" _ _ _).
  fold (appended "body" Variant2.script_tag (Variant2.js m) d1).
  rewrite appended_select by done. subst d1.
  rewrite appended_select by done.
  unfold Variant2.add_head. case_match; [done|].
  by apply select_insert.
Qed.

Lemma inject_css d m path :
  has "head" d = true \/ has "html" d = true ->
  In path (Variant2.css m) ->
  matches (links_to path) (Variant2.injectAssetsIntoHTML d m) = true.
Proof.
  intros Hd Hin. unfold Variant2.injectAssetsIntoHTML. cbv zeta.
  fold (appended "head" Variant2.stylesheet_link (Variant2.css m)
          (Variant2.add_head d)).
  set (d1 := appended "head" _ _ _).
  fold (appended "body" Variant2.script_tag (Variant2.js m) d1).
  apply appended_keeps; [done|]. subst d1.
  apply (appended_adds _ _ _ _ _ path); try done.
  - by apply add_head_has.
  - unfold links_to, Variant2.stylesheet_link, element, attr_is. cbn.
    by rewrite String.eqb_refl.
Qed.

Lemma inject_js d m path :
  has "body" d = true ->
  In path (Variant2.js m) ->
  matches (loads path) (Variant2.injectAssetsIntoHTML d m) = true.
Proof.
  intros Hb Hin. unfold Variant2.injectAssetsIntoHTML. cbv zeta.
  fold (appended "head" Variant2.stylesheet_link (Variant2.css m)
          (Variant2.add_head d)).
  set (d1 := appended "head" _ _ _).
  fold (appended "body" Variant2.script_tag (Variant2.js m) d1).
  apply (appended_adds _ _ _ _ _ path); try done.
  - subst d1. rewrite appended_has by done.
    unfold Variant2.add_head. case_match; [done|].
    unfold prepend. by rewrite OutputFacts.has_insert.
  - unfold loads, Variant2.script_tag, element, attr_is. cbn.
    by rewrite String.eqb_refl.
Qed.

End InjectFacts.


(** ** Where [clone] writes *)

Module PathFacts.
Import Dom DomFacts WebsiteCloner Sample Shape.

Section Kept.
Context (e : env) (outputDir : string) (st0 : state).

Lemma fixed_name_good name : name ∈ fixed_names -> in_output outputDir (Path.join outputDir name).
Proof.
  intros H. exists name. split; [done|]. unfold output_name.
  by rewrite bool_decide_eq_true_2.
Qed.

Lemma image_name_good now ref :
  in_output outputDir (Path.join outputDir (getFileName now ref "images")).
Proof.
  eexists. split; [done|]. unfold output_name.
  by rewrite NameFacts.getFileName_name, NameFacts.getFileName_image, orb_true_r.
Qed.

Lemma kept_start : inflight st0 = [] -> kept outputDir st0 st0.
Proof. intros H. split; [by left|]. by rewrite H. Qed.

Lemma kept_log u st : kept outputDir st0 st -> kept outputDir st0 (log_request u st).
Proof. by intros [H1 H2]. Qed.

Lemma kept_tick st : kept outputDir st0 st -> kept outputDir st0 (tick st).
Proof. by intros [H1 H2]. Qed.

Lemma kept_mark u st : kept outputDir st0 st -> kept outputDir st0 (mark_downloaded u st).
Proof. by intros [H1 H2]. Qed.

Lemma kept_set_inflight l st :
  Forall (fun d => in_output outputDir d.2) l ->
  kept outputDir st0 st -> kept outputDir st0 (set_inflight l st).
Proof. by intros Hl [H1 H2]. Qed.

Lemma kept_write path c st :
  in_output outputDir path ->
  kept outputDir st0 st -> kept outputDir st0 (write path c st).
Proof.
  intros Hp [H1 H2]. split; [|done]. intros q. cbn [files write].
  destruct (decide (q = path)) as [-> | Hne]; [by right|].
  rewrite lookup_insert_ne by done. apply H1.
Qed.

Lemma kept_writeFile path c st st' :
  in_output outputDir path -> writeFile e path c st = Some st' ->
  kept outputDir st0 st -> kept outputDir st0 st'.
Proof.
  intros Hp. unfold writeFile. case_match; [|done]. intros [= <-].
  by apply kept_write.
Qed.

Lemma kept_downloadAsset url path st :
  in_output outputDir path ->
  kept outputDir st0 st -> kept outputDir st0 (downloadAsset url path st).2.
Proof.
  intros Hp HK. unfold downloadAsset. case_decide; [done|]. cbn [snd].
  apply kept_set_inflight; [|by apply kept_log].
  apply Forall_app. split; [apply HK|]. by constructor.
Qed.

Lemma kept_finish d st :
  in_output outputDir d.2 ->
  kept outputDir st0 st -> kept outputDir st0 (finish e d st).
Proof.
  intros Hd HK. unfold finish. repeat case_match; try done.
  by apply kept_mark, kept_write.
Qed.

Lemma kept_finish_some i l st :
  Forall (fun d => in_output outputDir d.2) l -> kept outputDir st0 st ->
  Forall (fun d => in_output outputDir d.2) (finish_some e i l st).1
  /\ kept outputDir st0 (finish_some e i l st).2.
Proof.
  intros Hl. revert i st. induction Hl as [|d l Hd _ IH]; intros i st HK;
    cbn [finish_some]; [done|].
  destruct (early e i).
  - apply IH. by apply kept_finish.
  - destruct (IH (S i) st HK) as [H1 H2].
    destruct (finish_some e (S i) l st). cbn [fst snd] in *. split; [|done].
    by constructor.
Qed.

Lemma kept_await_point st : kept outputDir st0 st -> kept outputDir st0 (await_point e st).
Proof.
  intros HK. unfold await_point.
  destruct (kept_finish_some 0 (inflight st) st (proj2 HK) HK) as [H1 H2].
  destruct (finish_some e 0 (inflight st) st). by apply kept_set_inflight.
Qed.

Lemma kept_settle_all st : kept outputDir st0 st -> kept outputDir st0 (settle_all e st).
Proof.
  intros HK. unfold settle_all. apply kept_set_inflight; [done|].
  assert (G : forall l st1,
             Forall (fun d => in_output outputDir d.2) l ->
             kept outputDir st0 st1 ->
             kept outputDir st0 (fold_left (fun s d => finish e d s) l st1)).
  { intros l. induction l as [|d l IH]; intros st1 Hl HK1; [done|].
    cbn [fold_left]. inversion Hl; subst. apply IH; [done|].
    by apply kept_finish. }
  apply G; [apply HK|exact HK].
Qed.

Lemma kept_fetch_into_bundle base ref a s :
  kept outputDir st0 s.2 -> kept outputDir st0 (fetch_into_bundle e base ref a s).2.2.
Proof.
  intros HK. unfold fetch_into_bundle, axios_get.
  repeat case_match; try done; by apply kept_log.
Qed.

Lemma kept_linked_style base tag a text s :
  kept outputDir st0 s.2 -> kept outputDir st0 (linked_style e base tag a text s).2.2.
Proof.
  intros HK. unfold linked_style. repeat case_match; try done.
  by apply kept_fetch_into_bundle.
Qed.

Lemma kept_linked_script base tag a text s :
  kept outputDir st0 s.2 -> kept outputDir st0 (linked_script e base tag a text s).2.2.
Proof.
  intros HK. unfold linked_script. repeat case_match; try done.
  by apply kept_fetch_into_bundle.
Qed.

Lemma kept_fetch_image base ref s :
  kept outputDir st0 s.2 -> kept outputDir st0 (fetch_image e base outputDir ref s).2.2.
Proof.
  intros HK. unfold fetch_image. destruct (resolveUrl ref base) as [u|]; [|done].
  cbv zeta.
  pose proof (kept_downloadAsset u
                (Path.join outputDir
                   (getFileName (date_now e (clock s.2)) ref "images"))
                (tick s.2) (image_name_good _ _) (kept_tick _ HK)) as H.
  by destruct (downloadAsset _ _ _).
Qed.

Lemma kept_localize base name a s :
  kept outputDir st0 s.2 -> kept outputDir st0 (localize e base outputDir name a s).2.2.
Proof.
  intros HK. unfold localize. destruct (attr_truthy name a) as [ref|]; [|done].
  pose proof (kept_fetch_image base ref s HK).
  by destruct (fetch_image e base outputDir ref s) as [[?|] ?].
Qed.

Lemma kept_srcset_loop base srcset urls a s :
  kept outputDir st0 s.2 -> kept outputDir st0 (srcset_loop e base outputDir srcset urls a s).2.2.
Proof.
  revert a s. induction urls as [|url urls IH]; intros a s HK; cbn [srcset_loop];
    [done|].
  pose proof (kept_fetch_image base url s HK).
  destruct (fetch_image e base outputDir url s) as [[?|] s']; by apply IH.
Qed.

Lemma kept_css_loop base urls css s :
  kept outputDir st0 s.2 -> kept outputDir st0 (css_loop e base outputDir urls css s).2.2.
Proof.
  revert css s. induction urls as [|url urls IH]; intros css s HK; cbn [css_loop];
    [done|].
  destruct (JS.startsWith "data:" url); [by apply IH|].
  pose proof (kept_fetch_image base url s HK).
  destruct (fetch_image e base outputDir url s) as [[?|] s']; by apply IH.
Qed.

Lemma kept_image base tag a text s :
  kept outputDir st0 s.2 -> kept outputDir st0 (image e base outputDir tag a text s).2.2.
Proof. intros HK. unfold image. case_match; [by apply kept_localize|done]. Qed.

Lemma kept_icon base tag a text s :
  kept outputDir st0 s.2 -> kept outputDir st0 (icon e base outputDir tag a text s).2.2.
Proof. intros HK. unfold icon. case_match; [by apply kept_localize|done]. Qed.

Lemma kept_image_set base tag a text s :
  kept outputDir st0 s.2 -> kept outputDir st0 (image_set e base outputDir tag a text s).2.2.
Proof.
  intros HK. unfold image_set.
  destruct (is_tag "img" tag && has_attr "srcset" a); [|done].
  destruct (attr_truthy "srcset" a) as [srcset|]; [|done].
  pose proof (kept_srcset_loop base srcset (srcset_urls srcset) a s HK).
  by destruct (srcset_loop e base outputDir srcset (srcset_urls srcset) a s).
Qed.

Lemma kept_each {X} (f : view (X * state -> option attrs * (X * state)))
  d s d' s' :
  (forall tag a text s0,
      kept outputDir st0 s0.2 -> kept outputDir st0 (f tag a text s0).2.2) ->
  each f d s = (d', s') ->
  kept outputDir st0 s.2 -> kept outputDir st0 s'.2.
Proof.
  intros Hf E.
  pose proof (each_invariant f
                (fun s s' => kept outputDir st0 s.2 -> kept outputDir st0 s'.2)
                d s) as H.
  rewrite E in H. apply H; eauto.
Qed.

Lemma kept_write_bundle name bundle parent tag d st d' st' :
  name ∈ fixed_names ->
  write_bundle e (Path.join outputDir name) bundle parent tag d st = Some (d', st') ->
  kept outputDir st0 st -> kept outputDir st0 st'.
Proof.
  intros Hn. unfold write_bundle. case_match; [|by intros [= _ <-]].
  destruct (writeFile e _ (Bytes bundle) st) eqn:E; [|done].
  intros [= _ <-]. eapply kept_writeFile; [|exact E]. by apply fixed_name_good.
Qed.

Lemma kept_consolidate base d st :
  kept outputDir st0 st -> kept outputDir st0 (consolidate e base outputDir d st).2.
Proof.
  intros HK. unfold consolidate.
  destruct (each inline_style d "") as [d1 css0].
  destruct (each (linked_style e base) d1 (css0, st)) as [d2 [combinedCSS st2]]
    eqn:E2.
  apply (kept_each _ _ _ _ _ (kept_linked_style base)) in E2; [|exact HK].
  cbn [snd] in E2.
  destruct (write_bundle _ _ combinedCSS _ _ d2 st2) as [[d3 st3]|] eqn:E3;
    [|done].
  apply (kept_write_bundle "style.css") in E3; [|set_solver|done].
  destruct (each inline_script d3 "") as [d4 js0].
  destruct (each (linked_script e base) d4 (js0, st3)) as [d5 [combinedJS st5]]
    eqn:E5.
  apply (kept_each _ _ _ _ _ (kept_linked_script base)) in E5; [|exact E3].
  cbn [snd] in E5.
  destruct (write_bundle _ _ combinedJS _ _ d5 st5) as [[d6 st6]|] eqn:E6;
    [|done].
  apply (kept_write_bundle "script.js") in E6; [done|set_solver|done].
Qed.

Lemma kept_localize_css base css s :
  kept outputDir st0 s.2 -> kept outputDir st0 (localize_css e base outputDir css s).2.
Proof.
  intros HK. unfold localize_css. destruct (JS.truthy css); [|done].
  pose proof (kept_css_loop base (css_urls css) css s HK) as Hloop.
  destruct (css_loop e base outputDir (css_urls css) css s) as [updated s'].
  destruct (String.eqb updated css); [done|].
  pose proof (kept_await_point _ Hloop) as Hawait.
  destruct (writeFile _ _ _ _) eqn:E; cbn [snd] in *; [|done].
  eapply kept_writeFile; [|exact E|done]. apply fixed_name_good. set_solver.
Qed.

Lemma kept_localize_images base css d st :
  kept outputDir st0 st -> kept outputDir st0 (localize_images e base outputDir css d st).2.
Proof.
  intros HK. unfold localize_images.
  destruct (each (image e base outputDir) d ([], st)) as [d1 s1] eqn:E1.
  apply (kept_each _ _ _ _ _ (kept_image base)) in E1; [|exact HK].
  destruct (each (image_set e base outputDir) d1 s1) as [d2 s2] eqn:E2.
  apply (kept_each _ _ _ _ _ (kept_image_set base)) in E2; [|exact E1].
  pose proof (kept_localize_css base css s2 E2) as H3.
  destruct (localize_css e base outputDir css s2) as [[ps|] st3]; [|done].
  destruct (each (icon e base outputDir) d2 (ps, st3)) as [d3 s4] eqn:E4.
  by apply (kept_each _ _ _ _ _ (kept_icon base)) in E4.
Qed.

Lemma kept_downloadAssets d base st :
  kept outputDir st0 st -> kept outputDir st0 (downloadAssets e d base outputDir st).2.
Proof.
  intros HK. unfold downloadAssets.
  pose proof (kept_consolidate base d st HK) as H1.
  destruct (consolidate e base outputDir d st) as [[[[d1 css] js]|] st1];
    [|done].
  pose proof (kept_localize_images base css d1 st1 H1) as H2.
  destruct (localize_images e base outputDir css d1 st1) as [[[d2 ps]|] st2];
    [|done].
  by apply kept_settle_all.
Qed.

Lemma kept_generateHTMLOutput d info st :
  kept outputDir st0 st -> kept outputDir st0 (generateHTMLOutput e d outputDir info st).2.
Proof.
  intros HK. unfold generateHTMLOutput, createServerScript.
  destruct (final_document info d) as [d'|]; [|done].
  destruct (writeFile e _ (Markup d') st) as [st1|] eqn:E1; [|done].
  apply kept_writeFile in E1; [|apply fixed_name_good; set_solver|done].
  destruct (writeFile e _ PythonServer st1) as [st2|] eqn:E2; [|done].
  apply kept_writeFile in E2; [|apply fixed_name_good; set_solver|done].
  destruct (writeFile e _ BatchServer st2) as [st3|] eqn:E3; [|done].
  apply kept_writeFile in E3; [|apply fixed_name_good; set_solver|done].
  done.
Qed.

Lemma kept_clone page url ai useAI st :
  kept outputDir st0 st -> kept outputDir st0 (clone e page url outputDir ai useAI st).2.
Proof.
  intros HK. unfold clone. destruct page as [[html0 info]|]; [|done].
  match goal with
  | |- context [downloadAssets ?e ?d ?b ?o ?s] =>
      pose proof (kept_downloadAssets d b s HK) as H1;
      destruct (downloadAssets e d b o s) as [[r|] st1]; [|done]
  end.
  pose proof (kept_generateHTMLOutput (html r) info st1 H1) as H2.
  by destruct (generateHTMLOutput e (html r) outputDir info st1) as [[?|] st2].
Qed.
End Kept.

End PathFacts.

Section Paths.
Import Dom DomFacts WebsiteCloner Sample Shape.

(** X16.  [clone] writes into the output directory only.  Started with no
    download in flight, every file it creates is directly inside the
    directory, under one of the five fixed names or under a name of letters,
    digits, dots, hyphens and underscores that ends in an image extension;
    and it leaves no download in flight that would write elsewhere.  No
    reference of the page can make it write outside. *)
Theorem clone_writes_into_output_only e page url outputDir ai useAI st path :
  inflight st = [] ->
  is_Some (files (clone e page url outputDir ai useAI st).2 !! path) ->
  is_Some (files st !! path) \/ in_output outputDir path.
Proof.
  intros H0 H.
  by apply (PathFacts.kept_clone e outputDir st page url ai useAI st
              (PathFacts.kept_start outputDir st H0)).
Qed.

Lemma clone_writes_into_output_only_witness :
  is_Some (files fresh !! "out/a.png") \/ in_output "out" "out/a.png".
Proof.
  apply (clone_writes_into_output_only (online "PNG")
           (Some (once, info "https://example.com/")) "https://example.com/"
           "out" None None fresh "out/a.png").
  - reflexivity.
  - eexists. vm_compute. reflexivity.
Defined.

End Paths.

(** ** The requests of the loop over the images *)

Module RequestFacts.
Import Dom DomFacts WebsiteCloner Sample Shape.

Lemma unknown_app known l1 l2 :
  unknown known (l1 ++ l2) = unknown known l1 ++ unknown known l2.
Proof. apply List.filter_app. Qed.

Lemma resolved_app base l1 l2 :
  resolved base (l1 ++ l2) = resolved base l1 ++ resolved base l2.
Proof. apply omap_app. Qed.

Lemma resolved_one base ref :
  resolved base [ref] = option_list (resolveUrl ref base).
Proof. unfold resolved. simpl. by destruct (resolveUrl ref base). Qed.

(** One callback of the loop: the set is read, never written. *)
Lemma image_step e base outputDir tag a text s :
  downloadedAssets (image e base outputDir tag a text s).2.2
  = downloadedAssets s.2
  /\ requests (image e base outputDir tag a text s).2.2
     = requests s.2
       ++ unknown (downloadedAssets s.2)
            (resolved base (option_list (img_ref tag a text))).
Proof.
  unfold image, img_ref, localize, fetch_image.
  destruct (is_tag "img" tag); [|by rewrite app_nil_r].
  destruct (attr_truthy "src" a) as [ref|]; [|by rewrite app_nil_r].
  change (option_list (Some ref)) with [ref]. rewrite resolved_one.
  destruct (resolveUrl ref base) as [u|]; [|by rewrite app_nil_r].
  cbv zeta. unfold downloadAsset, unknown. cbn [option_list List.filter].
  case_decide as Hin; cbn.
  - rewrite bool_decide_eq_false_2 by (by intros ?). by rewrite app_nil_r.
  - by rewrite bool_decide_eq_true_2.
Qed.

Lemma image_loop e base outputDir d s :
  downloadedAssets (each (image e base outputDir) d s).2.2 = downloadedAssets s.2
  /\ requests (each (image e base outputDir) d s).2.2
     = requests s.2
       ++ unknown (downloadedAssets s.2) (resolved base (select img_ref d)).
Proof.
  revert s. forest d; intros w; autorewrite with dom.
  - by rewrite app_nil_r.
  - specialize (IHr w). by destruct (each (image e base outputDir) r w).
  - destruct (image_step e base outputDir tag a (text_of kids) w) as [S1 R1].
    destruct (image e base outputDir tag a (text_of kids) w) as [res s1].
    destruct (IHkids s1) as [S2 R2].
    destruct (each (image e base outputDir) kids s1) as [kids' s2].
    destruct (IHr s2) as [S3 R3].
    destruct (each (image e base outputDir) r s2) as [r' s3].
    cbn [fst snd] in *. split; [congruence|].
    rewrite R3, R2, R1, S2, S1, !resolved_app, !unknown_app, <- !app_assoc.
    by destruct (img_ref tag a (text_of kids)).
Qed.

End RequestFacts.

Section Requests.
Import Dom DomFacts WebsiteCloner Sample Shape.

(** X17.  The loop over the images only reads [downloadedAssets]: the set
    is the same after the loop as before it.  So the loop requests, in
    document order, every image reference that resolves to a URL the set did
    not hold when the loop began, as many times as the page refers to it. *)
Theorem image_requests_not_deduplicated e base outputDir d s :
  downloadedAssets (each (image e base outputDir) d s).2.2 = downloadedAssets s.2
  /\ requests (each (image e base outputDir) d s).2.2
     = requests s.2
       ++ unknown (downloadedAssets s.2) (resolved base (select img_ref d)).
Proof. apply RequestFacts.image_loop. Qed.

End Requests.

(** ** The caller and the second variant of [clone] *)

Section Callers.
Import Dom DomFacts WebsiteCloner Sample Shape.

(** X18.  [cloneWebsite] switches the AI collaborator off on the key
    [noAi] of its options, and commander stores the flag [--no-ai] under the
    key [ai]: the [clone] command does the same with the flag as without
    it.  With a key at hand the collaborator is called although the flag was
    given. *)
Theorem no_ai_flag_has_no_effect e page stored AIAgent3 url dir key :
  UICloneCLI.clone_command e page stored AIAgent3 url dir key true
  = UICloneCLI.clone_command e page stored AIAgent3 url dir key false
  /\ (forall k,
        UICloneCLI.found_key (UICloneCLI.command_line dir key true) stored
        = Some k ->
        UICloneCLI.cloner
          (UICloneCLI.clone_command e page stored AIAgent3 url dir key true)
        = (clone e page url
             (default "./cloned-ui" (UICloneCLI.truthy_string dir))
             (Some (AIAgent3 k)) (Some true) fresh).2).
Proof.
  split; [reflexivity|]. intros k Hk.
  unfold UICloneCLI.clone_command, UICloneCLI.cloneWebsite.
  cbn [UICloneCLI.noAi UICloneCLI.command_line default negb].
  rewrite Hk. cbn [UICloneCLI.cloner UICloneCLI.output].
  rewrite bool_decide_eq_true_2 by eauto. cbn [andb].
  by destruct dir as [[|c dir]|].
Qed.

(** X19.  [this.aiProcessor] outlives the call that set it.  A later
    [cloneWebsite] that finds no key warns that it clones without AI, and
    then calls [clone] with the collaborator left by the earlier call and AI
    switched on. *)
Theorem stale_collaborator_reused e page stored AIAgent3 url o this ai :
  UICloneCLI.noAi o = None ->
  UICloneCLI.found_key o stored = None ->
  UICloneCLI.aiProcessor this = Some ai ->
  UICloneCLI.cloneWebsite e page stored AIAgent3 url o this
  = UICloneCLI.mkCli (Some ai)
      (clone e page url
         (default "./cloned-ui" (UICloneCLI.truthy_string (UICloneCLI.output o)))
         (Some ai) (Some true) (UICloneCLI.cloner this)).2.
Proof.
  intros Hn Hk Ha. unfold UICloneCLI.cloneWebsite.
  rewrite Hn, Hk, Ha. cbn [default negb andb].
  by rewrite bool_decide_eq_true_2 by eauto.
Qed.

Lemma stale_collaborator_reused_witness :
  UICloneCLI.cloneWebsite offline (Some (once, info "https://example.com/")) None
    (fun _ => swap_image) "https://example.com/"
    (UICloneCLI.command_line None None false)
    (UICloneCLI.mkCli (Some swap_image) fresh)
  = UICloneCLI.mkCli (Some swap_image)
      (clone offline (Some (once, info "https://example.com/"))
         "https://example.com/"
         (default "./cloned-ui"
            (UICloneCLI.truthy_string
               (UICloneCLI.output (UICloneCLI.command_line None None false))))
         (Some swap_image) (Some true) fresh).2.
Proof.
  apply (stale_collaborator_reused offline
           (Some (once, info "https://example.com/")) None (fun _ => swap_image)
           "https://example.com/" (UICloneCLI.command_line None None false)
           (UICloneCLI.mkCli (Some swap_image) fresh) swap_image);
    reflexivity.
Defined.

(** X20.  In the second variant of [clone] the markup of the AI
    collaborator reaches the output only when at least one download was
    fulfilled: when [downloadAssets] counts none, the collaborator's markup
    is dropped and the result is the one of a run without collaborator. *)
Theorem ai_markup_dropped_without_assets
  dl e html0 info url outputDir ai useAI r st st1 :
  dl e html0 url outputDir st = (Returned r, st1) ->
  Variant2.count r = 0 ->
  Variant2.clone dl e (Some (html0, info)) url outputDir (Some ai) useAI st
  = Variant2.clone dl e (Some (html0, info)) url outputDir None useAI st.
Proof.
  intros Hd Hc. unfold Variant2.clone. rewrite Hd, Hc.
  change (Nat.ltb 0 0) with false. by rewrite andb_false_r.
Qed.

Lemma ai_markup_dropped_without_assets_witness :
  Variant2.clone
    (fun _ d _ _ st =>
       (Returned (Variant2.mkAssets 0 d (Variant2.mkAssetMap [] [] [])), st))
    offline (Some (once, info "https://example.com/")) "https://example.com/"
    "out" (Some (fun _ _ => Some twice)) (Some true) fresh
  = Variant2.clone
      (fun _ d _ _ st =>
         (Returned (Variant2.mkAssets 0 d (Variant2.mkAssetMap [] [] [])), st))
      offline (Some (once, info "https://example.com/")) "https://example.com/"
      "out" None (Some true) fresh.
Proof.
  apply (ai_markup_dropped_without_assets
           (fun _ d _ _ st =>
              (Returned (Variant2.mkAssets 0 d (Variant2.mkAssetMap [] [] [])), st))
           offline once (info "https://example.com/") "https://example.com/" "out"
           (fun _ _ => Some twice) (Some true)
           (Variant2.mkAssets 0 once (Variant2.mkAssetMap [] [] [])) fresh fresh);
    reflexivity.
Defined.

End Callers.

(** ** Inert references *)

Module InertFacts.
Import URL.

Lemma strip_end_prefix p s :
  JS.all_chars (fun c => negb (is_c0_or_space c)) p = true ->
  JS.strip_end is_c0_or_space (p +:+ s) = p +:+ JS.strip_end is_c0_or_space s.
Proof.
  induction p as [|c p IH]; [done|]. cbn [JS.all_chars].
  intros [Hc Hp]%andb_true_iff. apply negb_true_iff in Hc.
  rewrite !JSFacts.app_cons, JSFacts.strip_end_keep by done. f_equal. by apply IH.
Qed.

Lemma filter_prefix p s :
  JS.all_chars (fun c => negb (is_c0_or_space c)) p = true ->
  JS.filter_chars (fun c => negb (is_tab_or_newline c)) (p +:+ s)
  = p +:+ JS.filter_chars (fun c => negb (is_tab_or_newline c)) s.
Proof.
  induction p as [|c p IH]; [done|]. cbn [JS.all_chars].
  intros [Hc Hp]%andb_true_iff. apply negb_true_iff in Hc.
  rewrite !JSFacts.app_cons. cbn [JS.filter_chars].
  rewrite (URLFacts.tab_or_newline_c0 _ Hc). cbn [negb]. f_equal. by apply IH.
Qed.

(** The parser keeps a prefix of printable characters as it is. *)
Lemma preprocess_prefix c p rest :
  JS.all_chars (fun c => negb (is_c0_or_space c)) (String c p) = true ->
  preprocess (String c p +:+ rest) = String c p +:+ Shape.after_prefix rest.
Proof.
  intros H. unfold preprocess, JS.strip, Shape.after_prefix.
  assert (Hc : is_c0_or_space c = false).
  { cbn [JS.all_chars] in H. apply andb_true_iff in H as [Hc _].
    by apply negb_true_iff. }
  rewrite JSFacts.app_cons. cbn [JS.drop_while]. rewrite Hc.
  rewrite <- JSFacts.app_cons. by rewrite strip_end_prefix, filter_prefix.
Qed.

Lemma before_two_slashes stop s :
  JS.startsWith "//" s = false -> JS.startsWith "//" (before stop s) = false.
Proof.
  unfold before. destruct s as [|c1 [|c2 s]]; cbn [JS.take_while JS.startsWith].
  - done.
  - destruct (negb (stop c1)); [|done]. cbn [JS.startsWith].
    by destruct (Ascii.eqb "/" c1).
  - destruct (Ascii.eqb "/" c1) eqn:E1.
    + destruct (Ascii.eqb "/" c2) eqn:E2; [done|]. intros _.
      destruct (negb (stop c1)); [|done]. cbn [JS.startsWith]. rewrite E1.
      destruct (negb (stop c2)); [|done]. cbn [JS.startsWith]. by rewrite E2.
    + intros _. destruct (negb (stop c1)); [|done]. cbn [JS.startsWith].
      by rewrite E1.
Qed.

(** After a scheme that is not special, text that does not go on with two
    slashes parses: to a URL of that scheme without authority. *)
Lemma parse_without_authority sch rest :
  is_special sch = false ->
  JS.startsWith "//" rest = false ->
  exists opq path q f, parse_after_scheme sch rest = Some (mk sch None opq path q f).
Proof.
  intros Hs Hr. unfold parse_after_scheme. rewrite Hs. unfold slashes, raw_main.
  rewrite (before_two_slashes _ _ Hr). case_match; eauto.
Qed.

Lemma scheme_reference sch rest base b :
  is_special sch = false ->
  split_scheme (preprocess (sch +:+ ":" +:+ rest))
  = Some (sch, Shape.after_prefix rest) ->
  JS.startsWith "//" (Shape.after_prefix rest) = false ->
  parse base = Some b ->
  exists opq path q f,
    parse_with_base (sch +:+ ":" +:+ rest) base = Some (mk sch None opq path q f).
Proof.
  intros Hs Hsplit Hr Hb. unfold parse_with_base. rewrite Hb, Hsplit, Hs.
  cbn [andb]. by apply parse_without_authority.
Qed.

Lemma plain_printable s :
  JS.all_chars Shape.plain s = true -> printable s = true.
Proof.
  apply NameFacts.all_chars_weaken. intros c. unfold Shape.plain.
  intros [[[_ H]%andb_true_iff _]%andb_true_iff _]%andb_true_iff. exact H.
Qed.

Lemma plain_after_prefix s :
  JS.all_chars Shape.plain s = true -> Shape.after_prefix s = s.
Proof.
  intros H%plain_printable. unfold Shape.after_prefix.
  by rewrite URLFacts.strip_end_printable, URLFacts.filter_printable.
Qed.

Lemma plain_not_hash c : Shape.plain c = true -> is_hash c = false.
Proof.
  unfold Shape.plain. intros [[_ H]%andb_true_iff _]%andb_true_iff.
  by apply negb_true_iff.
Qed.

Lemma plain_not_qmark c : Shape.plain c = true -> is_qmark c = false.
Proof.
  unfold Shape.plain. intros [_ H]%andb_true_iff. by apply negb_true_iff.
Qed.

Lemma plain_before stop s :
  (forall c, Shape.plain c = true -> stop c = false) ->
  JS.all_chars Shape.plain s = true -> before stop s = s.
Proof.
  intros Hstop. unfold before. induction s as [|c s IH]; [done|].
  cbn [JS.all_chars]. intros [Hc Hs]%andb_true_iff. cbn [JS.take_while].
  rewrite (Hstop _ Hc). cbn [negb]. by rewrite IH.
Qed.

Lemma plain_no_mark mark s :
  (forall c, Shape.plain c = true -> JS.is_char mark c = false) ->
  JS.all_chars Shape.plain s = true -> after_mark mark s = None.
Proof.
  intros Hm. unfold after_mark, from.
  induction s as [|c s IH]; [done|]. cbn [JS.all_chars].
  intros [Hc Hs]%andb_true_iff. cbn [JS.drop_while].
  rewrite (Hm _ Hc). cbn [negb]. by apply IH.
Qed.

Lemma plain_encode s :
  JS.all_chars Shape.plain s = true -> encode c0_set s = s.
Proof.
  induction s as [|c s IH]; [done|]. cbn [JS.all_chars].
  intros [Hc Hs]%andb_true_iff. cbn [encode]. rewrite IH by done.
  unfold Shape.plain in Hc.
  apply andb_true_iff in Hc as [[[Hc _]%andb_true_iff _]%andb_true_iff _].
  apply negb_true_iff in Hc. by rewrite Hc.
Qed.

(** A reference of plain characters after a scheme that is not special
    resolves to itself. *)
Lemma plain_reference c sch rest base b :
  is_special (String c sch) = false ->
  split_scheme (String c sch +:+ ":" +:+ rest) = Some (String c sch, rest) ->
  JS.all_chars (fun c => negb (is_c0_or_space c)) (String c sch +:+ ":") = true ->
  JS.all_chars Shape.plain rest = true ->
  JS.startsWith "/" rest = false ->
  parse base = Some b ->
  href <$> parse_with_base (String c sch +:+ ":" +:+ rest) base
  = Some (String c sch +:+ ":" +:+ rest).
Proof.
  intros Hs Hsplit Hp Hplain Hr Hb. unfold parse_with_base. rewrite Hb.
  assert (E : preprocess (String c sch +:+ ":" +:+ rest)
              = String c sch +:+ ":" +:+ rest).
  { rewrite <- JSFacts.append_assoc. rewrite JSFacts.app_cons in *.
    rewrite preprocess_prefix by done. by rewrite plain_after_prefix. }
  rewrite E, Hsplit, Hs. cbn [andb]. unfold parse_after_scheme.
  rewrite Hs. unfold slashes, raw_main.
  rewrite (plain_before (fun c => is_hash c || is_qmark c)); [|intros c0 Hc|done].
  2: { by rewrite (plain_not_hash _ Hc), (plain_not_qmark _ Hc). }
  rewrite (URLFacts.two_slashes _ Hr), Hr.
  unfold enc_query, enc_fragment, raw_query, raw_fragment.
  rewrite (plain_before is_hash) by (done || apply plain_not_hash).
  rewrite (plain_no_mark "?") by (done || apply plain_not_qmark).
  rewrite (plain_no_mark "#") by (done || apply plain_not_hash).
  rewrite plain_encode by done. cbn. unfold href. cbn.
  by rewrite !ConsolidateFacts.append_empty.
Qed.

(** A reference that is only a fragment resolves to the base with the text
    after the hash sign as its fragment. *)
Lemma hash_reference rest base b :
  parse base = Some b ->
  parse_with_base ("#" +:+ rest) base
  = Some (mk (scheme b) (authority b) (opaque b) (pathname b) (query b)
            (Some (encode fragment_set (Shape.after_prefix rest)))).
Proof.
  intros Hb. unfold parse_with_base. rewrite Hb.
  pose proof (preprocess_prefix "#" "" rest eq_refl) as Hx.
  change (String "#" "" +:+ rest) with (String "#" rest) in Hx.
  change (String "#" "" +:+ Shape.after_prefix rest)
    with (String "#" (Shape.after_prefix rest)) in Hx.
  change ("#" +:+ rest) with (String "#" rest). rewrite Hx.
  cbn [split_scheme JS.is_alpha]. unfold no_scheme. cbn [JS.startsWith].
  destruct (opaque b) eqn:Eo.
  - cbv [enc_fragment raw_fragment after_mark from JS.drop_while is_hash JS.is_char
         Ascii.eqb Bool.eqb negb fmap option_fmap option_map].
    reflexivity.
  - unfold relative.
    cbv [raw_main before JS.take_while is_hash is_qmark JS.is_char Ascii.eqb
         Bool.eqb negb orb].
    unfold slashes. destruct (is_special (scheme b)); cbn [JS.map_chars];
      cbv [JS.startsWith JS.truthy negb raw_query before JS.take_while is_hash
           JS.is_char Ascii.eqb Bool.eqb after_mark from JS.drop_while
           enc_fragment raw_fragment fmap option_fmap option_map];
      reflexivity.
Qed.

End InertFacts.

(** ** The references that steps 5 to 7 rewrite *)

Module LocalizeFacts.
Import Dom DomFacts WebsiteCloner Sample Shape.

Lemma image_name_truthy now ref : JS.truthy (getFileName now ref "images") = true.
Proof.
  pose proof (NameFacts.getFileName_image now ref) as H.
  by destruct (getFileName now ref "images").
Qed.

Lemma attr_truthy_set name v a :
  JS.truthy v = true -> attr_truthy name (set_attr name v a) = Some v.
Proof. intros H. unfold attr_truthy. by rewrite AttrFacts.attr_set_same, H. Qed.

Lemma attr_truthy_other name name' v a :
  name <> name' -> attr_truthy name (set_attr name' v a) = attr_truthy name a.
Proof. intros H. unfold attr_truthy. by rewrite AttrFacts.attr_set_other. Qed.

Lemma attr_is_other name name' w v a :
  name <> name' -> attr_is name w (set_attr name' v a) = attr_is name w a.
Proof. intros H. unfold attr_is. by rewrite AttrFacts.attr_set_other. Qed.

Lemma is_icon_link_set tag v a :
  is_icon_link tag (set_attr "href" v a) = is_icon_link tag a.
Proof. unfold is_icon_link. by rewrite !attr_is_other. Qed.

(** What [localize] answers, case by case. *)
Lemma localize_cases e base outputDir name a s :
  (localize e base outputDir name a s).1 = Some a
  /\ (forall ref, attr_truthy name a = Some ref -> resolveUrl ref base = None)
  \/ exists ref url now,
       attr_truthy name a = Some ref /\ resolveUrl ref base = Some url
       /\ (localize e base outputDir name a s).1
          = Some (set_attr name (getFileName now ref "images") a).
Proof.
  unfold localize, fetch_image.
  destruct (attr_truthy name a) as [ref|]; [|by left].
  destruct (resolveUrl ref base) as [url|] eqn:Eu.
  - right. exists ref, url, (date_now e (clock s.2)). cbv zeta.
    by destruct (downloadAsset _ _ _).
  - left. split; [done|]. by intros ? [= <-].
Qed.

Section Loop.
Context (e : env) (base outputDir name : string).
Context (sel : string -> attrs -> bool).
Context (f : view (downloads -> option attrs * downloads)).
Context (v : view (option string)).
Hypothesis sel_set : forall tag w a, sel tag (set_attr name w a) = sel tag a.
Hypothesis f_eq :
  forall tag a x s,
    f tag a x s
    = if sel tag a then localize e base outputDir name a s else (Some a, s).
Hypothesis v_eq :
  forall tag a x, v tag a x = if sel tag a then attr_truthy name a else None.

Lemma loop_step tag a x y s :
  exists a',
    (f tag a x s).1 = Some a'
    /\ Forall2 (localized base) (option_list (v tag a x)) (option_list (v tag a' y)).
Proof.
  rewrite f_eq, !v_eq. destruct (sel tag a) eqn:Es.
  - destruct (localize_cases e base outputDir name a s)
      as [[E Hn] | (ref & url & now & Ea & Eu & E)].
    + exists a. split; [done|]. rewrite v_eq, Es.
      destruct (attr_truthy name a) as [ref|]; [|constructor].
      constructor; [|constructor]. intros _. by rewrite (Hn ref).
    + eexists. split; [exact E|]. rewrite v_eq, sel_set, Es, Ea.
      rewrite attr_truthy_set by apply image_name_truthy.
      constructor; [|constructor]. intros _. rewrite Eu. by exists now.
  - exists a. split; [done|]. rewrite v_eq, Es. constructor.
Qed.

(** The loop rewrites the references it selects, each on its own. *)
Lemma loop_localizes d s :
  Forall2 (localized base) (select v d) (select v (each f d s).1).
Proof.
  revert s. forest d; intros w; autorewrite with dom.
  - constructor.
  - specialize (IHr w). destruct (each f r w). by autorewrite with dom.
  - destruct (each f kids (f tag a (text_of kids) w).2) as [kids' s2] eqn:Ek.
    destruct (loop_step tag a (text_of kids) (text_of kids') w) as (a' & E & H).
    destruct (f tag a (text_of kids) w) as [res s1]. cbn [fst snd] in *.
    subst res. rewrite Ek.
    pose proof (IHkids s1) as Hk. rewrite Ek in Hk.
    specialize (IHr s2). destruct (each f r s2) as [r' s3]. cbn [fst] in *.
    cbn [app]. autorewrite with dom.
    apply Forall2_app; [|by apply Forall2_app].
    by destruct (v tag a (text_of kids)), (v tag a' (text_of kids')).
Qed.
End Loop.

(** A loop that removes nothing and changes nothing a view reads leaves
    what the view selects. *)
Lemma each_select_blind {S A} (f : view (S -> option attrs * S))
  (w : view (option A)) d s :
  (forall tag a x s0,
      exists a', (f tag a x s0).1 = Some a' /\ w tag a' x = w tag a x) ->
  select w (each f d s).1 = select w d.
Proof.
  intros Hf. revert s. forest d; intros u; autorewrite with dom.
  - done.
  - specialize (IHr u). destruct (each f r u). by autorewrite with dom.
  - destruct (Hf tag a (text_of kids) u) as (a' & E & Hw).
    destruct (f tag a (text_of kids) u) as [res s1]. cbn [fst] in E. subst res.
    pose proof (text_of_each f kids s1) as Ht. specialize (IHkids s1).
    destruct (each f kids s1) as [kids' s2]. cbn [fst] in *.
    specialize (IHr s2). destruct (each f r s2) as [r' s3]. cbn [fst] in *.
    cbn [app]. autorewrite with dom. by rewrite Ht, Hw, IHkids, IHr.
Qed.

Lemma localize_frame e base outputDir name a s :
  exists a',
    (localize e base outputDir name a s).1 = Some a'
    /\ forall n, n <> name -> attr n a' = attr n a.
Proof.
  destruct (localize_cases e base outputDir name a s)
    as [[E _] | (ref & url & now & _ & _ & E)].
  - by exists a.
  - eexists. split; [exact E|]. intros n Hn. by apply AttrFacts.attr_set_other.
Qed.

Lemma srcset_loop_frame e base outputDir srcset urls a s n :
  n <> "srcset" ->
  attr n (srcset_loop e base outputDir srcset urls a s).1 = attr n a.
Proof.
  intros Hn. revert a s. induction urls as [|url urls IH]; intros a s; [done|].
  cbn [srcset_loop].
  destruct (fetch_image e base outputDir url s) as [[localPath|] s']; [|apply IH].
  rewrite IH. by apply AttrFacts.attr_set_other.
Qed.

Lemma image_frame e base outputDir tag a x s :
  exists a',
    (image e base outputDir tag a x s).1 = Some a'
    /\ forall n, n <> "src" -> attr n a' = attr n a.
Proof.
  unfold image. destruct (is_tag "img" tag); [apply localize_frame|by exists a].
Qed.

Lemma icon_frame e base outputDir tag a x s :
  exists a',
    (icon e base outputDir tag a x s).1 = Some a'
    /\ forall n, n <> "href" -> attr n a' = attr n a.
Proof.
  unfold icon. destruct (is_icon_link tag a); [apply localize_frame|by exists a].
Qed.

Lemma image_set_frame e base outputDir tag a x s :
  exists a',
    (image_set e base outputDir tag a x s).1 = Some a'
    /\ forall n, n <> "srcset" -> attr n a' = attr n a.
Proof.
  unfold image_set.
  destruct (is_tag "img" tag && has_attr "srcset" a); [|by exists a].
  destruct (attr_truthy "srcset" a) as [srcset|]; [|by exists a].
  pose proof (fun n => srcset_loop_frame e base outputDir srcset
                         (srcset_urls srcset) a s n) as H.
  destruct (srcset_loop e base outputDir srcset (srcset_urls srcset) a s)
    as [a' s'].
  by exists a'.
Qed.

Lemma img_ref_frame tag a a' x :
  attr "src" a' = attr "src" a -> img_ref tag a' x = img_ref tag a x.
Proof. intros H. unfold img_ref, attr_truthy. by rewrite H. Qed.

Lemma icon_ref_frame tag a a' x :
  attr "rel" a' = attr "rel" a -> attr "href" a' = attr "href" a ->
  icon_ref tag a' x = icon_ref tag a x.
Proof.
  intros H1 H2. unfold icon_ref, is_icon_link, attr_is, attr_truthy.
  by rewrite H1, H2.
Qed.

(** Steps 5 to 7 as a whole, on the images and on the icons. *)
Lemma localize_images_localizes e base outputDir css d st d1 ps st1 :
  localize_images e base outputDir css d st = (Returned (d1, ps), st1) ->
  Forall2 (localized base) (select img_ref d) (select img_ref d1)
  /\ Forall2 (localized base) (select icon_ref d) (select icon_ref d1).
Proof.
  unfold localize_images.
  pose proof (loop_localizes e base outputDir "src" (fun tag _ => is_tag "img" tag)
                (image e base outputDir) img_ref
                (fun _ _ _ => eq_refl) (fun _ _ _ _ => eq_refl)
                (fun _ _ _ => eq_refl) d ([], st)) as I1.
  pose proof (each_select_blind (image e base outputDir) icon_ref d ([], st)) as C1.
  destruct (each (image e base outputDir) d ([], st)) as [dA s1].
  pose proof (each_select_blind (image_set e base outputDir) img_ref dA s1) as I2.
  pose proof (each_select_blind (image_set e base outputDir) icon_ref dA s1) as C2.
  destruct (each (image_set e base outputDir) dA s1) as [dB s2].
  destruct (localize_css e base outputDir css s2) as [[ps'|] st3]; [|done].
  pose proof (each_select_blind (icon e base outputDir) img_ref dB (ps', st3)) as I3.
  pose proof (loop_localizes e base outputDir "href" is_icon_link
                (icon e base outputDir) icon_ref
                is_icon_link_set (fun _ _ _ _ => eq_refl)
                (fun _ _ _ => eq_refl) dB (ps', st3)) as C3.
  destruct (each (icon e base outputDir) dB (ps', st3)) as [dC s4].
  cbn [fst] in *. intros [= <- _ _]. split.
  - rewrite I3, I2; [exact I1| |].
    + intros tag a x s0.
      destruct (image_set_frame e base outputDir tag a x s0) as (a' & E & H).
      exists a'. split; [done|]. apply img_ref_frame. by apply H.
    + intros tag a x s0.
      destruct (icon_frame e base outputDir tag a x s0) as (a' & E & H).
      exists a'. split; [done|]. apply img_ref_frame. by apply H.
  - rewrite <- C1, <- C2; [exact C3| |].
    + intros tag a x s0.
      destruct (image_set_frame e base outputDir tag a x s0) as (a' & E & H).
      exists a'. split; [done|]. apply icon_ref_frame; by apply H.
    + intros tag a x s0.
      destruct (image_frame e base outputDir tag a x s0) as (a' & E & H).
      exists a'. split; [done|]. apply icon_ref_frame; by apply H.
Qed.

End LocalizeFacts.

(** * The claims *)

Section Claims.
Import Dom DomFacts WebsiteCloner Sample.

(** C1 (the code misses the claim).  The same image referenced twice in one
    document: [downloadAsset] tests the set before any download has
    finished, so the URL is requested twice, not once.  Both references are
    rewritten to the same local path. *)
Theorem duplicate_reference_fetched_twice :
  let run := downloadAssets (online "PNG") twice "https://example.com/" "out" fresh in
  requests run.2 = [a_png; a_png]
  /\ (html <$> match run.1 with Returned r => Some r | Threw => None end)
     = Some (page [] [img "a.png"; img "a.png"]).
Proof. split; vm_compute; reflexivity. Qed.

(** C2, as stated, fails: with every request failing, the image reference
    of the page is rewritten all the same and its raw value is gone. *)
Lemma failed_reference_rewritten : ~ Stated.failed_reference_untouched.
Proof.
  intros H.
  destruct (downloadAssets offline once "https://example.com/" "out" fresh)
    as [c st'] eqn:E.
  assert (Ec : c = Returned (mkAssets 1 (page [] [img "a.png"]) [] [] 1)).
  { apply (f_equal fst) in E. vm_compute in E. symmetry. exact E. }
  subst c.
  assert (Hin : a_png ∈ select img_src once) by (vm_compute; constructor).
  specialize (H _ _ _ _ _ _ _ a_png a_png E Hin eq_refl eq_refl).
  vm_compute in H. apply list_elem_of_singleton in H. discriminate H.
Qed.

(** C2, amended.  The [src] of an image and the [href] of an icon link
    that [resolveUrl] accepts are replaced, in the loop that starts the
    download, by the local file name [getFileName] gives the reference, and
    nothing restores the remote URL afterwards: the document that steps 5 to
    7 return is the same, for the same readings of the clock, whether each
    fetch succeeds or fails.  Such a reference keeps its raw value when
    [resolveUrl] rejects it.  Nothing is
    stated here about a reference that begins with [data:], nor about the
    candidates of a [srcset] and the [url(...)] references of the styles,
    which are rewritten by other rules. *)
Theorem reference_rewritten_before_fetch
  e e' base outputDir css d st st' d1 ps1 st1 d2 ps2 st2 :
  same_time e e' ->
  clock st = clock st' ->
  localize_images e base outputDir css d st = (Returned (d1, ps1), st1) ->
  localize_images e' base outputDir css d st' = (Returned (d2, ps2), st2) ->
  d1 = d2
  /\ Forall2 (Shape.localized base)
       (select Shape.img_ref d) (select Shape.img_ref d1)
  /\ Forall2 (Shape.localized base)
       (select Shape.icon_ref d) (select Shape.icon_ref d1).
Proof.
  intros Ht Hc H1 H2. split.
  - eapply ClonerFacts.localize_images_independent; eauto.
  - eapply LocalizeFacts.localize_images_localizes, H1.
Qed.

Lemma reference_rewritten_before_fetch_witness :
  exists d1 ps1 st1 d2 ps2 st2,
    localize_images offline "https://example.com/" "out" "" once fresh
    = (Returned (d1, ps1), st1)
    /\ localize_images (online "PNG") "https://example.com/" "out" "" once fresh
       = (Returned (d2, ps2), st2)
    /\ d1 = d2.
Proof.
  do 6 eexists. split; [vm_compute; reflexivity|]. split; [vm_compute; reflexivity|].
  refine (proj1 (reference_rewritten_before_fetch offline (online "PNG")
                   "https://example.com/" "out" "" once fresh fresh
                   _ _ _ _ _ _ _ _ _ _)).
  - intros n. reflexivity.
  - vm_compute. reflexivity.
  - vm_compute. reflexivity.
  - vm_compute. reflexivity.
Defined.

(** C3, as stated, fails: the two URLs of the scenario, which differ in the
    query string only, get the same local file name. *)
Lemma query_variants_share_a_name : ~ Stated.names_unique.
Proof.
  intros H. apply (H 0%N x_png x_png_v2).
  - vm_compute. eauto.
  - vm_compute. eauto.
  - discriminate.
  - vm_compute. reflexivity.
Qed.

(** C3, amended.  [getFileName] has no collision handling.  For a
    reference that is an absolute URL ([new URL(reference)] does not throw)
    the name is derived from the base name of its path alone, with no
    disambiguating suffix: two such URLs whose paths have the same base name
    get the same local file name, and both downloads, when neither URL is in
    [downloadedAssets], are started on the same path.  A reference that is not an absolute URL, as is every reference
    that begins with a slash (the scheme-relative [//cdn.example.com/x.png]
    among them), is named by the clock, not by the reference. *)
Theorem name_from_basename_only now now' u1 u2 p1 p2 type :
  URL.parse u1 = Some p1 ->
  URL.parse u2 = Some p2 ->
  Path.basename (URL.pathname p1) = Path.basename (URL.pathname p2) ->
  getFileName now u1 type = getFileName now' u2 type
  /\ (forall outputDir st,
        u1 ∉ downloadedAssets st -> u2 ∉ downloadedAssets st ->
        inflight
          (downloadAsset u2 (Path.join outputDir (getFileName now' u2 type))
             (downloadAsset u1 (Path.join outputDir (getFileName now u1 type))
                st).2).2
        = inflight st
          ++ [(u1, Path.join outputDir (getFileName now u1 type));
              (u2, Path.join outputDir (getFileName now u1 type))])
  /\ (forall ref,
        URL.parse ref = None ->
        getFileName now ref type = Shape.fallback_name now type)
  /\ (forall ref, JS.startsWith "/" ref = true -> URL.parse ref = None).
Proof.
  intros H1 H2 H3.
  pose proof (FetchFacts.getFileName_basename now now' u1 u2 p1 p2 type H1 H2 H3)
    as E.
  split; [exact E|]. split; [|split].
  - intros outputDir st Hn1 Hn2. rewrite <- E.
    set (P := Path.join outputDir (getFileName now u1 type)).
    assert (E1 : downloadAsset u1 P st
                 = (Download u1 P,
                    set_inflight (inflight st ++ [(u1, P)]) (log_request u1 st))).
    { unfold downloadAsset. by rewrite decide_False. }
    rewrite E1. cbn [snd]. unfold downloadAsset.
    rewrite decide_False by done. cbn [snd inflight set_inflight log_request].
    by rewrite <- app_assoc.
  - intros ref Hr. unfold getFileName. by rewrite Hr.
  - apply NameFacts.slash_not_scheme.
Qed.

Lemma name_from_basename_only_witness :
  getFileName 1%N x_png "images" = getFileName 2%N x_png_v2 "images".
Proof.
  refine (proj1 (name_from_basename_only 1%N 2%N x_png x_png_v2 _ _ "images"
                   _ _ _)).
  - vm_compute. reflexivity.
  - vm_compute. reflexivity.
  - vm_compute. reflexivity.
Defined.

(** C4, as stated, fails: the filter reads the raw [src], not the resolved
    URL.  A page of a denied host that loads its own script by a relative
    reference has that script fetched. *)
Lemma own_script_of_denied_host_fetched : ~ Stated.denied_url_not_fetched.
Proof.
  intros H.
  destruct (downloadAssets (online "js") own_script denied_base "out" fresh)
    as [c st'] eqn:E.
  assert (Ec : exists r, c = Returned r).
  { apply (f_equal fst) in E. vm_compute in E. eauto. }
  assert (Er : requests st' = ["https://twitter.com/main.js"]).
  { apply (f_equal (fun x => requests x.2)) in E. vm_compute in E.
    symmetry. exact E. }
  destruct Ec as [r ->].
  assert (Hin : "/main.js" ∈ select script_src own_script)
    by (vm_compute; constructor).
  apply (H _ _ _ _ _ _ _ "/main.js" "https://twitter.com/main.js" E Hin);
    [vm_compute; reflexivity..|].
  rewrite Er. constructor.
Qed.

(** C4, amended.  For every script reference whose raw [src] value contains
    an entry of the deny-list: the loop over [script[src]] requests exactly
    the sources that the list does not match, so the reference is not
    fetched; and no such script element is left in the document
    [downloadAssets] returns, nor in the final document of
    [generateHTMLOutput]. *)
Theorem denied_script_dropped e d base outputDir st r st' info d' :
  downloadAssets e d base outputDir st = (Returned r, st') ->
  final_document info (html r) = Some d' ->
  (forall d0 s,
      requests (each (linked_script e base) d0 s).2.2
      = requests s.2 ++ script_fetches base (select script_src d0))
  /\ (forall src l1 l2,
        isTrackingScript src = true ->
        script_fetches base (l1 ++ src :: l2) = script_fetches base (l1 ++ l2))
  /\ matches denied_script (html r) = false
  /\ matches denied_script d' = false.
Proof.
  intros Hrun Hout. repeat split.
  - intros. apply ClonerFacts.linked_script_requests.
  - intros. by apply FetchFacts.script_fetches_denied.
  - eapply ClonerFacts.downloadAssets_no_denied, Hrun.
  - apply (matches_weaken denied_script tracking_script).
    + apply FetchFacts.denied_is_tracking.
    + by destruct (RewriteFacts.rewrite_clean _ _ _ Hout) as (? & _).
Qed.

Lemma denied_script_dropped_witness :
  exists r st' d',
    downloadAssets (online "x") mixed "https://example.com/" "out" fresh
    = (Returned r, st')
    /\ final_document (info "https://example.com/") (html r) = Some d'
    /\ matches denied_script (html r) = false
    /\ matches denied_script d' = false.
Proof.
  do 3 eexists. split; [vm_compute; reflexivity|]. split; [vm_compute; reflexivity|].
  refine (proj2 (proj2 (denied_script_dropped (online "x") mixed
                          "https://example.com/" "out" fresh _ _
                          (info "https://example.com/") _ _ _))).
  - vm_compute. reflexivity.
  - vm_compute. reflexivity.
Defined.

(** C5, as stated, fails: [resolveUrl] has no rule for inert references; a
    [data:] URI resolves to itself. *)
Lemma data_uri_resolves : ~ Stated.inert_not_fetchable.
Proof.
  intros H.
  specialize (H "https://example.com/" "data:image/png;base64,AAAA" eq_refl).
  vm_compute in H. discriminate H.
Qed.

(** C5, amended.  [resolveUrl] has no rule for inert references: it
    answers [null] exactly when [new URL(url, baseUrl)] throws.  Against a
    base URL that parses, a reference that begins with [data:] or
    [javascript:] and does not go on with two slashes (tabs and newlines,
    which the parser drops, aside) resolves to a URL of that scheme: to
    itself when what follows the colon is made of printable characters other
    than the space, [?] and [#] and does not begin with a slash.  A
    reference that begins with [#] resolves to the base URL with the text
    after the [#], percent-encoded, as its fragment.  The loop over the
    [url(...)] captures of the style bundle skips a capture that begins with
    [data:] before it calls [resolveUrl]. *)
Theorem inert_reference_resolves base b rest :
  URL.parse base = Some b ->
  (forall ref,
      resolveUrl ref base = None <-> URL.parse_with_base ref base = None)
  /\ (JS.startsWith "//" (Shape.after_prefix rest) = false ->
      (exists u, resolveUrl ("data:" +:+ rest) base = Some u
                 /\ JS.startsWith "data:" u = true)
      /\ (exists u, resolveUrl ("javascript:" +:+ rest) base = Some u
                    /\ JS.startsWith "javascript:" u = true))
  /\ (JS.all_chars Shape.plain rest = true ->
      JS.startsWith "/" rest = false ->
      resolveUrl ("data:" +:+ rest) base = Some ("data:" +:+ rest)
      /\ resolveUrl ("javascript:" +:+ rest) base = Some ("javascript:" +:+ rest))
  /\ resolveUrl ("#" +:+ rest) base
     = Some (URL.href
               (URL.mk (URL.scheme b) (URL.authority b) (URL.opaque b)
                  (URL.pathname b) (URL.query b)
                  (Some (URL.encode URL.fragment_set (Shape.after_prefix rest)))))
  /\ (forall e outputDir urls css s,
        css_loop e base outputDir (("data:" +:+ rest) :: urls) css s
        = css_loop e base outputDir urls css s).
Proof.
  intros Hb. unfold resolveUrl.
  assert (Hd : URL.split_scheme (URL.preprocess ("data" +:+ ":" +:+ rest))
               = Some ("data", Shape.after_prefix rest)).
  { change ("data" +:+ ":" +:+ rest) with (String "d" "ata:" +:+ rest).
    by rewrite InertFacts.preprocess_prefix. }
  assert (Hj : URL.split_scheme (URL.preprocess ("javascript" +:+ ":" +:+ rest))
               = Some ("javascript", Shape.after_prefix rest)).
  { change ("javascript" +:+ ":" +:+ rest) with (String "j" "avascript:" +:+ rest).
    by rewrite InertFacts.preprocess_prefix. }
  change ("data:" +:+ rest) with ("data" +:+ ":" +:+ rest).
  change ("javascript:" +:+ rest) with ("javascript" +:+ ":" +:+ rest).
  split; [|split; [|split; [|split]]].
  - intros ref. by destruct (URL.parse_with_base ref base).
  - intros Hr. split.
    + destruct (InertFacts.scheme_reference "data" rest base b eq_refl Hd Hr Hb)
        as (o & p & q & f & ->).
      eexists. split; reflexivity.
    + destruct (InertFacts.scheme_reference "javascript" rest base b eq_refl Hj Hr Hb)
        as (o & p & q & f & ->).
      eexists. split; reflexivity.
  - intros Hp Hr. split.
    + by apply (InertFacts.plain_reference "d" "ata" rest base b).
    + by apply (InertFacts.plain_reference "j" "avascript" rest base b).
  - by rewrite (InertFacts.hash_reference rest base b Hb).
  - intros. reflexivity.
Qed.

Lemma inert_reference_resolves_witness :
  resolveUrl "data:image/png;base64,AAAA" "https://example.com/"
  = Some "data:image/png;base64,AAAA".
Proof.
  refine (proj1 (proj1 (proj2 (proj2 (inert_reference_resolves
                                        "https://example.com/" _
                                        "image/png;base64,AAAA" _))) _ _)).
  - vm_compute. reflexivity.
  - vm_compute. reflexivity.
  - vm_compute. reflexivity.
Defined.

(** C6 (the code misses the claim).  One image whose request fails: nothing
    is thrown and nothing is written, yet the count returned is 1, because
    [downloadAsset] catches the failure and its promise is fulfilled. *)
Theorem failed_fetch_counted :
  let run := downloadAssets offline once "https://example.com/" "out" fresh in
  (count <$> match run.1 with Returned r => Some r | Threw => None end) = Some 1
  /\ requests run.2 = [a_png]
  /\ files run.2 = ∅
  /\ downloadedAssets run.2 = ∅.
Proof. repeat split; vm_compute; reflexivity. Qed.

(** C7, as stated, fails: a document whose only asset reference is a local
    path is changed by the rewrite, which adds the viewport tag and the
    enhancement style that the document lacks. *)
Lemma local_document_changed : ~ Stated.rewrite_noop_on_local.
Proof.
  intros H.
  specialize (H (info "https://example.com/") local_page).
  assert (Hl : Stated.only_local_paths local_page)
    by (vm_compute; repeat constructor).
  apply H in Hl.
  apply (f_equal (fun o => match o with
                           | Some d => matches (meta_named "viewport") d
                           | None => false
                           end)) in Hl.
  vm_compute in Hl. discriminate Hl.
Qed.

(** C7, amended.  The rewrite of [generateHTMLOutput] is idempotent on its
    own output: applied, with the same page information, to a document it
    has produced, it returns that document unchanged. *)
Theorem rewrite_idempotent info d d' :
  final_document info d = Some d' -> final_document info d' = Some d'.
Proof. apply RewriteFacts.rewrite_fixed. Qed.

Lemma rewrite_idempotent_witness :
  exists d',
    final_document (info "https://example.com/") local_page = Some d'
    /\ final_document (info "https://example.com/") d' = Some d'.
Proof.
  eexists. split; [vm_compute; reflexivity|].
  apply (rewrite_idempotent (info "https://example.com/") local_page).
  vm_compute. reflexivity.
Defined.

(** C8, as stated, fails: [injectAssetsIntoHTML], the one place where the
    asset map meets the markup of the AI collaborator, never reads the image
    paths of the map.  An image of that markup keeps its remote URL although
    the map holds its local path. *)
Lemma image_paths_not_applied : ~ Stated.mapping_applied.
Proof.
  intros H.
  specialize (H (page [] [img a_png])
                (Variant2.mkAssetMap [] [] ["assets/images/a.png"])
                "assets/images/a.png").
  assert (Hin : "assets/images/a.png"
                ∈ Variant2.images
                    (Variant2.mkAssetMap [] [] ["assets/images/a.png"]))
    by (cbn; constructor).
  apply H in Hin. vm_compute in Hin.
  apply list_elem_of_singleton in Hin. discriminate Hin.
Qed.

(** C8, amended.  In the second variant of [clone], [downloadAssets] is
    handed the captured markup whatever the AI collaborator answers; when
    the collaborator was used and at least one download was counted, the
    document written is its markup after [injectAssetsIntoHTML], which links
    the style sheets and loads the scripts of the asset map and leaves every
    image reference as the collaborator wrote it.  In the first variant
    [downloadAssets] is handed the markup that [cleanWithAI] answers, and
    the captured markup when that call throws, as it does for a collaborator
    that defines no [cleanWithAI]. *)
Theorem captured_markup_scanned :
  (forall dl e html0 info url outputDir ai useAI st,
      requests (Variant2.clone dl e (Some (html0, info)) url outputDir ai useAI st).2
      = requests (dl e html0 url outputDir st).2)
  /\ (forall dl e html0 info url outputDir ai processed r st st1,
        dl e html0 url outputDir st = (Returned r, st1) ->
        ai html0 url = Some processed ->
        0 < Variant2.count r ->
        Variant2.clone dl e (Some (html0, info)) url outputDir (Some ai)
          (Some true) st
        = match
            generateHTMLOutput e
              (Variant2.injectAssetsIntoHTML processed (Variant2.map r))
              outputDir info st1
          with
          | (Threw, st2) => (Threw, st2)
          | (Returned main, st2) =>
              (Returned (mkCloned outputDir (Variant2.count r) main), st2)
          end)
  /\ (forall aiHTML m,
        select img_src (Variant2.injectAssetsIntoHTML aiHTML m)
        = select img_src aiHTML)
  /\ (forall aiHTML m path,
        has "head" aiHTML = true \/ has "html" aiHTML = true ->
        In path (Variant2.css m) ->
        matches (Shape.links_to path) (Variant2.injectAssetsIntoHTML aiHTML m)
        = true)
  /\ (forall aiHTML m path,
        has "body" aiHTML = true ->
        In path (Variant2.js m) ->
        matches (Shape.loads path) (Variant2.injectAssetsIntoHTML aiHTML m) = true)
  /\ (forall e html0 info url outputDir ai useAI st cleaned,
        useAI <> Some false ->
        ai html0 = Some cleaned ->
        clone e (Some (html0, info)) url outputDir (Some ai) useAI st
        = clone e (Some (cleaned, info)) url outputDir None useAI st)
  /\ (forall e page url outputDir useAI st,
        clone e page url outputDir (Some UICloneCLI.no_cleanWithAI) useAI st
        = clone e page url outputDir None useAI st).
Proof.
  split; [|split; [|split; [|split; [|split; [|split]]]]].
  - intros. apply FetchFacts.variant2_scans_capture.
  - intros dl e html0 info url outputDir ai processed r st st1 Hd Ha Hc.
    unfold Variant2.clone, Variant2.ai_used. rewrite Hd, Ha.
    rewrite bool_decide_eq_true_2 by done.
    apply Nat.ltb_lt in Hc. by rewrite Hc.
  - intros. apply InjectFacts.inject_images.
  - intros aiHTML m path Hd Hin. by apply InjectFacts.inject_css.
  - intros aiHTML m path Hb Hin. by apply InjectFacts.inject_js.
  - intros e html0 info url outputDir ai useAI st cleaned Hu Ha.
    unfold clone. rewrite Ha. by rewrite bool_decide_eq_false_2.
  - intros e page url outputDir useAI st. unfold clone, UICloneCLI.no_cleanWithAI.
    destruct page as [[html0 info]|]; [|done].
    by destruct (negb (bool_decide (useAI = Some false))).
Qed.

(** C9.  The set [downloadedAssets] belongs to the instance and is never
    cleared.  Once a URL is in it: every later [downloadAsset] for that URL
    returns at once, with no request and no file written; the URL is still
    in the set after any further [clone]; and a reference that resolves to
    it is rewritten to its local path all the same. *)
Theorem downloaded_url_never_refetched e url st :
  url ∈ downloadedAssets st ->
  (forall localPath, downloadAsset url localPath st = (Resolved, st))
  /\ (forall captured u outputDir ai useAI,
        url ∈ downloadedAssets (clone e captured u outputDir ai useAI st).2)
  /\ (forall base outputDir name a ps ref,
        attr_truthy name a = Some ref ->
        resolveUrl ref base = Some url ->
        localize e base outputDir name a (ps, st)
        = (Some (set_attr name
                   (getFileName (date_now e (clock st)) ref "images") a),
           (ps ++ [Resolved], tick st))).
Proof.
  intros Hin. split; [|split].
  - intros localPath. by apply FetchFacts.downloadAsset_known.
  - intros captured u outputDir ai useAI.
    by apply (ClonerFacts.clone_remembers e captured u outputDir ai useAI st).
  - intros base outputDir name a ps ref Ha Hu.
    exact (FetchFacts.localize_known e base outputDir name a ps st ref url Ha Hu Hin).
Qed.

Lemma downloaded_url_never_refetched_witness :
  downloadAsset a_png "elsewhere/a.png" (mark_downloaded a_png fresh)
  = (Resolved, mark_downloaded a_png fresh).
Proof.
  refine (proj1 (downloaded_url_never_refetched offline a_png
                   (mark_downloaded a_png fresh) _) "elsewhere/a.png").
  apply (bool_decide_unpack _). vm_compute. exact I.
Defined.

(** C10.  The inline filter is a plain substring test: a script body that
    contains one of the fixed patterns anywhere is classified as tracking.
    Its text is then left out of the behaviour bundle, and no script with
    such a body is left in the final document. *)
Theorem signature_by_substring content pattern pre post :
  In pattern contentTrackingPatterns ->
  content = pre +:+ pattern +:+ post ->
  isTrackingScriptContent content = true
  /\ (forall a js,
        attr_truthy "src" a = None ->
        inline_script "script" a content js = (Some a, js))
  /\ (forall l1 l2,
        script_bundle (l1 ++ content :: l2) = script_bundle (l1 ++ l2))
  /\ (forall d js,
        (each inline_script d js).2
        = js +:+ script_bundle (select inline_script_text d))
  /\ (forall info d d',
        final_document info d = Some d' -> matches signed_script d' = false).
Proof.
  intros Hin Hc.
  pose proof (FetchFacts.signed_by_substring content pattern pre post Hin Hc) as E.
  repeat split.
  - exact E.
  - intros a js Ha. unfold inline_script. cbn [is_tag String.eqb Ascii.eqb Bool.eqb].
    by rewrite Ha, E.
  - intros. by apply FetchFacts.script_bundle_signed.
  - intros. apply ClonerFacts.inline_script_bundle.
  - intros info d d' Hout.
    apply (matches_weaken signed_script tracking_script).
    + apply FetchFacts.signed_is_tracking.
    + by destruct (RewriteFacts.rewrite_clean _ _ _ Hout) as (? & _).
Qed.

Lemma signature_by_substring_witness :
  isTrackingScriptContent "window.dataLayer=[]" = true.
Proof.
  refine (proj1 (signature_by_substring "window.dataLayer=[]" "dataLayer"
                   "window." "=[]" _ _)).
  - simpl. tauto.
  - reflexivity.
Defined.

End Claims.

(** * Checks on concrete inputs *)

Section Checks.
Import Dom WebsiteCloner Sample.

Example basename_file : Path.basename "/a/b/x.png" = "x.png".
Proof. reflexivity. Qed.
Example basename_dir : Path.basename "/a/b/" = "b".
Proof. reflexivity. Qed.
Example basename_root : Path.basename "/" = "".
Proof. reflexivity. Qed.
Example extname_plain : Path.extname "x.tar.gz" = ".gz".
Proof. reflexivity. Qed.
Example extname_hidden : Path.extname ".bashrc" = "".
Proof. reflexivity. Qed.
Example extname_trailing : Path.extname "a." = ".".
Proof. reflexivity. Qed.
Example extname_dots : Path.extname ".." = "".
Proof. reflexivity. Qed.
Example extname_none : Path.extname "image" = "".
Proof. reflexivity. Qed.
Example split_example : JS.split ","%char "a,b,,c" = ["a"; "b"; ""; "c"].
Proof. reflexivity. Qed.
Example replace_example : JS.replace "b.png" "L" "a b.png b.png" = "a L b.png".
Proof. reflexivity. Qed.
Example trim_example : JS.trim "  a b  " = "a b".
Proof. reflexivity. Qed.
Example url_abs :
  URL.href <$> URL.parse "HTTPS://CDN.Example.com/a/../x.png?v=2#top"
  = Some "https://cdn.example.com/x.png?v=2#top".
Proof. reflexivity. Qed.
Example url_root : URL.href <$> URL.parse "https://example.com" = Some "https://example.com/".
Proof. reflexivity. Qed.
Example url_no_scheme : URL.parse "/img/a.png" = None.
Proof. reflexivity. Qed.
Example url_scheme_relative_alone : URL.parse "//cdn.example.com/x.png" = None.
Proof. reflexivity. Qed.
Example url_rel_path :
  URL.href <$> URL.parse_with_base "../img/my pic.png" "https://example.com/a/b/c.html"
  = Some "https://example.com/a/img/my%20pic.png".
Proof. reflexivity. Qed.
Example url_rel_root :
  URL.href <$> URL.parse_with_base "/x.css" "https://example.com/a/b?q=1"
  = Some "https://example.com/x.css".
Proof. reflexivity. Qed.
Example url_rel_scheme :
  URL.href <$> URL.parse_with_base "//cdn.example.com/x.png?v=2" "https://example.com/"
  = Some "https://cdn.example.com/x.png?v=2".
Proof. reflexivity. Qed.
Example url_rel_fragment :
  URL.href <$> URL.parse_with_base "#top" "https://example.com/a?q=1#old"
  = Some "https://example.com/a?q=1#top".
Proof. reflexivity. Qed.
Example url_rel_query :
  URL.href <$> URL.parse_with_base "?x" "https://example.com/a/b?q=1#old"
  = Some "https://example.com/a/b?x".
Proof. reflexivity. Qed.
Example url_data :
  URL.href <$> URL.parse_with_base "data:image/png;base64,AAAA" "https://example.com/"
  = Some "data:image/png;base64,AAAA".
Proof. reflexivity. Qed.
Example url_bad_base : URL.parse_with_base "a.png" "not a url" = None.
Proof. reflexivity. Qed.

Example name_of_image : getFileName 0%N "https://cdn.example.com/a/My Pic.JPG" "images" = "My_20Pic.JPG".
Proof. reflexivity. Qed.
Example name_without_extension : getFileName 0%N "https://cdn.example.com/a/logo" "images" = "logo.png".
Proof. reflexivity. Qed.
Example name_of_other_type : getFileName 0%N "https://cdn.example.com/a/b.txt" "images" = "b.png".
Proof. reflexivity. Qed.
Example name_of_root : getFileName 0%N "https://cdn.example.com/" "images" = "image.png".
Proof. reflexivity. Qed.
Example name_of_relative : getFileName 17%N "/img/a.png" "images" = "image_17.png".
Proof. reflexivity. Qed.
Example css_captures :
  css_urls "a{b:url(x.png)} c{d:url('y z.png')} url(q" = ["x.png"; "y z.png"].
Proof. reflexivity. Qed.
Example srcset_candidates : srcset_urls "/a.png 1x, /b.png 2x" = ["/a.png"; "/b.png"].
Proof. reflexivity. Qed.
Example denied_src : isTrackingScript "https://www.googletagmanager.com/gtag/js?id=1" = true.
Proof. reflexivity. Qed.
Example allowed_src : isTrackingScript "/main.js" = false.
Proof. reflexivity. Qed.

(** The two references of the scenario end in one file. *)
Example versions_in_one_file :
  let run := downloadAssets (online "PNG") versions "https://example.com/" "out" fresh in
  requests run.2 = [x_png; x_png_v2]
  /\ (map_to_list (files run.2)).*1 = ["out/x.png"].
Proof. split; vm_compute; reflexivity. Qed.

(** A second run of one instance into another directory: nothing is
    requested and no image is written there, and the page in the second
    directory points at the local path. *)
Example second_run_skips_known_url :
  let page1 := Some (once, info "https://example.com/") in
  let first := clone (online "PNG") page1 "https://example.com/" "out1" None None fresh in
  let second := clone (online "PNG") page1 "https://example.com/" "out2" None None first.2 in
  requests first.2 = [a_png]
  /\ requests second.2 = [a_png]
  /\ files second.2 !! "out1/a.png" = Some (Bytes "PNG")
  /\ files second.2 !! "out2/a.png" = None
  /\ (exists d, files second.2 !! "out2/index.html" = Some (Markup d)
                /\ select img_src d = ["a.png"]).
Proof.
  repeat split; try (vm_compute; reflexivity).
  eexists. split; vm_compute; reflexivity.
Qed.

(** The second variant hands the capture to its [downloadAssets]. *)
Example variant2_ignores_ai dl e html0 pi url outputDir ai ai' st :
  requests (Variant2.clone dl e (Some (html0, pi)) url outputDir (Some ai)
              (Some true) st).2
  = requests (Variant2.clone dl e (Some (html0, pi)) url outputDir (Some ai')
                (Some true) st).2.
Proof. by rewrite !FetchFacts.variant2_scans_capture. Qed.

End Checks.
